(** * QUIZ.server: attempt lifecycle and answer grading

    A shallow embedding of the session controller
    (server/controllers/sessionController.js), the grading service
    (server/services/grading.js), the session model
    (server/models/QuizSession.js), the expiry script
    (server/cron/expireSessions.js) and the quiz generator
    (server/services/aiService.js: the retry loop, the extraction of the
    JSON block and the validation of the parsed questions), followed by the
    properties of the attempt state machine, of the grading engine and of
    the generator.

    Conventions of the embedding.
    - A JavaScript string is a [string]: a sequence of code units below
      U+0100 (Latin-1).  On that range [trim], [toLowerCase], [\s] and [\w]
      are the ones of ECMAScript; the replacement of curly quotes done by
      [normalizeText] is the identity there.
    - A JavaScript number is a [num]: NaN, an infinity, or a finite value
      kept as a rational.  [Number] of a string and the operations [+], [-]
      and [*] round to binary64 ([round64]: to nearest, ties to even,
      overflow to an infinity, subnormal values); [String] of a number
      gives the least digits that read back as it; the two zeros are one.  The
      only division of the code is the one of [similarity], which is kept
      exact: its result is compared with 0.8, and for lengths below 2^50 the
      rounded and the exact comparison agree.
    - A value a client or a quiz supplies is a primitive ([val]).
    - A JavaScript object used as a dictionary is a [jsobj]: its own
      properties in insertion order.  An object the code makes as [{}] and
      fills by assignments is a [dict], which also tells whether its
      prototype has become [null]: an assignment under the name [__proto__]
      reaches the setter of Object.prototype and makes no own property
      ([assign]).  A read [d[k]] is the own property ([readProp]); for a key
      that the object does not own and that names a member of
      Object.prototype ([inheritedName]), the code finds that member, which
      is no [val], and what is proved of such reads leaves those keys out.
    - A collection is the list of its documents.  The identifiers of the
      stored documents are ObjectIds, written short in the examples;
      [findById] of a string that does not cast to an ObjectId throws, which
      each handler answers with 500 ([isObjectId]).  [save] of a document
      whose array of answers was set is conditional on the version key [__v]
      and increments it; [findOneAndUpdate] leaves the version alone.
    - A date is an integer, its milliseconds since the epoch; the range of
      Date is not modelled.  The three readings of the clock in [startQuiz]
      are taken at the same millisecond.
    - A handler that awaits the store between its read and its write is cut
      into the part before the write and the write itself, so that another
      request can be scheduled in between.
    - What the outside world answers is an argument: [pick] for
      [Math.random], [post] for the replies of the API to the successive
      posts of [callGemini], whose loop runs on fuel. *)

From Stdlib Require Import ZArith QArith Qabs List String Ascii Bool Lia Permutation.
From Stdlib Require Import DecimalString DecimalNat.
From Stdlib Require Qcanon.
Import ListNotations.

Local Open Scope string_scope.
Local Open Scope Z_scope.

(** ** ECMAScript strings *)

Definition isWhiteSpace (c : ascii) : bool :=
  match N_of_ascii c with
  | 9%N | 10%N | 11%N | 12%N | 13%N | 32%N | 160%N => true
  | _ => false
  end.

Definition isDigit (c : ascii) : bool :=
  let n := N_of_ascii c in (48 <=? n)%N && (n <=? 57)%N.

Definition isWordChar (c : ascii) : bool :=
  let n := N_of_ascii c in
  ((65 <=? n)%N && (n <=? 90)%N) || ((97 <=? n)%N && (n <=? 122)%N)
  || isDigit c || (n =? 95)%N.

Definition lowerChar (c : ascii) : ascii :=
  let n := N_of_ascii c in
  if ((65 <=? n)%N && (n <=? 90)%N)
     || ((192 <=? n)%N && (n <=? 214)%N)
     || ((216 <=? n)%N && (n <=? 222)%N)
  then ascii_of_N (n + 32) else c.

Fixpoint mapChars (f : ascii -> ascii) (s : string) : string :=
  match s with
  | EmptyString => EmptyString
  | String c r => String (f c) (mapChars f r)
  end.

Fixpoint filterChars (p : ascii -> bool) (s : string) : string :=
  match s with
  | EmptyString => EmptyString
  | String c r => if p c then String c (filterChars p r) else filterChars p r
  end.

Definition toLowerCase (s : string) : string := mapChars lowerChar s.

Fixpoint trimStart (s : string) : string :=
  match s with
  | EmptyString => EmptyString
  | String c r => if isWhiteSpace c then trimStart r else s
  end.

Fixpoint trimEnd (s : string) : string :=
  match s with
  | EmptyString => EmptyString
  | String c r =>
      match trimEnd r with
      | EmptyString => if isWhiteSpace c then EmptyString else String c EmptyString
      | r' => String c r'
      end
  end.

Definition trim (s : string) : string := trimEnd (trimStart s).

(** [s.split(/\s+/)]: the pieces between maximal runs of white space; a run at
    the start or at the end of [s] leaves an empty piece there. *)
Fixpoint splitWsFrom (inRun : bool) (s : string) : list string :=
  match s with
  | EmptyString => [EmptyString]
  | String c r =>
      if isWhiteSpace c then
        if inRun then splitWsFrom true r else EmptyString :: splitWsFrom true r
      else
        match splitWsFrom false r with
        | tok :: rest => String c tok :: rest
        | [] => [String c EmptyString]
        end
  end.

Definition splitWs (s : string) : list string := splitWsFrom false s.

Definition nonEmpty (s : string) : bool :=
  match s with EmptyString => false | _ => true end.

(** Every character of [s] satisfies [p]. *)
Fixpoint allChars (p : ascii -> bool) (s : string) : bool :=
  match s with
  | EmptyString => true
  | String c r => p c && allChars p r
  end.

(** [.filter(Boolean)] on an array of strings. *)
Definition filterBoolean (l : list string) : list string := filter nonEmpty l.

(** [s.replace(/\s+/g, " ")]. *)
Fixpoint collapseWsFrom (inRun : bool) (s : string) : string :=
  match s with
  | EmptyString => EmptyString
  | String c r =>
      if isWhiteSpace c then
        if inRun then collapseWsFrom true r
        else String " "%char (collapseWsFrom true r)
      else String c (collapseWsFrom false r)
  end.

Definition collapseWs (s : string) : string := collapseWsFrom false s.

Definition decimalOfNat (n : nat) : string :=
  NilZero.string_of_uint (Nat.to_uint n).

Definition decimalOfZ (z : Z) : string :=
  NilZero.string_of_uint (N.to_uint (Z.to_N z)).

Fixpoint zeros (n : nat) : string :=
  match n with O => EmptyString | S k => String "0"%char (zeros k) end.

Fixpoint takeChars (n : nat) (s : string) : string :=
  match n, s with
  | S k, String c r => String c (takeChars k r)
  | _, _ => EmptyString
  end.

Fixpoint dropChars (n : nat) (s : string) : string :=
  match n, s with
  | S k, String _ r => dropChars k r
  | _, _ => s
  end.

(** ** ECMAScript numbers *)

(** A number: not-a-number, an infinity, or a finite value, which for the
    numbers the code computes is a binary64 value.  The two zeros are one. *)
Inductive num : Type :=
  | NaN
  | Inf (negative : bool)
  | Fin (q : Q).

Definition numZ (z : Z) : num := Fin (inject_Z z).
Definition numNat (n : nat) : num := numZ (Z.of_nat n).

Definition isNaN (x : num) : bool :=
  match x with NaN => true | _ => false end.

Definition numOpp (x : num) : num :=
  match x with
  | NaN => NaN
  | Inf b => Inf (negb b)
  | Fin q => Fin (- q)
  end.

(** The operations on the extended rationals, before rounding. *)
Definition numAdd (x y : num) : num :=
  match x, y with
  | NaN, _ | _, NaN => NaN
  | Inf a, Inf b => if Bool.eqb a b then Inf a else NaN
  | Inf a, Fin _ | Fin _, Inf a => Inf a
  | Fin p, Fin q => Fin (p + q)
  end.

Definition numSub (x y : num) : num := numAdd x (numOpp y).

Definition numMul (x y : num) : num :=
  match x, y with
  | NaN, _ | _, NaN => NaN
  | Inf a, Inf b => Inf (xorb a b)
  | Inf a, Fin q | Fin q, Inf a =>
      match Qcompare q 0 with
      | Eq => NaN
      | Lt => Inf (negb a)
      | Gt => Inf a
      end
  | Fin p, Fin q => Fin (p * q)
  end.

Definition numDiv (x y : num) : num :=
  match x, y with
  | NaN, _ | _, NaN => NaN
  | Inf _, Inf _ => NaN
  | Inf a, Fin q => Inf (xorb a (Qle_bool q 0 && negb (Qeq_bool q 0)))
  | Fin _, Inf _ => Fin 0
  | Fin p, Fin q =>
      if Qeq_bool q 0 then
        match Qcompare p 0 with
        | Eq => NaN
        | Lt => Inf true
        | Gt => Inf false
        end
      else Fin (p / q)
  end.

Definition numAbs (x : num) : num :=
  match x with
  | NaN => NaN
  | Inf _ => Inf false
  | Fin q => Fin (Qabs q)
  end.

(** [x === y] on numbers. *)
Definition numEq (x y : num) : bool :=
  match x, y with
  | Fin p, Fin q => Qeq_bool p q
  | Inf a, Inf b => Bool.eqb a b
  | _, _ => false
  end.

(** [x < y]. *)
Definition numLt (x y : num) : bool :=
  match x, y with
  | NaN, _ | _, NaN => false
  | Fin p, Fin q => negb (Qle_bool q p)
  | Inf a, Inf b => a && negb b
  | Inf a, Fin _ => a
  | Fin _, Inf b => negb b
  end.

(** [x >= y]. *)
Definition numGe (x y : num) : bool :=
  match x, y with
  | NaN, _ | _, NaN => false
  | Fin p, Fin q => Qle_bool q p
  | Inf a, Inf b => negb a || b
  | Inf a, Fin _ => negb a
  | Fin _, Inf b => b
  end.

(** Nearest integer, ties to even, of a non-negative rational. *)
Definition roundQ (q : Q) : Z :=
  let n := Qnum q in
  let d := Z.pos (Qden q) in
  let f := n / d in
  let r := n mod d in
  match 2 * r ?= d with
  | Lt => f
  | Gt => f + 1
  | Eq => if Z.even f then f else f + 1
  end.

(** [q * 2^e]. *)
Definition scale2 (q : Q) (e : Z) : Q :=
  match e with
  | Z0 => q
  | Zpos p => (Qnum q * 2 ^ Zpos p) # Qden q
  | Zneg p => Qnum q # (Qden q * 2 ^ p)%positive
  end.

(** The [e] with [2^e <= n/d < 2^(e+1)]. *)
Definition binade (n d : positive) : Z :=
  let e := Z.log2 (Zpos n) - Z.log2 (Zpos d) in
  if Qle_bool (scale2 1 e) (Zpos n # d) then e else e - 1.

(** The binary64 value nearest to [n/d], ties to the even significand: 53
    bits down to the exponent -1022, multiples of 2^-1074 below; [None] from
    2^1024 - 2^970 on, which rounds to infinity. *)
Definition roundPositive (n d : positive) : option Q :=
  let e := binade n d in
  let p := Z.max (e - 52) (-1074) in
  let m := roundQ (scale2 (Zpos n # d) (- p)) in
  if (1024 <=? e) || ((p =? 971) && (m =? 2 ^ 53)) then None
  else Some (Qred (scale2 (inject_Z m) p)).

Definition round64 (q : Q) : num :=
  match Qnum q with
  | Z0 => Fin 0
  | Zpos n =>
      match roundPositive n (Qden q) with
      | Some v => Fin v
      | None => Inf false
      end
  | Zneg n =>
      match roundPositive n (Qden q) with
      | Some v => Fin (- v)
      | None => Inf true
      end
  end.

Definition fl (x : num) : num :=
  match x with
  | Fin q => round64 q
  | _ => x
  end.

(** [x + y], [x - y] and [x * y] on Numbers. *)
Definition jsAdd (x y : num) : num := fl (numAdd x y).
Definition jsSub (x y : num) : num := fl (numSub x y).
Definition jsMul (x y : num) : num := fl (numMul x y).

Definition digitValue (c : ascii) : option Z :=
  let n := N_of_ascii c in
  if isDigit c then Some (Z.of_N n - 48)
  else if ((97 <=? n)%N && (n <=? 102)%N) then Some (Z.of_N n - 87)
  else if ((65 <=? n)%N && (n <=? 70)%N) then Some (Z.of_N n - 55)
  else None.

(** Reads the longest prefix of digits of the base; returns the value
    accumulated on [acc], the number of digits read and the rest. *)
Fixpoint readDigits (base : Z) (s : string) (acc : Z) (cnt : nat)
  : Z * nat * string :=
  match s with
  | EmptyString => (acc, cnt, s)
  | String c r =>
      match digitValue c with
      | Some d =>
          if d <? base then readDigits base r (acc * base + d) (S cnt)
          else (acc, cnt, s)
      | None => (acc, cnt, s)
      end
  end.

Definition readSign (s : string) : bool * string :=
  match s with
  | String "-"%char r => (true, r)
  | String "+"%char r => (false, r)
  | _ => (false, s)
  end.

Definition isEmpty (s : string) : bool := negb (nonEmpty s).

(** StrDecimalLiteral. *)
Definition parseDecimalLiteral (s : string) : option num :=
  let '(neg, s1) := readSign s in
  if String.eqb s1 "Infinity" then Some (Inf neg)
  else
    let '(a, na, s2) := readDigits 10 s1 0 O in
    let '(m, nb, s3) :=
      match s2 with
      | String "."%char r => readDigits 10 r a O
      | _ => (a, O, s2)
      end in
    match (na + nb)%nat with
    | O => None
    | _ =>
        let ex :=
          match s3 with
          | String c r =>
              if Ascii.eqb c "e"%char || Ascii.eqb c "E"%char then
                let '(eneg, r1) := readSign r in
                let '(e, ne, r2) := readDigits 10 r1 0 O in
                match ne with
                | O => None
                | _ => if isEmpty r2 then Some (if eneg then - e else e) else None
                end
              else None
          | EmptyString => Some 0
          end in
        match ex with
        | None => None
        | Some e =>
            let q := (inject_Z m * Qpower (inject_Z 10) (e - Z.of_nat nb))%Q in
            Some (Fin (if neg then (- q)%Q else q))
        end
    end.

(** NonDecimalIntegerLiteral: 0b, 0o and 0x forms. *)
Definition parseNonDecimalLiteral (s : string) : option num :=
  match s with
  | String "0"%char (String c r) =>
      let base :=
        if Ascii.eqb c "x"%char || Ascii.eqb c "X"%char then Some 16
        else if Ascii.eqb c "o"%char || Ascii.eqb c "O"%char then Some 8
        else if Ascii.eqb c "b"%char || Ascii.eqb c "B"%char then Some 2
        else None in
      match base with
      | Some b =>
          let '(v, n, rest) := readDigits b r 0 O in
          match n with
          | O => None
          | _ => if isEmpty rest then Some (numZ v) else None
          end
      | None => None
      end
  | _ => None
  end.

(** [Number(s)] for a string [s] (StringToNumber): the mathematical value of
    the literal, rounded. *)
Definition StringToNumber (s : string) : num :=
  let t := trim s in
  if isEmpty t then numZ 0
  else
    match parseNonDecimalLiteral t with
    | Some n => fl n
    | None =>
        match parseDecimalLiteral t with
        | Some n => fl n
        | None => NaN
        end
    end.

Definition decimalDigitsOf (p : positive) : Z :=
  Z.of_nat (String.length (NilZero.string_of_uint (Pos.to_uint p))).

Definition pow10 (e : Z) : Q := Qpower (inject_Z 10) e.

Fixpoint stripZerosFuel (fuel : nat) (s : Z) : Z :=
  match fuel with
  | O => s
  | S k => if (s mod 10 =? 0) && negb (s =? 0) then stripZerosFuel k (s / 10) else s
  end.

(** The decimal position of a positive rational: the [n] with
    [10^(n-1) <= q < 10^n]. *)
Definition decimalPosition (q : Q) : Z :=
  match Qnum q with
  | Z.pos a =>
      let n0 := decimalDigitsOf a - decimalDigitsOf (Qden q) in
      if negb (Qle_bool (pow10 n0) q) then n0 else n0 + 1
  | _ => 0
  end.

(** Whether the decimal [s * 10^(n-k)] is read back as the number [x]. *)
Definition readsBack (x : Q) (s n k : Z) : bool :=
  (0 <? s) && numEq (round64 (inject_Z s * pow10 (n - k))) (Fin x).

(** The decimal of [k] digits that is read back as [x], the one nearest to
    [x] when there are several. *)
Definition digitsOfLength (x : Q) (n k : Z) : option Z :=
  let t := (x * pow10 (k - n))%Q in
  let lo := Qnum t / Z.pos (Qden t) in
  if readsBack x (roundQ t) n k then Some (roundQ t)
  else if readsBack x lo n k then Some lo
  else if readsBack x (lo + 1) n k then Some (lo + 1)
  else None.

(** The least number of digits, from [k] on, that reads back as [x]; 17
    digits always do. *)
Fixpoint shortestFrom (x : Q) (n k : Z) (fuel : nat) : Z * Z :=
  match fuel with
  | O => (roundQ (x * pow10 (k - n)), k)
  | S fuel' =>
      match digitsOfLength x n k with
      | Some s => (s, k)
      | None => shortestFrom x n (k + 1) fuel'
      end
  end.

(** The digits and the decimal position of a positive binary64 value [x]:
    [(s, n)] with [s] free of trailing zeros, as few digits as read back as
    [x], and the value [0.s * 10^n]. *)
Definition digitsAndExponent (x : Q) : Z * Z :=
  match Qnum x with
  | Z.pos _ =>
      let n := decimalPosition x in
      let '(s, k) := shortestFrom x n 1 16 in
      (stripZerosFuel 17 s, if s =? 10 ^ k then n + 1 else n)
  | _ => (0, 0)
  end.

(** Number::toString for a positive finite number. *)
Definition positiveToString (q : Q) : string :=
  let '(s, n) := digitsAndExponent q in
  let ds := decimalOfZ s in
  let k := Z.of_nat (String.length ds) in
  if (k <=? n) && (n <=? 21) then ds ++ zeros (Z.to_nat (n - k))
  else if (0 <? n) && (n <=? 21) then
    takeChars (Z.to_nat n) ds ++ "." ++ dropChars (Z.to_nat n) ds
  else if (-6 <? n) && (n <=? 0) then "0." ++ zeros (Z.to_nat (- n)) ++ ds
  else
    let e := n - 1 in
    let mant := if k =? 1 then ds else takeChars 1 ds ++ "." ++ dropChars 1 ds in
    mant ++ "e" ++ (if e <? 0 then "-" else "+") ++ decimalOfZ (Z.abs e).

(** [String(x)] for a number [x], taken as the binary64 value it is or
    rounds to. *)
Definition NumberToString (x : num) : string :=
  match fl x with
  | NaN => "NaN"
  | Inf false => "Infinity"
  | Inf true => "-Infinity"
  | Fin q =>
      match Qcompare q 0 with
      | Eq => "0"
      | Lt => "-" ++ positiveToString (- q)%Q
      | Gt => positiveToString q
      end
  end.

(** ** ECMAScript values *)

Inductive val : Type :=
  | VUndefined
  | VNull
  | VBool (b : bool)
  | VNum (n : num)
  | VStr (s : string).

(** ToBoolean. *)
Definition truthy (v : val) : bool :=
  match v with
  | VUndefined | VNull => false
  | VBool b => b
  | VNum NaN => false
  | VNum (Inf _) => true
  | VNum (Fin q) => negb (Qeq_bool q 0)
  | VStr s => nonEmpty s
  end.

(** [a || b]. *)
Definition orElse (a b : val) : val := if truthy a then a else b.

(** [String(v)]. *)
Definition ToString (v : val) : string :=
  match v with
  | VUndefined => "undefined"
  | VNull => "null"
  | VBool true => "true"
  | VBool false => "false"
  | VNum n => NumberToString n
  | VStr s => s
  end.

(** [Number(v)]. *)
Definition ToNumber (v : val) : num :=
  match v with
  | VUndefined => NaN
  | VNull => numZ 0
  | VBool b => numZ (if b then 1 else 0)
  | VNum n => n
  | VStr s => StringToNumber s
  end.

Definition isUndefined (v : val) : bool :=
  match v with VUndefined => true | _ => false end.

(** ** Objects used as dictionaries *)

Definition jsobj (A : Type) : Type := list (string * A).

(** The own properties of an object, in insertion order; [getProp o k] is the
    own property [k]. *)
Fixpoint getProp {A : Type} (o : jsobj A) (k : string) : option A :=
  match o with
  | [] => None
  | (k', v) :: r => if String.eqb k' k then Some v else getProp r k
  end.

(** An own property is written: an existing key keeps its place. *)
Fixpoint setProp {A : Type} (o : jsobj A) (k : string) (v : A) : jsobj A :=
  match o with
  | [] => [(k, v)]
  | (k', v') :: r =>
      if String.eqb k' k then (k, v) :: r else (k', v') :: setProp r k v
  end.

(** An object made by the code as [{}] and filled by assignments: its own
    properties, and whether its prototype has been set to [null]. *)
Record dict (A : Type) : Type := mkDict {
  own : jsobj A;
  nullProto : bool
}.

Arguments mkDict {A} own nullProto.
Arguments own {A} d.
Arguments nullProto {A} d.

Definition emptyDict {A : Type} : dict A := mkDict [] false.

(** What a value is to the setter of [__proto__]. *)
Inductive Kind : Type :=
  | KNull
  | KObject
  | KPrimitive.

(** [d[k] = v].  Under the name [__proto__] the assignment reaches the setter
    that Object.prototype provides: [null] or an object becomes the prototype
    of [d], any other value is ignored, and in no case is an own property
    made.  An object that becomes the prototype here is a plain object or a
    document, so Object.prototype stays on the chain and the setter with it;
    once the prototype is [null] the setter is gone and [__proto__] is a name
    like the others. *)
Definition assign {A : Type} (kind : A -> Kind) (d : dict A) (k : string) (v : A)
  : dict A :=
  if String.eqb k "__proto__" && negb (nullProto d) then
    match kind v with
    | KNull => mkDict (own d) true
    | _ => d
    end
  else mkDict (setProp (own d) k v) (nullProto d).

(** The names of the properties of Object.prototype. *)
Definition prototypeNames : list string :=
  ["constructor"; "__defineGetter__"; "__defineSetter__"; "hasOwnProperty";
   "__lookupGetter__"; "__lookupSetter__"; "isPrototypeOf"; "propertyIsEnumerable";
   "toString"; "valueOf"; "__proto__"; "toLocaleString"].

Definition inheritedName (k : string) : bool := existsb (String.eqb k) prototypeNames.

(** [d[k]] read as the own property [k] of [d], [None] for [undefined].  This
    is the value of [d[k]] whenever [d] owns [k], its prototype is [null], or
    [inheritedName k] is false.  In the remaining case the code reads a
    member of Object.prototype, a function or an object, which is not among
    the values of this development: what is proved of a read says which
    names it is about. *)
Definition readProp {A : Type} (d : dict A) (k : string) : option A := getProp (own d) k.

(** An array index: a canonical numeric string below 2^32 - 1. *)
Definition arrayIndexOf (k : string) : option Z :=
  match k with
  | EmptyString => None
  | String c r =>
      if Ascii.eqb c "0"%char && nonEmpty r then None
      else
        let '(v, _, rest) := readDigits 10 k 0 O in
        if isEmpty rest && (v <? 4294967295) then Some v else None
  end.

Fixpoint insertIndex (x : Z * string) (l : list (Z * string)) : list (Z * string) :=
  match l with
  | [] => [x]
  | y :: r => if fst x <=? fst y then x :: l else y :: insertIndex x r
  end.

Definition sortIndices (l : list (Z * string)) : list (Z * string) :=
  fold_right insertIndex [] l.

Fixpoint indexKeys (ks : list string) : list (Z * string) :=
  match ks with
  | [] => []
  | k :: r =>
      match arrayIndexOf k with
      | Some i => (i, k) :: indexKeys r
      | None => indexKeys r
      end
  end.

Definition isIndexKey (k : string) : bool :=
  match arrayIndexOf k with Some _ => true | None => false end.

(** [Object.keys(o)]: array indices in ascending order, then the other keys
    in insertion order. *)
Definition Object_keys {A : Type} (o : jsobj A) : list string :=
  let ks := map fst o in
  map snd (sortIndices (indexKeys ks))
  ++ filter (fun k => negb (isIndexKey k)) ks.

(** [arr[k]] for a property key [k] of an array: an element, its length, or
    [undefined]; exact for the keys that are an index, [length], or none of
    the names of the members of Array.prototype and Object.prototype. *)
Definition arrayGetKey (arr : list val) (k : string) : val :=
  match arrayIndexOf k with
  | Some i => nth (Z.to_nat i) arr VUndefined
  | None =>
      if String.eqb k "length" then VNum (numNat (List.length arr)) else VUndefined
  end.

(** [arr[v]] for a value [v]: the key is [String(v)]. *)
Definition arrayGet (arr : list val) (v : val) : val := arrayGetKey arr (ToString v).

(** A string that casts to an ObjectId: 24 hexadecimal digits (bson 6; earlier
    versions also took any string of 12 characters). *)
Definition isHexDigit (c : ascii) : bool :=
  match digitValue c with Some _ => true | None => false end.

Definition isObjectId (s : string) : bool :=
  (String.length s =? 24)%nat && allChars isHexDigit s.

(** ** server/services/grading.js *)

Definition keptByNormalize (c : ascii) : bool :=
  isWordChar c || isWhiteSpace c || Ascii.eqb c "'"%char || Ascii.eqb c "-"%char.

Definition normalizeText (s : val) : string :=
  match s with
  | VUndefined | VNull => ""
  | _ => collapseWs (filterChars keptByNormalize (toLowerCase (trim (ToString s))))
  end.

Definition sanitizeUserShortAnswer (raw : val) : string :=
  match raw with
  | VUndefined | VNull => ""
  | _ =>
      let s := trim (ToString raw) in
      let parts := filterBoolean (splitWs s) in
      match parts with
      | p :: _ => toLowerCase p
      | [] => ""
      end
  end.

(** The row [dp[0]]: [dp[0][j] = j]. *)
Definition firstRow (t : string) : list nat := seq 0 (S (String.length t)).

(** The cells [dp[i][1..]] of a row, from the row above ([diag] and [ups] are
    [dp[i-1][j-1]] and [dp[i-1][j..]]) and the cell at the left. *)
Fixpoint fillRow (c : ascii) (t : string) (diag : nat) (ups : list nat)
  (left : nat) : list nat :=
  match t, ups with
  | String d t', up :: ups' =>
      let cost := if Ascii.eqb c d then O else 1%nat in
      let v := Nat.min (Nat.min (up + 1) (left + 1)) (diag + cost) in
      v :: fillRow c t' up ups' v
  | _, _ => []
  end.

(** The row [dp[i]] for the character [c = s[i-1]]. *)
Definition nextRow (c : ascii) (t : string) (prev : list nat) (i : nat) : list nat :=
  match prev with
  | diag :: ups => i :: fillRow c t diag ups i
  | [] => [i]
  end.

Fixpoint fillTable (s t : string) (prev : list nat) (i : nat) : list (list nat) :=
  match s with
  | EmptyString => []
  | String c s' =>
      let row := nextRow c t prev i in
      row :: fillTable s' t row (S i)
  end.

Definition dpTable (s t : string) : list (list nat) :=
  firstRow t :: fillTable s t (firstRow t) 1.

(** Levenshtein distance (classic DP). *)
Definition levenshtein (s t : string) : nat :=
  let n := String.length s in
  let m := String.length t in
  match n, m with
  | O, _ => m
  | _, O => n
  | _, _ => nth m (nth n (dpTable s t) []) O
  end.

(** similarity: 1 - (distance / maxLen), as the rational it is; the code
    returns the binary64 value next to it, and the two are at the same side
    of 0.8 for lengths below 2^50. *)
Definition similarity (s t : string) : num :=
  let maxLen := Nat.max (String.length s) (String.length t) in
  match maxLen with
  | O => numZ 1
  | _ =>
      let dist := levenshtein s t in
      numSub (numZ 1) (numDiv (numNat dist) (numNat maxLen))
  end.

Definition small : jsobj Z :=
  [("zero", 0); ("one", 1); ("two", 2); ("three", 3); ("four", 4);
   ("five", 5); ("six", 6); ("seven", 7); ("eight", 8); ("nine", 9);
   ("ten", 10); ("eleven", 11); ("twelve", 12); ("thirteen", 13);
   ("fourteen", 14); ("fifteen", 15); ("sixteen", 16); ("seventeen", 17);
   ("eighteen", 18); ("nineteen", 19)].

Definition tens : jsobj Z :=
  [("twenty", 20); ("thirty", 30); ("forty", 40); ("fifty", 50);
   ("sixty", 60); ("seventy", 70); ("eighty", 80); ("ninety", 90)].

(** One turn of the token loop of [wordToNumber] on [(total, current)];
    [None] is the early [return null]. *)
Definition wordStep (st : num * num) (w : string) : option (num * num) :=
  let '(total, current) := st in
  match getProp small w with
  | Some v => Some (total, jsAdd current (numZ v))
  | None =>
      match getProp tens w with
      | Some v => Some (total, jsAdd current (numZ v))
      | None =>
          if String.eqb w "hundred" then
            let current := if numEq current (numZ 0) then numZ 1 else current in
            Some (total, jsMul current (numZ 100))
          else if String.eqb w "thousand" then
            let current := if numEq current (numZ 0) then numZ 1 else current in
            Some (jsAdd total (jsMul current (numZ 1000)), numZ 0)
          else if negb (isNaN (StringToNumber w)) then
            Some (total, jsAdd current (StringToNumber w))
          else None
      end
  end.

Fixpoint wordLoop (st : num * num) (tokens : list string) : option (num * num) :=
  match tokens with
  | [] => Some st
  | w :: r =>
      match wordStep st w with
      | Some st' => wordLoop st' r
      | None => None
      end
  end.

Definition dashOrCommaToSpace (c : ascii) : ascii :=
  if Ascii.eqb c "-"%char || Ascii.eqb c ","%char then " "%char else c.

(** Returns number or null ([None]) if parsing fails. *)
Definition wordToNumber (text : string) : option num :=
  if isEmpty text then None
  else
    let s := mapChars dashOrCommaToSpace (trim (toLowerCase text)) in
    let tokens := filterBoolean (splitWs s) in
    match tokens with
    | [] => None
    | _ =>
        match wordLoop (numZ 0, numZ 0) tokens with
        | Some (total, current) => Some (jsAdd total current)
        | None => None
        end
    end.

Definition parseMaybeNumber (s : val) : option num :=
  match s with
  | VUndefined | VNull => None
  | _ =>
      let str := toLowerCase (trim (ToString s)) in
      if (String.length str =? 0)%nat then None
      else
        let n := StringToNumber str in
        if negb (isNaN n) then Some n
        else
          match wordToNumber str with
          | Some wn => if negb (isNaN wn) then Some wn else None
          | None => None
          end
  end.

Record Question : Type := mkQuestion {
  q_qid : string;            (* "" when absent *)
  q_id : string;             (* "" when absent *)
  q_type : string;
  q_difficulty : val;
  q_question : val;
  q_choices : option (list val);
  q_answer_index : val;
  q_answer_text : val;
  q_explanation : val
}.

Record GradeResult : Type := mkGradeResult {
  r_isCorrect : bool;
  r_expected : val;
  r_similarity : option num;      (* [None]: the property is absent *)
  r_numericMatch : option bool
}.

Definition includes (l : list string) (x : string) : bool :=
  existsb (String.eqb x) l.

Definition truthyWords : list string := ["true"; "t"; "1"; "yes"; "y"].
Definition falsyWords : list string := ["false"; "f"; "0"; "no"; "n"].

Definition asBool (x : string) : option bool :=
  if includes falsyWords x then Some false
  else if includes truthyWords x then Some true
  else None.

(** The literals [1e-9], a binary64 value, and [0.8], compared with the
    rational of [similarity]. *)
Definition tolerance : num := round64 (1 # 1000000000).
Definition threshold : num := Fin (8 # 10).

Definition gradeQuestion (question : Question) (userAnswer : val) : GradeResult :=
  if String.eqb (q_type question) "mcq" then
    let expectedIndex := ToNumber (q_answer_index question) in
    let isCorrect := numEq (ToNumber userAnswer) expectedIndex in
    let expected :=
      orElse (match q_choices question with
              | Some cs => arrayGet cs (VNum expectedIndex)
              | None => VUndefined
              end) VNull in
    mkGradeResult isCorrect expected None None
  else if String.eqb (q_type question) "tf" then
    let expNormalized := normalizeText (orElse (q_answer_text question) (VStr "")) in
    let ua := normalizeText userAnswer in
    let expBool := asBool expNormalized in
    let uaBool := asBool ua in
    let isCorrect :=
      match expBool, uaBool with
      | Some e, Some u => Bool.eqb e u
      | _, _ => String.eqb expNormalized ua
      end in
    mkGradeResult isCorrect (q_answer_text question) None None
  else
    let expectedRaw := ToString (orElse (q_answer_text question) (VStr "")) in
    let expectedSanitized := hd "" (splitWs (normalizeText (VStr expectedRaw))) in
    let uaSanitized := sanitizeUserShortAnswer userAnswer in
    if nonEmpty expectedSanitized && String.eqb uaSanitized expectedSanitized then
      mkGradeResult true (q_answer_text question) None None
    else
      let expNum := parseMaybeNumber (VStr expectedRaw) in
      let uaNum := parseMaybeNumber (VStr uaSanitized) in
      match expNum, uaNum with
      | Some e, Some u =>
          if numLt (numAbs (jsSub e u)) tolerance then
            mkGradeResult true (q_answer_text question) None (Some true)
          else
            let sim := similarity expectedSanitized uaSanitized in
            mkGradeResult (numGe sim threshold) (q_answer_text question) (Some sim) None
      | _, _ =>
          let sim := similarity expectedSanitized uaSanitized in
          mkGradeResult (numGe sim threshold) (q_answer_text question) (Some sim) None
      end.

Record Detail : Type := mkDetail {
  d_qid : string;
  d_isCorrect : bool;
  d_expected : val;
  d_similarity : option num;
  d_numericMatch : bool;
  d_userAnswer : val;
  d_question : val;
  d_explanation : val
}.

(** The second argument of [gradeAll]: an object mapping qid to userAnswer,
    or an array aligned to the questions. *)
Inductive AnswerSet : Type :=
  | AnswersByQid (o : dict val)
  | AnswersArray (l : list val).

Definition orUndefined (o : option val) : val :=
  match o with Some v => v | None => VUndefined end.

(** [q.qid || q.id || `q${idx + 1}`]. *)
Definition qidOf (q : Question) (idx : nat) : string :=
  if nonEmpty (q_qid q) then q_qid q
  else if nonEmpty (q_id q) then q_id q
  else "q" ++ decimalOfNat (idx + 1).

Definition answerFor (answers : AnswerSet) (qid : string) (idx : nat) : val :=
  match answers with
  | AnswersArray l => nth idx l VUndefined
  | AnswersByQid o => orUndefined (readProp o qid)
  end.

Record GradeAllResult : Type := mkGradeAllResult {
  totalCorrect : nat;
  details : list Detail
}.

(** The body of the [forEach] of [gradeAll], on the pair of the accumulated
    [totalCorrect] and [details]. *)
Definition gradeStep (answers : AnswerSet) (acc : GradeAllResult)
  (q : Question) (idx : nat) : GradeAllResult :=
  let qid := qidOf q idx in
  let userAnswer := answerFor answers qid idx in
  let result := gradeQuestion q userAnswer in
  let d := mkDetail qid (r_isCorrect result) (r_expected result)
             (r_similarity result)
             (match r_numericMatch result with Some b => b | None => false end)
             (if isUndefined userAnswer then VNull else userAnswer)
             (q_question q)
             (orElse (q_explanation q) VNull) in
  mkGradeAllResult
    (if r_isCorrect result then S (totalCorrect acc) else totalCorrect acc)
    (details acc ++ [d]).

Fixpoint gradeLoop (answers : AnswerSet) (acc : GradeAllResult)
  (questions : list Question) (idx : nat) : GradeAllResult :=
  match questions with
  | [] => acc
  | q :: rest => gradeLoop answers (gradeStep answers acc q idx) rest (S idx)
  end.

Definition gradeAll (questions : list Question) (answers : AnswerSet) : GradeAllResult :=
  gradeLoop answers (mkGradeAllResult O []) questions O.

(** ** server/models/QuizSession.js *)

Inductive Status : Type :=
  | InProgress     (* "in-progress" *)
  | Finished       (* "finished" *)
  | TimedOut.      (* "timed-out" *)

Definition Status_eqb (a b : Status) : bool :=
  match a, b with
  | InProgress, InProgress | Finished, Finished | TimedOut, TimedOut => true
  | _, _ => false
  end.

(** An element of [answers], with the properties the code writes; [None] is a
    property the writer left out. *)
Record Answer : Type := mkAnswer {
  a_qid : string;
  a_userAnswer : val;
  a_isCorrect : option bool;
  a_timeTakenSeconds : option Z
}.

Record Session : Type := mkSession {
  s_id : string;
  s_quiz : string;
  s_user : string;
  s_username : string;
  s_status : Status;
  s_startedAt : Z;
  s_expiresAt : option Z;
  s_finishedAt : option Z;
  s_autoSubmitted : bool;
  s_questions : list Question;
  s_answers : list Answer;
  s_score : nat;
  s_totalQuestions : nat;
  s_isPractice : bool;
  s_attemptDurationSeconds : option num;
  s_v : nat                         (* __v, the version key *)
}.

(** The collection, in natural order. *)
Definition Sessions : Type := list Session.

Fixpoint findOne (p : Session -> bool) (db : Sessions) : option Session :=
  match db with
  | [] => None
  | s :: r => if p s then Some s else findOne p r
  end.

Definition findById (db : Sessions) (sessionId : string) : option Session :=
  findOne (fun s => String.eqb (s_id s) sessionId) db.

(** [findOneAndUpdate(filter, update, { new: true })]: one atomic step on the
    first document that matches; the updated document, or [None] and an
    unchanged collection. *)
Fixpoint findOneAndUpdate (p : Session -> bool) (upd : Session -> Session)
  (db : Sessions) : Sessions * option Session :=
  match db with
  | [] => ([], None)
  | s :: r =>
      if p s then (upd s :: r, Some (upd s))
      else let '(r', res) := findOneAndUpdate p upd r in (s :: r', res)
  end.

(** [find(filter).limit(n)]. *)
Definition findLimit (p : Session -> bool) (n : nat) (db : Sessions) : list Session :=
  firstn n (filter p db).

Record User : Type := mkUser {
  u_id : string;
  u_points : Z;
  u_quizzesAttempted : Z;
  u_totalCorrect : Z
}.

Definition Users : Type := list User.

(** [User.findByIdAndUpdate(id, { $inc: ... }, { new: true })]. *)
Fixpoint incStats (users : Users) (id : string) (score : nat) : Users * option User :=
  match users with
  | [] => ([], None)
  | u :: r =>
      if String.eqb (u_id u) id then
        let u' := mkUser (u_id u) (u_points u + Z.of_nat score)
                    (u_quizzesAttempted u + 1) (u_totalCorrect u + Z.of_nat score) in
        (u' :: r, Some u')
      else let '(r', res) := incStats r id score in (u :: r', res)
  end.

(** ** server/controllers/sessionController.js *)

Inductive Response (A : Type) : Type :=
  | Json (body : A)                          (* res.json(body) *)
  | Error (code : nat) (error : string).     (* res.status(code).json({ error }) *)

Arguments Json {A} body.
Arguments Error {A} code error.

(** The two durations are Numbers of the schema; [None] is [null]. *)
Record QuizSettings : Type := mkQuizSettings {
  shuffleQuestions : bool;
  attemptDurationSeconds : option num;
  timeLimitSeconds : option num
}.

Record Quiz : Type := mkQuiz {
  quiz_id : string;
  quiz_questions : option (list Question);
  quiz_startAt : option Z;
  quiz_endAt : option Z;
  quiz_settings : option QuizSettings
}.

Record ClientQuestion : Type := mkClientQuestion {
  cq_qid : string;
  cq_type : string;
  cq_difficulty : val;
  cq_question : val;
  cq_choices : list val;
  cq_explanation : option val;      (* [None]: the property is not sent *)
  cq_answer_text : option val;
  cq_answer_index : option val
}.

Record StartBody : Type := mkStartBody {
  st_sessionId : string;
  st_quizId : string;
  st_expiresAt : option Z;
  st_attemptDurationSeconds : option num;
  st_totalQuestions : nat;
  st_questions : list ClientQuestion
}.

(** [x ?? d]. *)
Definition nullish (x d : val) : val :=
  match x with VUndefined | VNull => d | _ => x end.

Definition snapshotQuestion (q : Question) (i : nat) : Question :=
  mkQuestion
    (if nonEmpty (q_qid q) then q_qid q else "q" ++ decimalOfNat (i + 1))
    ""
    (q_type q) (q_difficulty q) (q_question q)
    (Some (match q_choices q with Some cs => cs | None => [] end))
    (nullish (q_answer_index q) VNull)
    (nullish (q_answer_text q) VNull)
    (nullish (q_explanation q) (VStr "")).

Fixpoint mapi {A B : Type} (f : A -> nat -> B) (l : list A) (i : nat) : list B :=
  match l with
  | [] => []
  | x :: r => f x i :: mapi f r (S i)
  end.

Fixpoint setNth {A : Type} (l : list A) (i : nat) (x : A) : list A :=
  match l, i with
  | [], _ => []
  | _ :: r, O => x :: r
  | y :: r, S k => y :: setNth r k x
  end.

(** [[a[i], a[j]] = [a[j], a[i]]]. *)
Definition swap {A : Type} (l : list A) (i j : nat) : list A :=
  match nth_error l i, nth_error l j with
  | Some x, Some y => setNth (setNth l i y) j x
  | _, _ => l
  end.

(** The shuffle loop, from index [i] down to 1; [pick i] stands for
    [Math.floor(Math.random() * (i + 1))]. *)
Fixpoint shuffleFrom {A : Type} (pick : nat -> nat) (i : nat) (l : list A) : list A :=
  match i with
  | O => l
  | S k => shuffleFrom pick k (swap l i (pick i mod (i + 1))%nat)
  end.

Definition clientSafe (q : Question) : ClientQuestion :=
  mkClientQuestion (q_qid q) (q_type q) (q_difficulty q) (q_question q)
    (match q_choices q with Some cs => cs | None => [] end) None None None.

Definition optLt (now : Z) (bound : option Z) : bool :=
  match bound with Some b => now <? b | None => false end.

Definition optGt (now : Z) (bound : option Z) : bool :=
  match bound with Some b => b <? now | None => false end.

Definition orOpt {A : Type} (a b : option A) : option A :=
  match a with Some _ => a | None => b end.

(** [new Date(t)] for a Number [t]: the time value, [t] cut to an integer.
    The range of Date is not modelled: where [t] is beyond 8.64e15 in
    magnitude or not finite, the date of the code is invalid and the handler
    fails on it, whereas this definition gives a date beyond the range or
    none.  What is proved of a deadline says the range it is about. *)
Definition dateOf (t : num) : option Z :=
  match t with
  | Fin q => Some (Z.quot (Qnum q) (Z.pos (Qden q)))
  | _ => None
  end.

(** [expiresAt]: [durationSeconds && Number(durationSeconds) > 0] and then
    [new Date(Date.now() + Number(durationSeconds) * 1000)]. *)
Definition deadline (now : Z) (durationSeconds : option num) : option Z :=
  match durationSeconds with
  | Some d =>
      if truthy (VNum d) && numLt (numZ 0) d
      then dateOf (jsAdd (numZ now) (jsMul d (numZ 1000)))
      else None
  | None => None
  end.

(** POST /api/sessions/quizzes/:id/start.  [now] is the clock, read three
    times by the handler and taken here at the same millisecond; [newId] is
    the identifier given to the inserted document.  [findById] casts its
    argument to an ObjectId and throws when it cannot; the identifiers of the
    stored documents are ObjectIds, so an argument that does not cast finds
    nothing, and the error is raised where the search fails. *)
Definition startQuiz (quizzes : list Quiz) (db : Sessions)
  (userId username quizId : string) (now : Z) (newId : string)
  (pick : nat -> nat) : Sessions * Response StartBody :=
  match find (fun q => String.eqb (quiz_id q) quizId) quizzes with
  | None =>
      if isObjectId quizId then (db, Error 404 "Quiz not found")
      else (db, Error 500 "Failed to start quiz")
  | Some quiz =>
      if optLt now (quiz_startAt quiz) then (db, Error 400 "Quiz has not started yet")
      else if optGt now (quiz_endAt quiz) then (db, Error 400 "Quiz has ended")
      else
        match findOne (fun s => String.eqb (s_quiz s) quizId
                                && String.eqb (s_user s) userId
                                && Status_eqb (s_status s) Finished) db with
        | Some _ =>
            (db, Error 403 "You have already completed this quiz (single attempt only)")
        | None =>
            let snapshot :=
              mapi snapshotQuestion
                (match quiz_questions quiz with Some qs => qs | None => [] end) O in
            let wantsShuffle :=
              match quiz_settings quiz with
              | Some st => shuffleQuestions st
              | None => false
              end in
            let questionsSnapshot :=
              if wantsShuffle
              then shuffleFrom pick (List.length snapshot - 1) snapshot
              else snapshot in
            let durationSeconds :=
              match quiz_settings quiz with
              | Some st => orOpt (attemptDurationSeconds st) (timeLimitSeconds st)
              | None => None
              end in
            let expiresAt := deadline now durationSeconds in
            let session :=
              mkSession newId (quiz_id quiz) userId username InProgress now
                expiresAt None false questionsSnapshot []
                O (List.length questionsSnapshot) false durationSeconds O in
            ((db ++ [session])%list,
             Json (mkStartBody newId (quiz_id quiz) expiresAt durationSeconds
                     (s_totalQuestions session) (map clientSafe questionsSnapshot)))
        end
  end.

Record ReviewDetail : Type := mkReviewDetail {
  rd_qid : string;
  rd_isCorrect : bool;
  rd_userAnswer : val;
  rd_explanation : val;
  rd_question : val;
  rd_expected : val
}.

(** A value of the [answers] map sent by [getSession]: the raw user answer, or
    the stored answer object. *)
Inductive AnswerView : Type :=
  | RawAnswer (userAnswer : val)
  | FullAnswer (a : Answer).

Record SessionBody : Type := mkSessionBody {
  sb_id : string;
  sb_quiz : string;
  sb_status : Status;
  sb_startedAt : Z;
  sb_expiresAt : option Z;
  sb_totalQuestions : nat;
  sb_attemptDurationSeconds : option num;
  sb_questions : list ClientQuestion;
  sb_details : option (list ReviewDetail);    (* [None]: undefined *)
  sb_answers : jsobj AnswerView;
  sb_score : nat;
  sb_autoSubmitted : bool
}.

Definition valKind (v : val) : Kind :=
  match v with
  | VNull => KNull
  | _ => KPrimitive
  end.

Definition viewKind (v : AnswerView) : Kind :=
  match v with
  | RawAnswer ua => valKind ua
  | FullAnswer _ => KObject
  end.

Definition clientQuestion (isFinished : bool) (q : Question) : ClientQuestion :=
  mkClientQuestion (q_qid q) (q_type q) (q_difficulty q) (q_question q)
    (match q_choices q with Some cs => cs | None => [] end)
    (if isFinished then Some (q_explanation q) else None)
    (if isFinished then Some (q_answer_text q) else None)
    (if isFinished then Some (q_answer_index q) else None).

(** [session.answers.find(a => a.qid === q.qid)]. *)
Definition findAnswer (answers : list Answer) (qid : string) : option Answer :=
  find (fun a => String.eqb (a_qid a) qid) answers.

Definition reviewDetail (answers : list Answer) (q : Question) : ReviewDetail :=
  let answer := findAnswer answers (q_qid q) in
  mkReviewDetail (q_qid q)
    (match answer with
     | Some a => match a_isCorrect a with Some b => b | None => false end
     | None => false
     end)
    (match answer with Some a => a_userAnswer a | None => VUndefined end)
    (q_explanation q)
    (q_question q)
    (orElse
       (orElse (q_answer_text q)
          (match q_choices q with
           | Some cs => arrayGet cs (q_answer_index q)
           | None => VUndefined
           end))
       VNull).

(** GET /api/sessions/:sessionId *)
Definition getSession (db : Sessions) (userId sessionId : string)
  : Response SessionBody :=
  match findById db sessionId with
  | None =>
      if isObjectId sessionId then Error 404 "Session not found"
      else Error 500 "Failed to load session"
  | Some session =>
      if negb (String.eqb (s_user session) userId) then
        Error 403 "This session does not belong to you"
      else
        let isFinished := Status_eqb (s_status session) Finished in
        let clientQuestions := map (clientQuestion isFinished) (s_questions session) in
        let reviewDetails :=
          if isFinished
          then map (reviewDetail (s_answers session)) (s_questions session)
          else [] in
        let answersMap :=
          fold_left
            (fun acc a =>
               assign viewKind acc (a_qid a)
                 (if isFinished then FullAnswer a else RawAnswer (a_userAnswer a)))
            (s_answers session) emptyDict in
        Json (mkSessionBody (s_id session) (s_quiz session) (s_status session)
                (s_startedAt session) (s_expiresAt session)
                (s_totalQuestions session) (s_attemptDurationSeconds session)
                clientQuestions
                (match reviewDetails with [] => None | _ => Some reviewDetails end)
                (own answersMap) (s_score session) (s_autoSubmitted session))
  end.

(** An element of an answers array of a request body. *)
Inductive Elem : Type :=
  | ENull                                       (* null *)
  | EEntry (qid : string) (userAnswer : val).   (* { qid, userAnswer }; qid "" when absent *)

(** [req.body.answers]. *)
Inductive Payload : Type :=
  | PArray (l : list Elem)
  | PObject (o : jsobj val)
  | PPrim (v : val).                            (* absent, null or a primitive *)

Record SaveBody : Type := mkSaveBody {
  sv_ok : bool;
  sv_savedAt : Z;
  sv_answersCount : nat
}.

Inductive Thrown (A : Type) : Type :=
  | Returned (a : A)
  | Throws.                                     (* a TypeError, caught by the handler *)

Arguments Returned {A} a.
Arguments Throws {A}.

Fixpoint entriesOfArray (l : list Elem) : Thrown (list (string * val)) :=
  match l with
  | [] => Returned []
  | ENull :: _ => Throws
  | EEntry qid ua :: r =>
      match entriesOfArray r with
      | Returned es => Returned ((qid, ua) :: es)
      | Throws => Throws
      end
  end.

Definition entriesOfObject (o : jsobj val) : list (string * val) :=
  map (fun qid => (qid, orUndefined (getProp o qid))) (Object_keys o).

(** The values of [existing] are objects. *)
Definition answerKind (a : Answer) : Kind := KObject.

(** The [reduce] over [session.answers]. *)
Definition existingAnswers (answers : list Answer) : dict Answer :=
  fold_left
    (fun acc a => if nonEmpty (a_qid a) then assign answerKind acc (a_qid a) a else acc)
    answers emptyDict.

(** The [for ... of] over [answersArray]. *)
Definition mergeInto (existing : dict Answer) (answersArray : list (string * val))
  : dict Answer :=
  fold_left
    (fun acc a =>
       if nonEmpty (fst a)
       then assign answerKind acc (fst a) (mkAnswer (fst a) (snd a) None None)
       else acc)
    answersArray existing.

Definition mergedAnswers (existing : dict Answer) : list Answer :=
  map (fun k =>
         mkAnswer k
           (match getProp (own existing) k with
            | Some a => a_userAnswer a
            | None => VUndefined
            end)
           None None)
    (Object_keys (own existing)).

(** What [saveSession] has decided when it reaches its write. *)
Inductive SavePlan : Type :=
  | SaveReply (r : Response SaveBody)
  | SaveWrite (merged : list Answer).

Definition saveSession_plan (db : Sessions) (userId sessionId : string)
  (payload : Payload) : SavePlan :=
  let answersArray : Thrown (option (list (string * val))) :=
    match payload with
    | PArray l =>
        match entriesOfArray l with
        | Returned es => Returned (Some es)
        | Throws => Throws
        end
    | PObject o => Returned (Some (entriesOfObject o))
    | PPrim v => if truthy v then Returned None else Returned (Some [])
    end in
  match answersArray with
  | Throws => SaveReply (Error 500 "Failed to save session answers")
  | Returned None => SaveReply (Error 400 "Invalid answers payload")
  | Returned (Some answersArray) =>
      match findById db sessionId with
      | None =>
          if isObjectId sessionId then SaveReply (Error 404 "Session not found")
          else SaveReply (Error 500 "Failed to save session answers")
      | Some session =>
          if negb (String.eqb (s_user session) userId) then
            SaveReply (Error 403 "This session does not belong to you")
          else if negb (Status_eqb (s_status session) InProgress) then
            SaveReply (Error 409 "Session is not in-progress")
          else
            let existing := existingAnswers (s_answers session) in
            SaveWrite (mergedAnswers (mergeInto existing answersArray))
      end
  end.

Definition isSession (sessionId : string) (st : Status) (s : Session) : bool :=
  String.eqb (s_id s) sessionId && Status_eqb (s_status s) st.

Definition setAnswers (merged : list Answer) (s : Session) : Session :=
  mkSession (s_id s) (s_quiz s) (s_user s) (s_username s) (s_status s)
    (s_startedAt s) (s_expiresAt s) (s_finishedAt s) (s_autoSubmitted s)
    (s_questions s) merged (s_score s) (s_totalQuestions s) (s_isPractice s)
    (s_attemptDurationSeconds s) (s_v s).

(** The write of [saveSession], on the collection as it is when the write
    arrives. *)
Definition saveSession_write (db : Sessions) (sessionId : string)
  (merged : list Answer) (now : Z) : Sessions * Response SaveBody :=
  match findOneAndUpdate (isSession sessionId InProgress) (setAnswers merged) db with
  | (_, None) => (db, Error 409 "Session no longer in-progress")
  | (db', Some _) => (db', Json (mkSaveBody true now (List.length merged)))
  end.

(** PATCH /api/sessions/:sessionId/save, with nothing scheduled between the
    read and the write. *)
Definition saveSession (db : Sessions) (userId sessionId : string)
  (payload : Payload) (now : Z) : Sessions * Response SaveBody :=
  match saveSession_plan db userId sessionId payload with
  | SaveReply r => (db, r)
  | SaveWrite merged => saveSession_write db sessionId merged now
  end.

Record SubmitBody : Type := mkSubmitBody {
  sub_sessionId : string;
  sub_quizId : string;
  sub_score : nat;
  sub_totalQuestions : nat;
  sub_autoSubmitted : bool;
  sub_details : list Detail;
  sub_user : option User          (* [None]: the property is not sent *)
}.

(** The own properties of a string: its characters under their indices. *)
Fixpoint charProps (s : string) (i : nat) : jsobj val :=
  match s with
  | EmptyString => []
  | String c r => (decimalOfNat i, VStr (String c EmptyString)) :: charProps r (S i)
  end.

(** [Object.keys(answersPayload).length > 0], after [|| {}]. *)
Definition hasKeys (payload : Payload) : bool :=
  match payload with
  | PArray l => negb (Nat.eqb (List.length l) 0)
  | PObject o => negb (Nat.eqb (List.length (Object_keys o)) 0)
  | PPrim (VStr s) => nonEmpty s
  | PPrim _ => false
  end.

Definition savedAnswersMap (answers : list Answer) : dict val :=
  fold_left
    (fun acc a =>
       if nonEmpty (a_qid a) then assign valKind acc (a_qid a) (a_userAnswer a) else acc)
    answers emptyDict.

(** [Object.assign({}, source)]: the own properties of the source, in the
    order of its keys, assigned one by one. *)
Definition Object_assign (source : jsobj val) : dict val :=
  fold_left (fun acc e => assign valKind acc (fst e) (snd e)) source emptyDict.

Definition payloadAnswersMap (payload : Payload) : dict val :=
  match payload with
  | PArray l =>
      fold_left
        (fun acc a =>
           match a with
           | EEntry qid ua => if nonEmpty qid then assign valKind acc qid ua else acc
           | ENull => acc
           end)
        l emptyDict
  | PObject o => Object_assign (entriesOfObject o)
  | PPrim (VStr s) => Object_assign (charProps s O)
  | PPrim _ => emptyDict
  end.

(** Use answersPayload if provided; otherwise use session.answers (saved). *)
Definition answersMapFor (payload : Payload) (saved : list Answer) : dict val :=
  if hasKeys payload then payloadAnswersMap payload else savedAnswersMap saved.

Definition answerToStore (d : Detail) : Answer :=
  mkAnswer (d_qid d) (d_userAnswer d) (Some (d_isCorrect d)) (Some 0).

(** What [submitSession] has decided when it reaches its write. *)
Inductive SubmitPlan : Type :=
  | SubmitReply (r : Response SubmitBody)
  | SubmitWrite (autoSubmitted : bool) (answersToStore : list Answer)
      (score : nat) (details : list Detail).

Definition submitSession_plan (db : Sessions) (userId sessionId : string)
  (payload : Payload) (now : Z) : SubmitPlan :=
  match findById db sessionId with
  | None =>
      if isObjectId sessionId then SubmitReply (Error 404 "Session not found")
      else SubmitReply (Error 500 "Failed to submit session")
  | Some session =>
      if negb (String.eqb (s_user session) userId) then
        SubmitReply (Error 403 "This session does not belong to you")
      else if negb (Status_eqb (s_status session) InProgress) then
        SubmitReply (Error 409 "Session already finished or timed-out")
      else
        let autoSubmitted := optGt now (s_expiresAt session) in
        let answersMap := answersMapFor payload (s_answers session) in
        let gradeResult := gradeAll (s_questions session) (AnswersByQid answersMap) in
        let score := totalCorrect gradeResult in
        let details := details gradeResult in
        SubmitWrite autoSubmitted (map answerToStore details) score details
  end.

Definition finalize (st : Status) (finishedAt : Z) (autoSubmitted : bool)
  (answers : list Answer) (score : nat) (s : Session) : Session :=
  mkSession (s_id s) (s_quiz s) (s_user s) (s_username s) st
    (s_startedAt s) (s_expiresAt s) (Some finishedAt) autoSubmitted
    (s_questions s) answers score (s_totalQuestions s) (s_isPractice s)
    (s_attemptDurationSeconds s) (s_v s).

(** The write of [submitSession] and what follows it, on the collections as
    they are when the write arrives.  [statsThrows] tells whether the update
    of the user is rejected by the database. *)
Definition submitSession_write (db : Sessions) (users : Users)
  (userId sessionId : string) (autoSubmitted : bool) (answersToStore : list Answer)
  (score : nat) (details : list Detail) (nowFinish : Z) (statsThrows : bool)
  : Sessions * Users * Response SubmitBody :=
  match findOneAndUpdate (isSession sessionId InProgress)
          (finalize Finished nowFinish autoSubmitted answersToStore score) db with
  | (_, None) => (db, users, Error 409 "Session already finished (race detected)")
  | (db', Some updated) =>
      let body userView :=
        mkSubmitBody (s_id updated) (s_quiz updated) score
          (s_totalQuestions updated) autoSubmitted details userView in
      if statsThrows then (db', users, Json (body None))
      else
        match incStats users userId score with
        | (users', Some userUpdate) => (db', users', Json (body (Some userUpdate)))
        | (_, None) => (db', users, Json (body None))
        end
  end.

(** POST /api/sessions/:sessionId/submit, with nothing scheduled between the
    read and the write. *)
Definition submitSession (db : Sessions) (users : Users) (userId sessionId : string)
  (payload : Payload) (now nowFinish : Z) (statsThrows : bool)
  : Sessions * Users * Response SubmitBody :=
  match submitSession_plan db userId sessionId payload now with
  | SubmitReply r => (db, users, r)
  | SubmitWrite autoSubmitted answersToStore score details =>
      submitSession_write db users userId sessionId autoSubmitted answersToStore
        score details nowFinish statsThrows
  end.

(** ** server/cron/expireSessions.js *)

Definition isExpired (now : Z) (s : Session) : bool :=
  Status_eqb (s_status s) InProgress
  && match s_expiresAt s with Some e => e <=? now | None => false end.

(** [QuizSession.find({ status: "in-progress", expiresAt: { $lte: now } }).limit(200)] *)
Definition expired (now : Z) (db : Sessions) : list Session :=
  findLimit (isExpired now) 200 db.

Definition expiredAnswersMap (answers : list Answer) : dict val :=
  fold_left (fun acc a => assign valKind acc (a_qid a) (a_userAnswer a)) answers emptyDict.

Definition expiredAnswer (d : Detail) : Answer :=
  mkAnswer (d_qid d) (d_userAnswer d) (Some (d_isCorrect d)) None.

(** The document [s] after the assignments of the loop body. *)
Definition timedOut (now : Z) (s : Session) : Session :=
  let result := gradeAll (s_questions s) (AnswersByQid (expiredAnswersMap (s_answers s))) in
  finalize TimedOut now true (map expiredAnswer (details result)) (totalCorrect result) s.

Definition bumpVersion (s : Session) : Session :=
  mkSession (s_id s) (s_quiz s) (s_user s) (s_username s) (s_status s)
    (s_startedAt s) (s_expiresAt s) (s_finishedAt s) (s_autoSubmitted s)
    (s_questions s) (s_answers s) (s_score s) (s_totalQuestions s) (s_isPractice s)
    (s_attemptDurationSeconds s) (S (s_v s)).

(** [s.save()] after the assignments of the loop.  The modified paths are
    written to the stored document that has the [_id] of [s] and, an array
    being among them, its version [__v], which the write increments; [None]
    when no document matches (the call rejects with a VersionError). *)
Definition save (db : Sessions) (s : Session) : option Sessions :=
  match findOneAndUpdate
          (fun d => String.eqb (s_id d) (s_id s) && Nat.eqb (s_v d) (s_v s))
          (fun d =>
             bumpVersion
               (finalize (s_status s)
                  (match s_finishedAt s with Some t => t | None => 0 end)
                  (s_autoSubmitted s) (s_answers s) (s_score s) d)) db with
  | (db', Some _) => Some db'
  | (_, None) => None
  end.

(** The body of the [for ... of] of [main] for a document [s] returned by the
    [find], on the collections as they are when its write arrives. *)
Definition expireOne (now : Z) (statsThrows : string -> bool)
  (st : Sessions * Users) (s : Session) : Sessions * Users :=
  let s' := timedOut now s in
  match save (fst st) s' with
  | None => st
  | Some db' =>
      if statsThrows (s_id s) then (db', snd st)
      else (db', fst (incStats (snd st) (s_user s) (s_score s')))
  end.

(** One run of the script, with nothing scheduled in between. *)
Definition main (now : Z) (statsThrows : string -> bool) (db : Sessions) (users : Users)
  : Sessions * Users :=
  fold_left (expireOne now statsThrows) (expired now db) (db, users).

(** ** server/services/aiService.js *)

(** [s.replace(re, "")] for a global [re] that cannot match the empty string:
    [matchAt s] is the length of the match of [re] at the start of [s], and
    [skip] counts the characters of the current match still to be dropped. *)
Fixpoint replaceAllFrom (matchAt : string -> option nat) (skip : nat) (s : string)
  : string :=
  match s with
  | EmptyString => EmptyString
  | String c r =>
      match skip with
      | S k => replaceAllFrom matchAt k r
      | O =>
          match matchAt s with
          | Some (S k) => replaceAllFrom matchAt k r
          | _ => String c (replaceAllFrom matchAt O r)
          end
      end
  end.

Definition replaceAll (matchAt : string -> option nat) (s : string) : string :=
  replaceAllFrom matchAt O s.

Definition isLetter (c : ascii) : bool :=
  let n := N_of_ascii c in
  ((65 <=? n)%N && (n <=? 90)%N) || ((97 <=? n)%N && (n <=? 122)%N).

Definition backtick : ascii := ascii_of_nat 96.
Definition newline : ascii := ascii_of_nat 10.
Definition openBrace : ascii := ascii_of_nat 123.
Definition closeBrace : ascii := ascii_of_nat 125.

Fixpoint lettersPrefix (s : string) : nat :=
  match s with
  | String c r => if isLetter c then S (lettersPrefix r) else O
  | EmptyString => O
  end.

(** Three backticks at the start of [s]. *)
Definition afterTicks (s : string) : option string :=
  match s with
  | String a (String b (String c r)) =>
      if Ascii.eqb a backtick && Ascii.eqb b backtick && Ascii.eqb c backtick
      then Some r else None
  | _ => None
  end.

(** /```[a-zA-Z]*\n?/ *)
Definition fenceAt (s : string) : option nat :=
  match afterTicks s with
  | Some r =>
      let n := lettersPrefix r in
      Some (3 + n + match dropChars n r with
                    | String c _ => if Ascii.eqb c newline then 1 else 0
                    | EmptyString => 0
                    end)%nat
  | None => None
  end.

(** /```/ *)
Definition ticksAt (s : string) : option nat :=
  match afterTicks s with Some _ => Some 3%nat | None => None end.

(** /`/ *)
Definition tickAt (s : string) : option nat :=
  match s with
  | String c _ => if Ascii.eqb c backtick then Some 1%nat else None
  | EmptyString => None
  end.

(** [s.indexOf(c)], [None] for -1. *)
Fixpoint indexOf (c : ascii) (s : string) : option nat :=
  match s with
  | EmptyString => None
  | String a r =>
      if Ascii.eqb a c then Some O
      else match indexOf c r with Some i => Some (S i) | None => None end
  end.

(** [s.lastIndexOf(c)], [None] for -1. *)
Fixpoint lastIndexOf (c : ascii) (s : string) : option nat :=
  match s with
  | EmptyString => None
  | String a r =>
      match lastIndexOf c r with
      | Some i => Some (S i)
      | None => if Ascii.eqb a c then Some O else None
      end
  end.

(** [s.slice(first, last)] for indices inside [s]. *)
Definition slice (first last : nat) (s : string) : string :=
  takeChars (last - first) (dropChars first s).

Definition cleanedOf (text : string) : string :=
  replaceAll tickAt (replaceAll ticksAt (replaceAll fenceAt text)).

(** [None] stands for [null]. *)
Definition extractFirstJsonBlock (text : val) : option string :=
  match text with
  | VStr s =>
      if negb (nonEmpty s) then None
      else
        let cleaned := cleanedOf s in
        match indexOf openBrace cleaned, lastIndexOf closeBrace cleaned with
        | Some first, Some last =>
            if (last <=? first)%nat then Some (trim cleaned)
            else Some (trim (slice first (last + 1) cleaned))
        | _, _ => Some (trim cleaned)
        end
  | _ => None
  end.

(** What one [instance.post] came to. *)
Inductive Posted (A : Type) : Type :=
  | Responded (data : A)              (* resolved with [resp], [resp.data] *)
  | NoResponse                        (* rejected, [err.response] absent *)
  | Refused (status : nat).           (* rejected, [err.response.status] *)

Arguments Responded {A} data.
Arguments NoResponse {A}.
Arguments Refused {A} status.

Inductive Called (A : Type) : Type :=
  | Data (data : A)                   (* returned *)
  | NoApiKey                          (* thrown, code "no_api_key" *)
  | Failed (status : option nat).     (* the wrapper thrown, with its status *)

Arguments Data {A} data.
Arguments NoApiKey {A}.
Arguments Failed {A} status.

(** [err.response?.status || null] *)
Definition statusOf {A : Type} (p : Posted A) : option nat :=
  match p with
  | Refused (S n) => Some (S n)
  | _ => None
  end.

Definition is5xx (status : option nat) : bool :=
  match status with
  | Some s => (500 <=? s)%nat && (s <? 600)%nat
  | None => false
  end.

Definition isNetwork {A : Type} (p : Posted A) : bool :=
  match p with NoResponse => true | _ => false end.

(** The [while (true)] of [callGemini], run for at most [fuel] rounds; [post n]
    is what the [n]-th post comes to, [attempt] the counter on entry.  The
    result comes with the delays slept, in order. *)
Fixpoint callGemini_loop {A : Type} (MAX_RETRIES BASE_DELAY_MS : num)
  (post : nat -> Posted A) (fuel attempt : nat) : option (Called A * list num) :=
  match fuel with
  | O => None
  | S fuel' =>
      let attempt := S attempt in
      match post attempt with
      | Responded data => Some (Data data, [])
      | err =>
          let status := statusOf err in
          if (isNetwork err || is5xx status) && numGe MAX_RETRIES (numNat attempt) then
            let backoff := jsMul BASE_DELAY_MS (fl (numNat (2 ^ (attempt - 1)))) in
            match callGemini_loop MAX_RETRIES BASE_DELAY_MS post fuel' attempt with
            | Some (r, slept) => Some (r, backoff :: slept)
            | None => None
            end
          else Some (Failed status, [])
      end
  end.

Definition callGemini {A : Type} (GEMINI_API_KEY : option string)
  (MAX_RETRIES BASE_DELAY_MS : num) (post : nat -> Posted A) (fuel : nat)
  : option (Called A * list num) :=
  match GEMINI_API_KEY with
  | Some (String _ _) => callGemini_loop MAX_RETRIES BASE_DELAY_MS post fuel O
  | _ => Some (NoApiKey, [])
  end.

(** The pair [{ sanitized, originalHadMultipleWords }]. *)
Definition sanitizeShortAnswer (raw : val) : string * bool :=
  match raw with
  | VUndefined | VNull => ("", false)
  | _ =>
      let s := trim (ToString raw) in
      let parts := filterBoolean (splitWs s) in
      (match parts with p :: _ => toLowerCase p | [] => "" end,
       (1 <? List.length parts)%nat)
  end.

(** [Math.min(a, b)]. *)
Definition mathMin (a b : num) : num :=
  match a, b with
  | NaN, _ | _, NaN => NaN
  | _, _ => if numLt b a then b else a
  end.

(** [Math.min(Number(maxQuestions) || 1, MAX_QUESTIONS)], [maxQuestions]
    defaulting to 1 when it is undefined. *)
Definition questionLimit (maxQuestions : val) (MAX_QUESTIONS : num) : num :=
  let asked := ToNumber (match maxQuestions with VUndefined => VNum (numZ 1) | v => v end) in
  mathMin (if truthy (VNum asked) then asked else numZ 1) MAX_QUESTIONS.

(** The end index [slice(0, N)] uses on an array of [len] elements. *)
Definition sliceEnd (len : nat) (N : num) : nat :=
  match N with
  | NaN => O
  | Inf true => O
  | Inf false => len
  | Fin q =>
      let k := Z.quot (Qnum q) (Zpos (Qden q)) in
      if k <? 0 then Z.to_nat (Z.max (Z.of_nat len + k) 0)
      else Nat.min (Z.to_nat k) len
  end.

(** [if (parsed.questions.length > N) parsed.questions = parsed.questions.slice(0, N)] *)
Definition enforceMax (N : num) (questions : list Question) : list Question :=
  if numLt N (numNat (List.length questions))
  then firstn (sliceEnd (List.length questions) N) questions
  else questions.

Definition withAnswerText (q : Question) (text : string) : Question :=
  mkQuestion (q_qid q) (q_id q) (q_type q) (q_difficulty q) (q_question q)
    (q_choices q) (q_answer_index q) (VStr text) (q_explanation q).

(** The text a tf question is given. *)
Definition tfAnswer (answer_text : val) : string :=
  match answer_text with
  | VStr s =>
      let t := toLowerCase (trim s) in
      if includes ["true"; "t"; "yes"; "y"; "1"] t then "true"
      else if includes ["false"; "f"; "no"; "n"; "0"] t then "false"
      else "false"
  | v =>
      if String.eqb (toLowerCase (ToString (nullish v (VStr "")))) "true"
      then "true" else "false"
  end.

(** What the validation of [generateQuiz] comes to: the questions it returns,
    or the error thrown for the short question at index [i]. *)
Inductive Validated : Type :=
  | Valid (questions : list Question)
  | InvalidShort (i : nat) (rawAnswer : string).

(** The [for] loop of [generateQuiz] from index [i] on; the answer text of a
    question is a primitive, and a type that is absent is "". *)
Fixpoint validateFrom (i : nat) (questions : list Question) : Validated :=
  match questions with
  | [] => Valid []
  | q :: rest =>
      let next q' :=
        match validateFrom (S i) rest with
        | Valid rest' => Valid (q' :: rest')
        | thrown => thrown
        end in
      if negb (nonEmpty (q_type q)) then next q
      else if String.eqb (q_type q) "short" then
        let rawAns := nullish (q_answer_text q) (VStr "") in
        let sanitized := fst (sanitizeShortAnswer rawAns) in
        let originalHadMultipleWords := snd (sanitizeShortAnswer rawAns) in
        if originalHadMultipleWords then InvalidShort i (takeChars 200 (ToString rawAns))
        else next (withAnswerText q sanitized)
      else if String.eqb (q_type q) "tf" then next (withAnswerText q (tfAnswer (q_answer_text q)))
      else next q
  end.

(** [generateQuiz] from the parsed questions on. *)
Definition generateQuiz_questions (maxQuestions : val) (MAX_QUESTIONS : num)
  (questions : list Question) : Validated :=
  validateFrom O (enforceMax (questionLimit maxQuestions MAX_QUESTIONS) questions).

(** ** Definitions used to state the properties *)


Definition isConflict {A : Type} (r : Response A) : bool :=
  match r with Error 409 _ => true | _ => false end.



(** Identifiers are unique in the collection. *)
Definition uniqueIds (db : Sessions) : Prop := NoDup (map s_id db).

(** A request body [saveSession] accepts: an array without null, an object,
    or nothing. *)
Definition acceptedBySave (payload : Payload) : bool :=
  match payload with
  | PArray l => forallb (fun a => match a with ENull => false | EEntry _ _ => true end) l
  | PObject _ => true
  | PPrim v => negb (truthy v)
  end.

(** The last element of a list that satisfies [p]. *)
Definition findLast {A : Type} (p : A -> bool) (l : list A) : option A :=
  find p (rev l).

Definition elemHasQid (qid : string) (a : Elem) : bool :=
  match a with
  | EEntry k _ => String.eqb k qid
  | ENull => false
  end.

(** The answer a request body supplies for [qid]: the last entry of an array
    with that qid, the property of an object, the character of a string. *)
Definition supplied (payload : Payload) (qid : string) : option val :=
  match payload with
  | PArray l =>
      match findLast (elemHasQid qid) l with
      | Some (EEntry _ ua) => Some ua
      | _ => None
      end
  | PObject o => getProp o qid
  | PPrim (VStr s) => getProp (charProps s O) qid
  | PPrim _ => None
  end.

(** The body of a submit supplies answers: an array that is not empty, an
    object with a property, a string that is not empty. *)
Definition suppliesAnswers (payload : Payload) : Prop :=
  match payload with
  | PArray l => l <> []
  | PObject o => o <> []
  | PPrim (VStr s) => s <> ""
  | PPrim _ => False
  end.

(** An answer index under which an array of choices has an element, its
    length or nothing: not a string, or a string that is an array index or
    [length]. *)
Definition plainIndex (v : val) : bool :=
  match v with
  | VStr s => isIndexKey s || String.eqb s "length"
  | _ => true
  end.


(** The answer saved for [qid]: the last stored entry with that qid. *)
Definition saved (answers : list Answer) (qid : string) : option val :=
  option_map a_userAnswer (findLast (fun a => String.eqb (a_qid a) qid) answers).

(** Follows the spec's words: "explicitly supplied answers take priority over
    previously saved ones when both exist, per-question". *)
Definition perQuestionPriority (payload : Payload) (answers : list Answer)
  (qid : string) : option val :=
  match supplied payload qid with
  | Some ua => Some ua
  | None => saved answers qid
  end.

(** The detail [gradeAll] pushes for the question [q] at position [idx] when
    the user answer is [userAnswer]. *)
Definition detailOf (q : Question) (idx : nat) (userAnswer : val) : Detail :=
  let result := gradeQuestion q userAnswer in
  mkDetail (qidOf q idx) (r_isCorrect result) (r_expected result)
    (r_similarity result)
    (match r_numericMatch result with Some b => b | None => false end)
    (if isUndefined userAnswer then VNull else userAnswer)
    (q_question q)
    (orElse (q_explanation q) VNull).

(** The text a tf or short question expects, as the grader compares it. *)
Definition expectedToken (q : Question) : string :=
  if String.eqb (q_type q) "tf" then normalizeText (orElse (q_answer_text q) (VStr ""))
  else hd "" (splitWs (normalizeText
                         (VStr (ToString (orElse (q_answer_text q) (VStr "")))))).

(** The question expects something: it is a choice question, or its expected
    text is not empty once normalized. *)
Definition expectsSomething (q : Question) : bool :=
  String.eqb (q_type q) "mcq" || nonEmpty (expectedToken q).

Definition chars (s : string) : list ascii := list_ascii_of_string s.

(** [edits s t k]: [s] becomes [t] by [k] insertions, deletions or
    substitutions of one character. *)
Inductive edits : list ascii -> list ascii -> nat -> Prop :=
  | edits_nil : edits [] [] 0
  | edits_keep c s t k : edits s t k -> edits (c :: s) (c :: t) k
  | edits_subst a b s t k : edits s t k -> edits (a :: s) (b :: t) (S k)
  | edits_delete a s t k : edits s t k -> edits (a :: s) t (S k)
  | edits_insert b s t k : edits s t k -> edits s (b :: t) (S k).

(** The classic recursive edit distance. *)
Fixpoint editDistance (s t : list ascii) {struct s} : nat :=
  match s with
  | [] => List.length t
  | a :: s' =>
      (fix inner (t : list ascii) : nat :=
         match t with
         | [] => List.length s
         | b :: t' =>
             Nat.min (Nat.min (editDistance s' t + 1) (inner t' + 1))
               (editDistance s' t' + (if Ascii.eqb a b then 0 else 1))
         end) t
  end.

(** Follows the spec's words: "sanitize both sides to their first
    whitespace-delimited token, lowercased". *)
Definition firstTokenLowercased (s : string) : string :=
  toLowerCase (hd "" (filterBoolean (splitWs s))).

(** Follows the spec's words for a short question: exact match of the two
    sanitized sides, else numeric equivalence, else similarity at least 0.8. *)
Definition shortAnswerAsStated (expected user : string) : bool :=
  let e := firstTokenLowercased expected in
  let u := firstTokenLowercased user in
  if String.eqb e u then true
  else
    match parseMaybeNumber (VStr expected), parseMaybeNumber (VStr user) with
    | Some x, Some y =>
        numLt (numAbs (jsSub x y)) tolerance || numGe (similarity e u) threshold
    | _, _ => numGe (similarity e u) threshold
    end.

(** The numeric strategy: both sides parse and differ by less than 1e-9. *)
Definition numericallyEqual (expectedRaw uaSanitized : string) : bool :=
  match parseMaybeNumber (VStr expectedRaw), parseMaybeNumber (VStr uaSanitized) with
  | Some e, Some u => numLt (numAbs (jsSub e u)) tolerance
  | _, _ => false
  end.

(** A token [wordToNumber] does not recognize. *)
Definition unrecognized (w : string) : bool :=
  match getProp small w, getProp tens w with
  | None, None =>
      negb (String.eqb w "hundred") && negb (String.eqb w "thousand")
      && isNaN (StringToNumber w)
  | _, _ => false
  end.




(** The number of correct verdicts. *)
Definition countCorrect (ds : list Detail) : nat := List.length (filter d_isCorrect ds).

(** The cells [dp[i][j..]] as distances: [P] and [TP] are the prefixes of [s]
    and [t] read so far, last character first. *)
Fixpoint upsOf (P TP : list ascii) (t' : string) : list nat :=
  match t' with
  | EmptyString => []
  | String d t'' => editDistance P (d :: TP) :: upsOf P (d :: TP) t''
  end.

Definition rowOf (P : list ascii) (t : string) : list nat :=
  editDistance P [] :: upsOf P [] t.

(** The tokens [wordToNumber] loops over. *)
Definition tokensOf (text : string) : list string :=
  filterBoolean (splitWs (mapChars dashOrCommaToSpace (trim (toLowerCase text)))).

(** 1 - distance / maxLen, and 1 when both strings are empty. *)
Definition similarityFrom (distance maxLen : nat) : num :=
  match maxLen with
  | O => numZ 1
  | _ => numSub (numZ 1) (numDiv (numNat distance) (numNat maxLen))
  end.

(** What one run of the script makes of a stored document, [selected] being
    the documents its [find] returned. *)
Definition swept (now : Z) (selected : list Session) (d : Session) : Session :=
  if existsb (fun s => String.eqb (s_id s) (s_id d)) selected
  then bumpVersion (timedOut now d) else d.

(** ** Sample data *)

Definition sampleQuestion (qid ty text : string) : Question :=
  mkQuestion qid "" ty (VStr "easy") (VStr "prompt") (Some []) VNull (VStr text)
    (VStr "because").

(** A short question whose expected text is a lone sign. *)
Definition hashQuestion : Question := sampleQuestion "q1" "short" "#".

Definition parisRome : list Question :=
  [sampleQuestion "q1" "short" "paris"; sampleQuestion "q2" "short" "rome"].

Definition savedBoth : list Answer :=
  [mkAnswer "q1" (VStr "paris") None None; mkAnswer "q2" (VStr "rome") None None].

(** An attempt of user u1 at quiz1, open, due at time 1000, both answers saved. *)
Definition openSession : Session :=
  mkSession "s1" "quiz1" "u1" "alice" InProgress 0 (Some 1000) None false
    parisRome savedBoth 0 2 false (Some (numZ 1)) 0.

Definition alice : Users := [mkUser "u1" 0 0 0].

(** The same attempt once submitted at time 500. *)
Definition finishedSession : Session :=
  finalize Finished 500 false
    [mkAnswer "q1" (VStr "paris") (Some true) (Some 0);
     mkAnswer "q2" (VStr "rome") (Some true) (Some 0)] 2 openSession.

(** The same attempt once expired by the script at time 2000. *)
Definition timedOutSession : Session := timedOut 2000 openSession.


Definition onlyFirst : Payload := PObject [("q1", VStr "berlin")].

(** A short question expecting "c#". *)
Definition cSharpQuestion : Question := sampleQuestion "q1" "short" "c#".

Definition elephantQuestion : Question := sampleQuestion "q1" "short" "elephant".

(** No answers in the body of a submit. *)
Definition noAnswers : Payload := PPrim VUndefined.

Definition notWhite (c : ascii) : bool := negb (isWhiteSpace c).

(** A character [normalizeText] can leave: kept by the filter, unchanged by
    [toLowerCase], and the space when it is white. *)
Definition normalChar (c : ascii) : bool :=
  keptByNormalize c && Ascii.eqb (lowerChar c) c
  && (notWhite c || Ascii.eqb c " "%char).

(** No two white characters in a row. *)
Fixpoint noDoubleSpace (s : string) : bool :=
  match s with
  | String a (String b _ as r) => negb (isWhiteSpace a && isWhiteSpace b) && noDoubleSpace r
  | _ => true
  end.

Definition startsNotWhite (s : string) : bool :=
  match s with
  | String c _ => notWhite c
  | EmptyString => true
  end.

Definition unitWords : list string :=
  ["zero"; "one"; "two"; "three"; "four"; "five"; "six"; "seven"; "eight"; "nine";
   "ten"; "eleven"; "twelve"; "thirteen"; "fourteen"; "fifteen"; "sixteen";
   "seventeen"; "eighteen"; "nineteen"].

Definition tenWords : list string :=
  [""; ""; "twenty"; "thirty"; "forty"; "fifty"; "sixty"; "seventy"; "eighty"; "ninety"].

(** A number below 100 in English words, the words joined by [sep]. *)
Definition wordsBelowHundred (sep : string) (n : nat) : string :=
  if (n <? 20)%nat then nth n unitWords ""
  else if (n mod 10 =? 0)%nat then nth (n / 10) tenWords ""
  else nth (n / 10) tenWords "" ++ sep ++ nth (n mod 10) unitWords "".

(** A number below 1000 in English words, the words joined by [sep]. *)
Definition wordsOf (sep : string) (n : nat) : string :=
  if (n <? 100)%nat then wordsBelowHundred sep n
  else if (n mod 100 =? 0)%nat then nth (n / 100) unitWords "" ++ sep ++ "hundred"
  else nth (n / 100) unitWords "" ++ sep ++ "hundred" ++ sep
       ++ wordsBelowHundred sep (n mod 100).

Definition readsAs (n : nat) (r : option num) : bool :=
  match r with
  | Some x => numEq x (numNat n)
  | None => false
  end.

Definition shortExpecting (text : string) : Question := sampleQuestion "q1" "short" text.

(** The first user of that id. *)
Definition findUser (users : Users) (id : string) : option User :=
  find (fun u => String.eqb (u_id u) id) users.

(** The user after one attempt of [score] points is credited. *)
Definition credited (score : nat) (u : User) : User :=
  mkUser (u_id u) (u_points u + Z.of_nat score) (u_quizzesAttempted u + 1)
    (u_totalCorrect u + Z.of_nat score).

Definition hidesAnswers (cq : ClientQuestion) : Prop :=
  cq_explanation cq = None /\ cq_answer_text cq = None /\ cq_answer_index cq = None.

(** quiz1 with its questions shuffled and ten seconds per attempt. *)
Definition quiz2 : Quiz :=
  mkQuiz "quiz2" (Some parisRome) None None
    (Some (mkQuizSettings true (Some (numZ 10)) None)).


(** A short question whose answer text has more than one token. *)
Definition multiWordShort (q : Question) : bool :=
  let s := trim (ToString (nullish (q_answer_text q) (VStr ""))) in
  String.eqb (q_type q) "short"
  && (1 <? List.length (filterBoolean (splitWs s)))%nat.

(** What the validation of [generateQuiz] makes of one question. *)
Definition validatedAs (q : Question) : Question :=
  if String.eqb (q_type q) "short"
  then withAnswerText q (sanitizeUserShortAnswer (nullish (q_answer_text q) (VStr "")))
  else if String.eqb (q_type q) "tf" then withAnswerText q (tfAnswer (q_answer_text q))
  else q.

(** A failed post that [callGemini] tries again while it has retries left. *)
Definition retryable {A : Type} (p : Posted A) : bool :=
  match p with
  | Responded _ => false
  | err => isNetwork err || is5xx (statusOf err)
  end.

(** What [callGemini] makes of the post it stops on. *)
Definition outcomeOf {A : Type} (p : Posted A) : Called A :=
  match p with
  | Responded data => Data data
  | err => Failed (statusOf err)
  end.

(** BASE_DELAY_MS * 2^j for j from [from], [count] of them. *)
Definition backoffs (BASE_DELAY_MS : num) (from count : nat) : list num :=
  map (fun j => jsMul BASE_DELAY_MS (fl (numNat (2 ^ j)))) (seq from count).

Definition noTick (c : ascii) : bool := negb (Ascii.eqb c backtick).

Definition fence : string := String backtick (String backtick (String backtick "")).

(** Two refusals with 503, then a response. *)
Definition flakyPost (n : nat) : Posted nat :=
  if (n <? 3)%nat then Refused 503 else Responded n.

(** ** Dictionaries *)

Lemma getProp_setProp {A : Type} (o : jsobj A) (k k' : string) (v : A) :
  getProp (setProp o k v) k' = if String.eqb k k' then Some v else getProp o k'.
Proof.
  induction o as [|[k0 v0] o IH]; simpl.
  - reflexivity.
  - destruct (String.eqb k0 k) eqn:E0; simpl.
    + apply String.eqb_eq in E0; subst k0.
      destruct (String.eqb k k'); reflexivity.
    + destruct (String.eqb k0 k') eqn:E1.
      * apply String.eqb_eq in E1; subst k0. rewrite String.eqb_sym, E0. reflexivity.
      * exact IH.
Qed.

Lemma getProp_In {A : Type} (o : jsobj A) (k : string) :
  In k (map fst o) <-> getProp o k <> None.
Proof.
  induction o as [|[k0 v0] o IH]; simpl.
  - split; [tauto | congruence].
  - destruct (String.eqb k0 k) eqn:E.
    + apply String.eqb_eq in E. split; [congruence | auto].
    + apply String.eqb_neq in E. rewrite <- IH. split; [intros [H|H]; congruence | auto].
Qed.

Lemma find_rev_app {A : Type} (p : A -> bool) (l : list A) (x : A) :
  findLast p (l ++ [x]) = if p x then Some x else findLast p l.
Proof.
  unfold findLast. rewrite rev_app_distr. reflexivity.
Qed.

Lemma insertIndex_perm (x : Z * string) (l : list (Z * string)) :
  Permutation (insertIndex x l) (x :: l).
Proof.
  induction l as [|y r IH]; simpl.
  - apply Permutation_refl.
  - destruct (fst x <=? fst y).
    + apply Permutation_refl.
    + eapply perm_trans; [apply perm_skip, IH | apply perm_swap].
Qed.

Lemma sortIndices_perm (l : list (Z * string)) : Permutation (sortIndices l) l.
Proof.
  induction l as [|x r IH]; simpl.
  - apply perm_nil.
  - eapply perm_trans; [apply insertIndex_perm | apply perm_skip, IH].
Qed.

Lemma indexKeys_In (ks : list string) (k : string) :
  In k (map snd (indexKeys ks)) <-> In k ks /\ isIndexKey k = true.
Proof.
  unfold isIndexKey. induction ks as [|k0 r IH]; simpl.
  - tauto.
  - destruct (arrayIndexOf k0) eqn:E; simpl; rewrite IH.
    + split.
      * intros [H|[H1 H2]]; [subst k0; rewrite E; auto | auto].
      * intros [[H|H] H2]; auto.
    + split.
      * intros [H1 H2]; auto.
      * intros [[H|H] H2]; [subst k0; rewrite E in H2; discriminate | auto].
Qed.

Lemma Object_keys_In {A : Type} (o : jsobj A) (k : string) :
  In k (Object_keys o) <-> In k (map fst o).
Proof.
  unfold Object_keys. rewrite in_app_iff, filter_In.
  assert (P : In k (map snd (sortIndices (indexKeys (map fst o))))
              <-> In k (map snd (indexKeys (map fst o)))).
  { split; apply Permutation_in, Permutation_map;
      [apply sortIndices_perm | apply Permutation_sym, sortIndices_perm]. }
  rewrite P, indexKeys_In.
  destruct (isIndexKey k); simpl; intuition congruence.
Qed.

Lemma getProp_keyed {A : Type} (f : string -> A) (ks : list string) (k : string) :
  (In k ks -> getProp (map (fun x => (x, f x)) ks) k = Some (f k))
  /\ (~ In k ks -> getProp (map (fun x => (x, f x)) ks) k = None).
Proof.
  induction ks as [|k0 r [IH1 IH2]]; simpl.
  - tauto.
  - destruct (String.eqb k0 k) eqn:E.
    + apply String.eqb_eq in E; subst k0. split; [reflexivity | tauto].
    + apply String.eqb_neq in E. split; intros H.
      * destruct H as [H|H]; [congruence | auto].
      * apply IH2. tauto.
Qed.

Lemma getProp_entriesOfObject (o : jsobj val) (k : string) :
  getProp (entriesOfObject o) k = getProp o k.
Proof.
  unfold entriesOfObject.
  destruct (getProp_keyed (fun x => orUndefined (getProp o x)) (Object_keys o) k)
    as [H1 H2].
  destruct (getProp o k) eqn:E.
  - rewrite H1; [reflexivity |].
    apply Object_keys_In, getProp_In. congruence.
  - apply H2. rewrite Object_keys_In, getProp_In. congruence.
Qed.

Lemma fold_left_snoc {A B : Type} (f : A -> B -> A) (l : list B) (x : B) (a : A) :
  fold_left f (l ++ [x]) a = f (fold_left f l a) x.
Proof. rewrite fold_left_app. reflexivity. Qed.

Lemma inheritedName_proto (k : string) : inheritedName k = false -> k <> "__proto__".
Proof. intros H E. subst k. discriminate H. Qed.

Lemma readProp_assign {A : Type} (kind : A -> Kind) (d : dict A) (k k' : string) (v : A) :
  k' <> "__proto__" ->
  readProp (assign kind d k v) k' = if String.eqb k k' then Some v else readProp d k'.
Proof.
  intros Hk. unfold assign, readProp.
  destruct (String.eqb k "__proto__") eqn:E; simpl.
  - apply String.eqb_eq in E. subst k.
    assert (En : String.eqb "__proto__" k' = false)
      by (apply String.eqb_neq; congruence).
    rewrite En. destruct (nullProto d); simpl.
    + rewrite getProp_setProp, En. reflexivity.
    + destruct (kind v); reflexivity.
  - apply getProp_setProp.
Qed.

(** While the prototype is Object.prototype, no assignment makes an own
    property of the name [__proto__]. *)
Lemma readProp_assign_proto {A : Type} (kind : A -> Kind) (d : dict A) (k : string)
  (v : A) :
  nullProto d = false -> kind v <> KNull ->
  nullProto (assign kind d k v) = false
  /\ (readProp d "__proto__" = None -> readProp (assign kind d k v) "__proto__" = None).
Proof.
  intros Hn Hv. unfold assign, readProp. rewrite Hn.
  destruct (String.eqb k "__proto__") eqn:E; simpl.
  - destruct (kind v); [congruence | auto | auto].
  - split; [reflexivity |]. intros H. rewrite getProp_setProp, E. exact H.
Qed.







Lemma readProp_savedAnswersMap (answers : list Answer) (k : string) :
  nonEmpty k = true -> k <> "__proto__" ->
  readProp (savedAnswersMap answers) k = saved answers k.
Proof.
  intros Hk Hp. unfold savedAnswersMap, saved.
  induction answers as [|a l IH] using rev_ind.
  - reflexivity.
  - rewrite fold_left_snoc, find_rev_app.
    destruct (nonEmpty (a_qid a)) eqn:Ea.
    + rewrite readProp_assign by exact Hp.
      destruct (String.eqb (a_qid a) k); [reflexivity | exact IH].
    + destruct (String.eqb (a_qid a) k) eqn:E; [| exact IH].
      apply String.eqb_eq in E. congruence.
Qed.


Lemma qidOf_nonEmpty (q : Question) (idx : nat) : nonEmpty (qidOf q idx) = true.
Proof.
  unfold qidOf. destruct (nonEmpty (q_qid q)) eqn:E1; [exact E1 |].
  destruct (nonEmpty (q_id q)) eqn:E2; [exact E2 | reflexivity].
Qed.

(** ** gradeAll *)

Lemma gradeLoop_spec (answers : AnswerSet) (questions : list Question) :
  forall (acc : GradeAllResult) (idx : nat),
    gradeLoop answers acc questions idx =
    let ds := mapi (fun q i => detailOf q i (answerFor answers (qidOf q i) i)) questions idx in
    mkGradeAllResult (totalCorrect acc + countCorrect ds) (details acc ++ ds).
Proof.
  induction questions as [|q rest IH]; intros acc idx; simpl.
  - rewrite Nat.add_0_r, app_nil_r. destruct acc; reflexivity.
  - rewrite IH. unfold gradeStep, countCorrect. simpl.
    fold (detailOf q idx (answerFor answers (qidOf q idx) idx)).
    rewrite <- app_assoc. simpl. f_equal.
    unfold detailOf at 2. simpl.
    destruct (r_isCorrect (gradeQuestion q (answerFor answers (qidOf q idx) idx)));
      simpl; lia.
Qed.

Lemma gradeAll_spec (questions : list Question) (answers : AnswerSet) :
  gradeAll questions answers =
  let ds := mapi (fun q i => detailOf q i (answerFor answers (qidOf q i) i)) questions O in
  mkGradeAllResult (countCorrect ds) ds.
Proof. unfold gradeAll. rewrite gradeLoop_spec. reflexivity. Qed.

Lemma mapi_nth_error {A B : Type} (f : A -> nat -> B) (l : list A) :
  forall (i0 i : nat),
    nth_error (mapi f l i0) i = option_map (fun x => f x (i0 + i)%nat) (nth_error l i).
Proof.
  induction l as [|x r IH]; intros i0 i; simpl.
  - destruct i; reflexivity.
  - destruct i; simpl.
    + rewrite Nat.add_0_r. reflexivity.
    + rewrite IH. replace (S i0 + i)%nat with (i0 + S i)%nat by lia. reflexivity.
Qed.

Lemma Qself_div (n : nat) : (inject_Z (Z.of_nat (S n)) / inject_Z (Z.of_nat (S n)) == 1)%Q.
Proof.
  apply Qmult_inv_r. unfold Qeq. simpl. lia.
Qed.

Lemma similarity_empty (e : string) :
  nonEmpty e = true -> numGe (similarity e "") threshold = false.
Proof.
  intros He. destruct e as [|c e]; [discriminate |].
  unfold similarity, levenshtein. simpl String.length.
  rewrite Nat.max_0_r.
  unfold numNat, numZ, numDiv.
  assert (Hz : Qeq_bool (inject_Z (Z.of_nat (S (String.length e)))) 0 = false).
  { apply not_true_is_false. intros H. apply Qeq_bool_iff in H.
    unfold Qeq in H. simpl in H. lia. }
  rewrite Hz. unfold numSub, numOpp, numAdd, numGe, threshold.
  apply not_true_is_false. intros H. apply Qle_bool_iff in H.
  rewrite (Qself_div (String.length e)) in H.
  revert H. unfold Qle. simpl. lia.
Qed.

Lemma gradeQuestion_missing (q : Question) :
  expectsSomething q = true -> r_isCorrect (gradeQuestion q VUndefined) = false.
Proof.
  unfold expectsSomething, expectedToken, gradeQuestion.
  destruct (String.eqb (q_type q) "mcq") eqn:Em; [intros _; reflexivity |].
  destruct (String.eqb (q_type q) "tf") eqn:Et; cbn [orb]; intros He.
  - simpl r_isCorrect. change (normalizeText VUndefined) with "".
    change (asBool "") with (@None bool).
    destruct (normalizeText (orElse (q_answer_text q) (VStr ""))) eqn:En;
      [discriminate He |].
    destruct (asBool (String a s)); reflexivity.
  - change (sanitizeUserShortAnswer VUndefined) with "".
    destruct (hd "" (splitWs (normalizeText
               (VStr (ToString (orElse (q_answer_text q) (VStr ""))))))) eqn:En;
      [discriminate He |].
    simpl andb. change (parseMaybeNumber (VStr "")) with (@None num).
    destruct (parseMaybeNumber _); simpl r_isCorrect;
      apply (similarity_empty (String a s)); reflexivity.
Qed.

(** C9 (as amended).  [gradeAll] walks the question snapshot in snapshot
    order: the detail at position [idx] is the one of the question at [idx];
    [totalCorrect] counts the correct verdicts.  For a question whose qid is
    not the name of a member of Object.prototype, the user answer is the own
    property of the answers under that qid, a missing answer is [undefined]
    and is reported as [null]; the detail carries the qid, the verdict, the
    expected value, the user answer and the explanation.  A missing answer is
    graded incorrect when the question expects something: a choice question,
    a tf question whose expected text is not empty once normalized, or a
    short question whose expected text, normalized and cut at its first run
    of white space, is not empty. *)
Theorem gradeAll_snapshot_order (questions : list Question) (o : dict val) :
  let result := gradeAll questions (AnswersByQid o) in
  List.length (details result) = List.length questions
  /\ totalCorrect result = countCorrect (details result)
  /\ (forall idx q,
        nth_error questions idx = Some q ->
        inheritedName (qidOf q idx) = false ->
        exists d,
          let userAnswer := orUndefined (readProp o (qidOf q idx)) in
          nth_error (details result) idx = Some d
          /\ d_qid d = qidOf q idx
          /\ d_isCorrect d = r_isCorrect (gradeQuestion q userAnswer)
          /\ d_expected d = r_expected (gradeQuestion q userAnswer)
          /\ d_userAnswer d = (if isUndefined userAnswer then VNull else userAnswer)
          /\ d_explanation d = orElse (q_explanation q) VNull
          /\ (readProp o (qidOf q idx) = None -> expectsSomething q = true ->
              d_isCorrect d = false /\ d_userAnswer d = VNull)).
Proof.
  cbv zeta. rewrite gradeAll_spec. cbv zeta. simpl totalCorrect. simpl details.
  split; [| split].
  - generalize 0%nat. induction questions as [|q r IH]; intros i0; simpl; [reflexivity |].
    rewrite IH. reflexivity.
  - reflexivity.
  - intros idx q Hq _. eexists. rewrite mapi_nth_error, Hq. simpl option_map.
    split; [reflexivity |]. simpl.
    repeat (split; [reflexivity |]).
    intros Hnone Hexp. rewrite Hnone. simpl. split; [| reflexivity].
    apply gradeQuestion_missing, Hexp.
Qed.

Lemma gradeAll_snapshot_order_witness :
  let result := gradeAll parisRome (AnswersByQid (mkDict [("q2", VStr "rome")] false)) in
  map d_qid (details result) = ["q1"; "q2"]
  /\ exists d,
       nth_error (details result) 0 = Some d
       /\ d_qid d = "q1" /\ d_isCorrect d = false /\ d_userAnswer d = VNull.
Proof.
  split; [reflexivity |].
  destruct (gradeAll_snapshot_order parisRome (mkDict [("q2", VStr "rome")] false))
    as [_ [_ H]].
  destruct (H O (sampleQuestion "q1" "short" "paris") eq_refl eq_refl) as [d Hd].
  exists d. cbv zeta in Hd.
  destruct Hd as [H0 [H1 [_ [_ [_ [_ H6]]]]]].
  split; [exact H0 |]. split; [exact H1 |]. apply H6; reflexivity.
Defined.

(** C9 (counterexample).  A short question whose expected text is "#" and no
    answer at all: the missing answer is graded correct. *)
Lemma gradeAll_missing_answer_correct :
  let result := gradeAll [hashQuestion] (AnswersByQid emptyDict) in
  totalCorrect result = 1%nat
  /\ map d_isCorrect (details result) = [true]
  /\ map d_userAnswer (details result) = [VNull].
Proof. vm_compute. repeat split. Qed.

(** The expected text "$ 100" is " 100" once normalized: it is not empty, but
    its first piece is, and the missing answer is graded correct. *)
Example gradeAll_missing_answer_first_piece :
  normalizeText (VStr "$ 100") = " 100"
  /\ expectsSomething (shortExpecting "$ 100") = false
  /\ map d_isCorrect
       (details (gradeAll [shortExpecting "$ 100"] (AnswersByQid emptyDict))) = [true].
Proof. vm_compute. repeat split. Qed.

(** ** The store *)

Lemma findOne_Some (p : Session -> bool) (db : Sessions) (s : Session) :
  findOne p db = Some s -> In s db /\ p s = true.
Proof.
  induction db as [|d r IH]; simpl; [discriminate |].
  destruct (p d) eqn:E.
  - intros H. injection H as ->. auto.
  - intros H. destruct (IH H). auto.
Qed.

Lemma findOne_None (p : Session -> bool) (db : Sessions) :
  findOne p db = None <-> (forall s, In s db -> p s = false).
Proof.
  induction db as [|d r IH]; simpl.
  - split; [intros _ s [] | reflexivity].
  - destruct (p d) eqn:E.
    + split; [discriminate |]. intros H. rewrite (H d) in E; [discriminate | auto].
    + rewrite IH. split.
      * intros H s [Hs|Hs]; [subst; exact E | auto].
      * intros H s Hs. auto.
Qed.

Lemma findOneAndUpdate_None (p : Session -> bool) (upd : Session -> Session)
  (db : Sessions) :
  findOne p db = None -> findOneAndUpdate p upd db = (db, None).
Proof.
  induction db as [|d r IH]; simpl; [reflexivity |].
  destruct (p d); [discriminate |]. intros H. rewrite (IH H). reflexivity.
Qed.

Lemma uniqueIds_same (db : Sessions) (s d : Session) :
  uniqueIds db -> In s db -> In d db -> s_id s = s_id d -> s = d.
Proof.
  unfold uniqueIds. induction db as [|x r IH]; simpl; [tauto |].
  intros Hn Hs Hd E. inversion Hn as [|? ? Hx Hr]; subst.
  destruct Hs as [Hs|Hs], Hd as [Hd|Hd]; subst.
  - reflexivity.
  - exfalso. apply Hx. rewrite E. apply in_map, Hd.
  - exfalso. apply Hx. rewrite <- E. apply in_map, Hs.
  - auto.
Qed.

(** ** submitSession *)

Lemma findById_id (db : Sessions) (sessionId : string) (s : Session) :
  findById db sessionId = Some s -> s_id s = sessionId.
Proof.
  intros H. apply findOne_Some in H. destruct H as [_ H].
  apply String.eqb_eq. exact H.
Qed.

Lemma incStats_found (users : Users) (id : string) (score : nat) (u : User) :
  findUser users id = Some u ->
  exists users',
    incStats users id score = (users', Some (credited score u))
    /\ findUser users' id = Some (credited score u)
    /\ (forall other, other <> id -> findUser users' other = findUser users other)
    /\ map u_id users' = map u_id users.
Proof.
  unfold findUser. induction users as [|x r IH]; simpl; [discriminate |].
  destruct (String.eqb (u_id x) id) eqn:E.
  - intros H. injection H as ->. eexists. split; [reflexivity |].
    simpl. rewrite E. split; [reflexivity |]. split; [| reflexivity].
    intros other Hne. apply String.eqb_eq in E.
    destruct (String.eqb (u_id u) other) eqn:E'; [| reflexivity].
    apply String.eqb_eq in E'. congruence.
  - intros H. destruct (IH H) as [users' [H1 [H2 [H3 H4]]]].
    rewrite H1. eexists. split; [reflexivity |]. simpl. rewrite E.
    split; [exact H2 |]. split; [| f_equal; exact H4].
    intros other Hne. rewrite (H3 other Hne). reflexivity.
Qed.

Lemma incStats_missing (users : Users) (id : string) (score : nat) :
  findUser users id = None -> incStats users id score = (users, None).
Proof.
  unfold findUser. induction users as [|x r IH]; simpl; [reflexivity |].
  destruct (String.eqb (u_id x) id); [discriminate |].
  intros H. rewrite (IH H). reflexivity.
Qed.

Lemma findOneAndUpdate_byId (db : Sessions) (sessionId : string) (st : Status)
  (upd : Session -> Session) (s : Session) :
  (forall x, s_id (upd x) = s_id x) ->
  findById db sessionId = Some s ->
  s_status s = st ->
  exists db',
    findOneAndUpdate (isSession sessionId st) upd db = (db', Some (upd s))
    /\ findById db' sessionId = Some (upd s)
    /\ (forall other, other <> sessionId -> findById db' other = findById db other)
    /\ map s_id db' = map s_id db.
Proof.
  intros Hid. unfold findById, isSession.
  induction db as [|d r IH]; simpl; [discriminate |].
  destruct (String.eqb (s_id d) sessionId) eqn:Ed.
  - intros H Hst. injection H as ->. rewrite Hst.
    replace (Status_eqb st st) with true by (destruct st; reflexivity).
    simpl. eexists. split; [reflexivity |]. simpl. rewrite !Hid, Ed.
    split; [reflexivity |]. split; [| reflexivity].
    intros other Ho.
    apply String.eqb_eq in Ed. subst sessionId.
    apply not_eq_sym in Ho. apply String.eqb_neq in Ho. rewrite Ho. reflexivity.
  - intros H Hst. destruct (IH H Hst) as [db' [E [F [O M]]]].
    simpl. rewrite E. eexists. split; [reflexivity |]. simpl. rewrite Ed.
    split; [exact F |]. split; [| rewrite M; reflexivity].
    intros other Ho. rewrite (O other Ho). reflexivity.
Qed.

Lemma countCorrect_le (ds : list Detail) : (countCorrect ds <= List.length ds)%nat.
Proof. unfold countCorrect. apply filter_length_le. Qed.

Lemma mapi_length {A B : Type} (f : A -> nat -> B) (l : list A) :
  forall i0, List.length (mapi f l i0) = List.length l.
Proof. induction l as [|x r IH]; intros i0; simpl; [reflexivity | rewrite IH; reflexivity]. Qed.

(** The attempt a submit stores. *)
Lemma submitSession_run (db : Sessions) (users : Users) (userId sessionId : string)
  (payload : Payload) (now nowFinish : Z) (statsThrows : bool) (session : Session) :
  findById db sessionId = Some session ->
  s_user session = userId ->
  s_status session = InProgress ->
  let ds := details (gradeAll (s_questions session)
                       (AnswersByQid (answersMapFor payload (s_answers session)))) in
  let auto := optGt now (s_expiresAt session) in
  let stored := finalize Finished nowFinish auto (map answerToStore ds)
                  (countCorrect ds) session in
  exists db',
    findById db' sessionId = Some stored
    /\ (forall other, other <> sessionId -> findById db' other = findById db other)
    /\ map s_id db' = map s_id db
    /\ submitSession db users userId sessionId payload now nowFinish statsThrows
       = if statsThrows then
           (db', users,
            Json (mkSubmitBody sessionId (s_quiz session) (countCorrect ds)
                    (s_totalQuestions session) auto ds None))
         else
           match incStats users userId (countCorrect ds) with
           | (users', Some userUpdate) =>
               (db', users',
                Json (mkSubmitBody sessionId (s_quiz session) (countCorrect ds)
                        (s_totalQuestions session) auto ds (Some userUpdate)))
           | (_, None) =>
               (db', users,
                Json (mkSubmitBody sessionId (s_quiz session) (countCorrect ds)
                        (s_totalQuestions session) auto ds None))
           end.
Proof.
  intros Hfind Hown Hst. cbv zeta.
  pose proof (findById_id _ _ _ Hfind) as Hid.
  unfold submitSession, submitSession_plan. rewrite Hfind, Hown, Hst, String.eqb_refl.
  cbn [negb Status_eqb].
  rewrite gradeAll_spec. cbv zeta. cbn [totalCorrect details].
  set (ds := mapi _ (s_questions session) O).
  destruct (findOneAndUpdate_byId db sessionId InProgress
              (finalize Finished nowFinish (optGt now (s_expiresAt session))
                 (map answerToStore ds) (countCorrect ds)) session
              (fun x => eq_refl) Hfind Hst) as [db' [Hupd [Hnew [Hothers Hids]]]].
  exists db'. split; [exact Hnew |]. split; [exact Hothers |]. split; [exact Hids |].
  unfold submitSession_write. rewrite Hupd. cbn [finalize s_id s_quiz s_totalQuestions].
  rewrite Hid. reflexivity.
Qed.

Lemma hasKeys_suppliesAnswers (payload : Payload) :
  hasKeys payload = true <-> suppliesAnswers payload.
Proof.
  destruct payload as [l|o|v]; simpl.
  - destruct l; simpl; split; congruence.
  - destruct o as [|[k v] o]; [simpl; split; congruence |].
    split; [discriminate |]. intros _.
    destruct (Object_keys ((k, v) :: o)) eqn:E; [| reflexivity].
    exfalso. assert (H : In k (Object_keys ((k, v) :: o)))
      by (apply Object_keys_In; left; reflexivity).
    rewrite E in H. exact H.
  - destruct v; simpl; try (split; [discriminate | tauto]).
    destruct s; simpl; split; congruence.
Qed.




(** C8.  A submit by the owner of an attempt in progress is answered with the
    successful result whether or not the update of the user is rejected: the
    score, the number of questions, the autoSubmitted flag and the details of
    the grading are the same in both replies, the attempt is stored as
    finished with that score in both cases, and a rejected update only leaves
    the user out of the reply and the users as they were. *)
Theorem submit_reply_survives_stats_failure (db : Sessions) (users : Users)
  (userId sessionId : string) (payload : Payload) (now nowFinish : Z)
  (session : Session) :
  findById db sessionId = Some session ->
  s_user session = userId ->
  s_status session = InProgress ->
  let result :=
    gradeAll (s_questions session)
      (AnswersByQid (answersMapFor payload (s_answers session))) in
  let reply userView :=
    Json (mkSubmitBody sessionId (s_quiz session) (totalCorrect result)
            (s_totalQuestions session) (optGt now (s_expiresAt session))
            (details result) userView) in
  exists db' stored,
    submitSession db users userId sessionId payload now nowFinish true
    = (db', users, reply None)
    /\ (exists users' userView,
          submitSession db users userId sessionId payload now nowFinish false
          = (db', users', reply userView))
    /\ findById db' sessionId = Some stored
    /\ s_status stored = Finished
    /\ s_score stored = totalCorrect result
    /\ map a_qid (s_answers stored) = map d_qid (details result)
    /\ totalCorrect result = countCorrect (details result)
    /\ List.length (details result) = List.length (s_questions session).
Proof.
  intros Hfind Hown Hst. cbv zeta.
  destruct (submitSession_run db users userId sessionId payload now nowFinish true
              session Hfind Hown Hst) as [db' [Hnew [_ [_ Hrun]]]].
  destruct (submitSession_run db users userId sessionId payload now nowFinish false
              session Hfind Hown Hst) as [db2 [Hnew2 [_ [_ Hrun2]]]].
  cbv zeta in Hnew, Hrun, Hnew2, Hrun2.
  assert (Hcount : totalCorrect (gradeAll (s_questions session)
                      (AnswersByQid (answersMapFor payload (s_answers session))))
                   = countCorrect (details (gradeAll (s_questions session)
                      (AnswersByQid (answersMapFor payload (s_answers session)))))).
  { rewrite gradeAll_spec. reflexivity. }
  assert (Hsame : db2 = db').
  { unfold submitSession in Hrun, Hrun2.
    destruct (incStats users userId (countCorrect _)) as [users1 [u1|]] in Hrun2;
      destruct (submitSession_plan db userId sessionId payload now) as [r|au st sc ds];
      try congruence;
      unfold submitSession_write in Hrun, Hrun2;
      destruct (findOneAndUpdate _ _ db) as [dbw [u|]]; try congruence;
      destruct (incStats users userId sc) as [users' [uu|]]; congruence. }
  subst db2. rewrite Hcount. eexists db', _.
  split; [exact Hrun |]. split.
  - destruct (incStats users userId _) as [users' [uu|]]; do 2 eexists; exact Hrun2.
  - split; [exact Hnew |]. cbn [finalize s_status s_score s_answers].
    split; [reflexivity |]. split; [reflexivity |].
    split; [rewrite map_map; reflexivity |]. split; [reflexivity |].
    rewrite gradeAll_spec. apply mapi_length.
Qed.

Lemma submit_reply_survives_stats_failure_witness :
  exists db' body,
    submitSession [openSession] alice "u1" "s1" noAnswers 500 501 true
    = (db', alice, Json body)
    /\ sub_score body = 2%nat
    /\ sub_totalQuestions body = 2%nat
    /\ sub_autoSubmitted body = false
    /\ map d_isCorrect (sub_details body) = [true; true]
    /\ sub_user body = None
    /\ map s_status db' = [Finished].
Proof.
  destruct (submit_reply_survives_stats_failure [openSession] alice "u1" "s1" noAnswers
              500 501 openSession eq_refl eq_refl eq_refl)
    as [db' [stored [Hrun _]]].
  cbv zeta in Hrun. eexists db', _. split; [exact Hrun |].
  cbn [sub_score sub_totalQuestions sub_autoSubmitted sub_details sub_user].
  repeat (split; [reflexivity |]).
  vm_compute in Hrun. injection Hrun as <-. reflexivity.
Defined.

(** ** startQuiz *)




(** ** saveSession *)

Lemma saveSession_plan_terminal (db : Sessions) (userId sessionId : string)
  (payload : Payload) (session : Session) :
  findById db sessionId = Some session ->
  s_status session <> InProgress ->
  exists r, saveSession_plan db userId sessionId payload = SaveReply r
            /\ (s_user session = userId -> acceptedBySave payload = true ->
                isConflict r = true).
Proof.
  intros Hf Hs. unfold saveSession_plan. rewrite Hf.
  assert (Hst : Status_eqb (s_status session) InProgress = false)
    by (destruct (s_status session); [congruence | reflexivity | reflexivity]).
  rewrite Hst. simpl negb.
  assert (Hobj : forall es,
             exists r,
               (if negb (String.eqb (s_user session) userId)
                then SaveReply (Error 403 "This session does not belong to you")
                else SaveReply (Error 409 "Session is not in-progress")) = SaveReply r
               /\ (s_user session = userId -> acceptedBySave (PObject es) = true ->
                   isConflict r = true)).
  { intros es. destruct (String.eqb (s_user session) userId) eqn:Eu; simpl negb;
      cbv iota; eexists; (split; [reflexivity |]); intros Hu _.
    - reflexivity.
    - apply String.eqb_neq in Eu. contradiction. }
  destruct payload as [l|o|v].
  - destruct (entriesOfArray l) eqn:El.
    + destruct (Hobj []) as [r [Hr Hc]]. exists r. split; [exact Hr |].
      intros Hu _. apply Hc; [exact Hu | reflexivity].
    + eexists. split; [reflexivity |]. intros _ Hacc. exfalso.
      revert El Hacc. clear. induction l as [|a l IH]; simpl; [discriminate |].
      destruct a; [discriminate |].
      destruct (entriesOfArray l); [discriminate | auto].
  - apply Hobj.
  - destruct (truthy v) eqn:Ev.
    + eexists. split; [reflexivity |]. simpl. rewrite Ev. discriminate.
    + destruct (Hobj []) as [r [Hr Hc]]. exists r. split; [exact Hr |].
      intros Hu _. apply Hc; [exact Hu | reflexivity].
Qed.

(** C6 (as amended).  Once an attempt is no longer in progress, no
    [saveSession] on its id changes the collection; the owner who sends a body
    that [saveSession] accepts is answered 409, and so is a write that was
    planned while the attempt was still open and arrives after the
    finalization. *)
Theorem saveSession_after_finalize (db : Sessions) (userId sessionId : string)
  (payload : Payload) (now : Z) (session : Session) :
  uniqueIds db ->
  findById db sessionId = Some session ->
  s_status session <> InProgress ->
  fst (saveSession db userId sessionId payload now) = db
  /\ (s_user session = userId -> acceptedBySave payload = true ->
      isConflict (snd (saveSession db userId sessionId payload now)) = true)
  /\ (forall merged,
        saveSession_write db sessionId merged now
        = (db, Error 409 "Session no longer in-progress")).
Proof.
  intros Hu Hf Hs.
  destruct (saveSession_plan_terminal db userId sessionId payload session Hf Hs)
    as [r [Hr Hc]].
  unfold saveSession. rewrite Hr. simpl. split; [reflexivity |]. split; [exact Hc |].
  intros merged. unfold saveSession_write.
  rewrite findOneAndUpdate_None; [reflexivity |].
  apply findOne_None. intros d Hd. unfold isSession.
  destruct (String.eqb (s_id d) sessionId) eqn:Ed; [| reflexivity]. simpl.
  apply String.eqb_eq in Ed.
  apply findOne_Some in Hf. destruct Hf as [Hin Hid]. apply String.eqb_eq in Hid.
  assert (d = session) by (apply (uniqueIds_same db); congruence). subst d.
  destruct (s_status session); [congruence | reflexivity | reflexivity].
Qed.

Lemma saveSession_after_finalize_witness :
  fst (saveSession [finishedSession] "u1" "s1" onlyFirst 600) = [finishedSession]
  /\ (s_user finishedSession = "u1" -> acceptedBySave onlyFirst = true ->
      isConflict (snd (saveSession [finishedSession] "u1" "s1" onlyFirst 600)) = true)
  /\ (forall merged,
        saveSession_write [finishedSession] "s1" merged 600
        = ([finishedSession], Error 409 "Session no longer in-progress")).
Proof.
  apply (saveSession_after_finalize [finishedSession] "u1" "s1" onlyFirst 600
           finishedSession).
  - repeat constructor. simpl. tauto.
  - reflexivity.
  - discriminate.
Defined.

(** C6 (counterexample).  On a finished attempt, a save by another user is
    answered 403 and a save whose body is a string is answered 400: neither
    is a Conflict. *)
Lemma saveSession_terminal_not_conflict :
  s_status finishedSession = Finished
  /\ snd (saveSession [finishedSession] "u2" "s1" onlyFirst 600)
     = Error 403 "This session does not belong to you"
  /\ snd (saveSession [finishedSession] "u1" "s1" (PPrim (VStr "paris")) 600)
     = Error 400 "Invalid answers payload"
  /\ isConflict (snd (saveSession [finishedSession] "u2" "s1" onlyFirst 600)) = false.
Proof. repeat split. Qed.

Lemma findLast_cons {A : Type} (p : A -> bool) (x : A) (l : list A) :
  findLast p (x :: l)
  = match findLast p l with
    | Some y => Some y
    | None => if p x then Some x else None
    end.
Proof.
  unfold findLast. simpl. induction (rev l) as [|y r IH]; simpl.
  - reflexivity.
  - destruct (p y); [reflexivity | exact IH].
Qed.
Lemma existingAnswers_proto (answers : list Answer) :
  nullProto (existingAnswers answers) = false
  /\ readProp (existingAnswers answers) "__proto__" = None.
Proof.
  unfold existingAnswers.
  induction answers as [|a l [IH1 IH2]] using rev_ind; [split; reflexivity |].
  rewrite fold_left_snoc. destruct (nonEmpty (a_qid a)); [| split; assumption].
  destruct (readProp_assign_proto answerKind _ (a_qid a) a IH1) as [H1 H2];
    [discriminate | split; auto].
Qed.

Lemma mergeInto_proto (existing : dict Answer) (es : list (string * val)) :
  nullProto existing = false -> readProp existing "__proto__" = None ->
  nullProto (mergeInto existing es) = false
  /\ readProp (mergeInto existing es) "__proto__" = None.
Proof.
  intros Hn Hp. unfold mergeInto.
  induction es as [|e l [IH1 IH2]] using rev_ind; [split; assumption |].
  rewrite fold_left_snoc. destruct (nonEmpty (fst e)); [| split; assumption].
  destruct (readProp_assign_proto answerKind _ (fst e)
              (mkAnswer (fst e) (snd e) None None) IH1) as [H1 H2];
    [discriminate | split; auto].
Qed.

Lemma readProp_existingAnswers (answers : list Answer) (k : string) :
  k <> "__proto__" ->
  readProp (existingAnswers answers) k
  = if nonEmpty k then findLast (fun a => String.eqb (a_qid a) k) answers else None.
Proof.
  intros Hk. unfold existingAnswers.
  induction answers as [|a l IH] using rev_ind.
  - destruct (nonEmpty k); reflexivity.
  - rewrite fold_left_snoc, find_rev_app.
    destruct (nonEmpty (a_qid a)) eqn:Ea.
    + rewrite readProp_assign by exact Hk. rewrite IH.
      destruct (String.eqb (a_qid a) k) eqn:E; [| reflexivity].
      apply String.eqb_eq in E. rewrite <- E, Ea. reflexivity.
    + rewrite IH. destruct (String.eqb (a_qid a) k) eqn:E; [| reflexivity].
      apply String.eqb_eq in E. rewrite <- E, Ea. reflexivity.
Qed.

Lemma readProp_mergeInto (existing : dict Answer) (es : list (string * val))
  (k : string) :
  k <> "__proto__" ->
  readProp (mergeInto existing es) k
  = if nonEmpty k then
      match findLast (fun e => String.eqb (fst e) k) es with
      | Some e => Some (mkAnswer k (snd e) None None)
      | None => readProp existing k
      end
    else readProp existing k.
Proof.
  intros Hk. unfold mergeInto.
  induction es as [|e l IH] using rev_ind.
  - destruct (nonEmpty k); reflexivity.
  - rewrite fold_left_snoc, find_rev_app.
    destruct (nonEmpty (fst e)) eqn:Ee.
    + rewrite readProp_assign by exact Hk. rewrite IH.
      destruct (String.eqb (fst e) k) eqn:E; [| reflexivity].
      apply String.eqb_eq in E. rewrite <- E, Ee. reflexivity.
    + rewrite IH. destruct (String.eqb (fst e) k) eqn:E; [| reflexivity].
      apply String.eqb_eq in E. rewrite <- E, Ee. reflexivity.
Qed.

Lemma supplied_entriesOfArray (l : list Elem) (es : list (string * val)) (k : string) :
  entriesOfArray l = Returned es ->
  option_map snd (findLast (fun e => String.eqb (fst e) k) es) = supplied (PArray l) k.
Proof.
  revert es. simpl. induction l as [|a l IH]; intros es; simpl.
  - intros H. injection H as <-. reflexivity.
  - destruct a as [|qid ua]; [discriminate |].
    destruct (entriesOfArray l) as [es'|]; [| discriminate].
    intros H. injection H as <-.
    rewrite !findLast_cons. specialize (IH es' eq_refl).
    destruct (findLast (elemHasQid k) l) as [[|q u]|] eqn:El.
    { apply find_some in El. destruct El as [_ El]. discriminate El. }
    all: destruct (findLast (fun e => String.eqb (fst e) k) es') as [e|];
      simpl in IH |- *; try discriminate; try exact IH.
    destruct (String.eqb qid k); reflexivity.
Qed.

Lemma supplied_entriesOfObject (o : jsobj val) (k : string) :
  option_map snd (findLast (fun e => String.eqb (fst e) k) (entriesOfObject o))
  = getProp o k.
Proof.
  unfold entriesOfObject.
  assert (G : forall ks,
             option_map snd
               (findLast (fun e => String.eqb (fst e) k)
                  (map (fun qid => (qid, orUndefined (getProp o qid))) ks))
             = if existsb (String.eqb k) ks then Some (orUndefined (getProp o k))
               else None).
  { induction ks as [|x r IH]; [reflexivity |].
    simpl map. rewrite findLast_cons. simpl existsb. simpl fst.
    destruct (findLast _ _) as [e|]; simpl in IH |- *.
    - destruct (existsb (String.eqb k) r); [| discriminate].
      rewrite orb_true_r. exact IH.
    - destruct (existsb (String.eqb k) r); [discriminate |].
      rewrite orb_false_r, (String.eqb_sym k x).
      destruct (String.eqb x k) eqn:E; [| reflexivity].
      apply String.eqb_eq in E. subst x. reflexivity. }
  rewrite G.
  destruct (existsb (String.eqb k) (Object_keys o)) eqn:Ex.
  - apply existsb_exists in Ex. destruct Ex as [x [Hx E]].
    apply String.eqb_eq in E. subst x.
    apply Object_keys_In, getProp_In in Hx.
    destruct (getProp o k); [reflexivity | congruence].
  - destruct (getProp o k) eqn:Eg; [| reflexivity].
    assert (Hin : In k (Object_keys o)) by (apply Object_keys_In, getProp_In; congruence).
    assert (Ht : existsb (String.eqb k) (Object_keys o) = true)
      by (apply existsb_exists; exists k; split; [exact Hin | apply String.eqb_refl]).
    congruence.
Qed.

Lemma findAnswer_mergedAnswers (existing : dict Answer) (k : string) :
  findAnswer (mergedAnswers existing) k
  = option_map (fun a => mkAnswer k (a_userAnswer a) None None) (readProp existing k).
Proof.
  unfold findAnswer, mergedAnswers, readProp.
  set (g := fun k0 => mkAnswer k0
                        match getProp (own existing) k0 with
                        | Some a => a_userAnswer a
                        | None => VUndefined
                        end None None).
  assert (G : forall ks,
             find (fun a => String.eqb (a_qid a) k) (map g ks)
             = if existsb (String.eqb k) ks then Some (g k) else None).
  { induction ks as [|x r IH]; [reflexivity |]. simpl.
    rewrite (String.eqb_sym k x).
    destruct (String.eqb x k) eqn:E; simpl.
    - apply String.eqb_eq in E. subst x. reflexivity.
    - exact IH. }
  rewrite G.
  destruct (existsb (String.eqb k) (Object_keys (own existing))) eqn:Ex.
  - apply existsb_exists in Ex. destruct Ex as [x [Hx E]].
    apply String.eqb_eq in E. subst x.
    apply Object_keys_In, getProp_In in Hx. unfold g.
    destruct (getProp (own existing) k); [reflexivity | congruence].
  - destruct (getProp (own existing) k) eqn:Eg; [| reflexivity].
    assert (Hin : In k (Object_keys (own existing)))
      by (apply Object_keys_In, getProp_In; congruence).
    assert (Ht : existsb (String.eqb k) (Object_keys (own existing)) = true)
      by (apply existsb_exists; exists k; split; [exact Hin | apply String.eqb_refl]).
    congruence.
Qed.

Lemma find_keyed (g : string -> Answer) (k : string) (ks : list string) :
  (forall x, a_qid (g x) = x) ->
  find (fun a => String.eqb (a_qid a) k) (map g ks)
  = if existsb (String.eqb k) ks then Some (g k) else None.
Proof.
  intros Hg. induction ks as [|x r IH]; [reflexivity |]. simpl.
  rewrite Hg, (String.eqb_sym k x).
  destruct (String.eqb x k) eqn:E; simpl.
  - apply String.eqb_eq in E. subst x. reflexivity.
  - exact IH.
Qed.

(** In the array [saveSession] writes, the first and the last entry of a qid
    are the same. *)
Lemma findLast_mergedAnswers (existing : dict Answer) (k : string) :
  findLast (fun a => String.eqb (a_qid a) k) (mergedAnswers existing)
  = findAnswer (mergedAnswers existing) k.
Proof.
  unfold findLast, findAnswer, mergedAnswers.
  rewrite <- map_rev, !find_keyed by reflexivity.
  replace (existsb (String.eqb k) (rev (Object_keys (own existing))))
    with (existsb (String.eqb k) (Object_keys (own existing))); [reflexivity |].
  induction (Object_keys (own existing)) as [|x r IH]; [reflexivity |].
  simpl. rewrite existsb_app, <- IH. simpl. rewrite orb_false_r. apply orb_comm.
Qed.

Lemma setProp_keys {A : Type} (o : jsobj A) (k : string) (v : A) :
  map fst (setProp o k v)
  = if existsb (String.eqb k) (map fst o) then map fst o else (map fst o ++ [k])%list.
Proof.
  induction o as [|[k0 v0] o IH]; simpl; [reflexivity |].
  rewrite (String.eqb_sym k k0). destruct (String.eqb k0 k) eqn:E; simpl.
  - apply String.eqb_eq in E. subst k0. reflexivity.
  - rewrite IH. destruct (existsb (String.eqb k) (map fst o)); reflexivity.
Qed.

Lemma assign_keys_NoDup {A : Type} (kind : A -> Kind) (d : dict A) (k : string) (v : A) :
  NoDup (map fst (own d)) -> NoDup (map fst (own (assign kind d k v))).
Proof.
  intros Hn. unfold assign.
  destruct (String.eqb k "__proto__" && negb (nullProto d)).
  - destruct (kind v); exact Hn.
  - cbn [own]. rewrite setProp_keys.
    destruct (existsb (String.eqb k) (map fst (own d))) eqn:E; [exact Hn |].
    apply NoDup_app; [exact Hn | repeat constructor; simpl; tauto |].
    intros x Hx [<-|[]].
    assert (Ht : existsb (String.eqb k) (map fst (own d)) = true)
      by (apply existsb_exists; exists k; split; [exact Hx | apply String.eqb_refl]).
    congruence.
Qed.

Lemma Object_keys_NoDup {A : Type} (o : jsobj A) :
  NoDup (map fst o) -> NoDup (Object_keys o).
Proof.
  intros Hn. unfold Object_keys.
  assert (Hindex : forall ks, NoDup ks -> NoDup (map snd (indexKeys ks))).
  { induction ks as [|k r IH]; intros H; simpl; [constructor |].
    inversion H as [|? ? Hk Hr]; subst.
    destruct (arrayIndexOf k); simpl; [| auto].
    constructor; [| auto]. intros Hin. apply indexKeys_In in Hin. tauto. }
  apply NoDup_app.
  - apply (Permutation_NoDup (l := map snd (indexKeys (map fst o)))).
    + apply Permutation_map, Permutation_sym, sortIndices_perm.
    + apply Hindex, Hn.
  - apply NoDup_filter, Hn.
  - intros k H1 H2.
    assert (H1' : In k (map snd (indexKeys (map fst o)))).
    { revert H1. apply Permutation_in, Permutation_map, sortIndices_perm. }
    apply indexKeys_In in H1'. apply filter_In in H2.
    destruct H1' as [_ H1']. destruct H2 as [_ H2]. rewrite H1' in H2. discriminate.
Qed.

Lemma mergedAnswers_NoDup (answers : list Answer) (es : list (string * val)) :
  NoDup (map a_qid (mergedAnswers (mergeInto (existingAnswers answers) es))).
Proof.
  unfold mergedAnswers. rewrite map_map. cbn [a_qid]. rewrite map_id.
  apply Object_keys_NoDup.
  assert (H0 : NoDup (map fst (own (existingAnswers answers)))).
  { unfold existingAnswers. induction answers as [|a l IH] using rev_ind;
      [constructor |].
    rewrite fold_left_snoc. destruct (nonEmpty (a_qid a)); [| exact IH].
    apply assign_keys_NoDup, IH. }
  unfold mergeInto. induction es as [|e l IH] using rev_ind; [exact H0 |].
  rewrite fold_left_snoc. destruct (nonEmpty (fst e)); [| exact IH].
  apply assign_keys_NoDup, IH.
Qed.

(** What a save plans to write, for every body it accepts. *)
Lemma saveSession_plan_merged (db : Sessions) (userId sessionId : string)
  (payload : Payload) (session : Session) :
  findById db sessionId = Some session ->
  s_user session = userId ->
  s_status session = InProgress ->
  acceptedBySave payload = true ->
  exists merged,
    saveSession_plan db userId sessionId payload = SaveWrite merged
    /\ NoDup (map a_qid merged)
    /\ (forall qid, findLast (fun a => String.eqb (a_qid a) qid) merged
                    = findAnswer merged qid)
    /\ findAnswer merged "__proto__" = None
    /\ forall qid,
         qid <> "__proto__" ->
         findAnswer merged qid
         = if nonEmpty qid then
             match supplied payload qid with
             | Some ua => Some (mkAnswer qid ua None None)
             | None =>
                 option_map (fun ua => mkAnswer qid ua None None)
                   (saved (s_answers session) qid)
             end
           else None.
Proof.
  intros Hf Hu Hs Hacc.
  assert (Hes : exists es,
             saveSession_plan db userId sessionId payload
             = SaveWrite (mergedAnswers (mergeInto (existingAnswers (s_answers session)) es))
             /\ forall k, option_map snd (findLast (fun e => String.eqb (fst e) k) es)
                          = supplied payload k).
  { unfold saveSession_plan. rewrite Hf, Hu, String.eqb_refl, Hs. simpl negb. cbv iota.
    destruct payload as [l|o|v].
    - destruct (entriesOfArray l) as [es|] eqn:El.
      + exists es. split; [reflexivity |]. intros k.
        apply supplied_entriesOfArray, El.
      + exfalso. revert El Hacc. clear. induction l as [|a l IH]; simpl; [discriminate |].
        destruct a; [discriminate |].
        destruct (entriesOfArray l); [discriminate | auto].
    - exists (entriesOfObject o). split; [reflexivity |]. intros k.
      apply supplied_entriesOfObject.
    - simpl in Hacc. apply negb_true_iff in Hacc. rewrite Hacc.
      exists []. split; [reflexivity |]. intros k.
      destruct v as [| |b|n|s]; try reflexivity.
      destruct s; [reflexivity | discriminate]. }
  destruct Hes as [es [Hplan Hsup]].
  eexists. split; [exact Hplan |].
  split; [apply mergedAnswers_NoDup |].
  split; [intros qid; apply findLast_mergedAnswers |].
  destruct (existingAnswers_proto (s_answers session)) as [Hn Hp].
  destruct (mergeInto_proto _ es Hn Hp) as [_ Hp'].
  split.
  - rewrite findAnswer_mergedAnswers, Hp'. reflexivity.
  - intros qid Hq.
    rewrite findAnswer_mergedAnswers, readProp_mergeInto, readProp_existingAnswers
      by exact Hq.
    destruct (nonEmpty qid); [| reflexivity].
    rewrite <- Hsup. unfold saved.
    destruct (findLast (fun e => String.eqb (fst e) qid) es) as [e|]; [reflexivity |].
    simpl. destruct (findLast _ (s_answers session)); reflexivity.
Qed.




(** ** getSession *)

Lemma own_assign_cases {A : Type} (kind : A -> Kind) (d : dict A) (k k' : string)
  (v x : A) :
  getProp (own (assign kind d k v)) k' = Some x ->
  (k = k' /\ x = v) \/ getProp (own d) k' = Some x.
Proof.
  unfold assign.
  destruct (String.eqb k "__proto__" && negb (nullProto d)).
  - destruct (kind v); simpl; auto.
  - simpl. rewrite getProp_setProp. destruct (String.eqb k k') eqn:E; [| auto].
    apply String.eqb_eq in E. intros H. injection H as <-. auto.
Qed.

Lemma answersMap_views (view : Answer -> AnswerView) (answers : list Answer) :
  forall k v,
    getProp (own (fold_left (fun acc a => assign viewKind acc (a_qid a) (view a))
                    answers emptyDict)) k = Some v ->
    exists a, In a answers /\ a_qid a = k /\ v = view a.
Proof.
  induction answers as [|a l IH] using rev_ind; intros k v.
  - discriminate.
  - rewrite fold_left_snoc. intros H. apply own_assign_cases in H.
    destruct H as [[Hk ->]|H].
    + exists a. rewrite in_app_iff. simpl. auto.
    + destruct (IH k v H) as [b [Hb Hv]]. exists b. rewrite in_app_iff. auto.
Qed.

(** The [answers] map of [getSession]: the view of the last stored entry of
    each qid. *)
Lemma getProp_answersMap (view : Answer -> AnswerView) (answers : list Answer)
  (k : string) :
  k <> "__proto__" ->
  getProp (own (fold_left (fun acc a => assign viewKind acc (a_qid a) (view a))
                  answers emptyDict)) k
  = option_map view (findLast (fun a => String.eqb (a_qid a) k) answers).
Proof.
  intros Hk. induction answers as [|a l IH] using rev_ind.
  - reflexivity.
  - rewrite fold_left_snoc, find_rev_app.
    change (getProp (own ?d) k) with (readProp d k).
    rewrite readProp_assign by exact Hk.
    destruct (String.eqb (a_qid a) k); [reflexivity | exact IH].
Qed.

(** The stored answers of a finished attempt are sent as objects: none of them
    becomes an own property under the name [__proto__]. *)
Lemma answersMap_full_proto (answers : list Answer) :
  let d := fold_left (fun acc a => assign viewKind acc (a_qid a) (FullAnswer a))
             answers emptyDict in
  nullProto d = false /\ readProp d "__proto__" = None.
Proof.
  cbv zeta. induction answers as [|a l [IH1 IH2]] using rev_ind; [split; reflexivity |].
  rewrite fold_left_snoc.
  destruct (readProp_assign_proto viewKind _ (a_qid a) (FullAnswer a) IH1) as [H1 H2];
    [discriminate | split; auto].
Qed.

(** C2 (as amended).  [getSession] shows the correct answers only for an
    attempt whose status is finished; the score and the autoSubmitted flag of
    the attempt are sent whatever the status.  For any other status, in
    progress or timed out, no question of the reply carries an explanation, an
    answer text or an answer index, there is no review, and the answers are
    the raw user answers: under a qid other than [__proto__], the one of the
    last stored entry of that qid.  For a finished attempt every question
    carries the three fields, the answers are the stored objects with their
    verdicts, none under the name [__proto__], and the review, sent when the
    snapshot is not empty, has one entry per question of the snapshot, in
    order, joined by qid with the first stored answer of that qid: its verdict
    (false when there is none), its user answer, the explanation and, when the
    answer text is truthy or the answer index is not the name of a member of
    the choices, the expected value of the question. *)
Theorem getSession_visibility (db : Sessions) (userId sessionId : string)
  (session : Session) :
  findById db sessionId = Some session ->
  s_user session = userId ->
  exists body,
    getSession db userId sessionId = Json body
    /\ sb_status body = s_status session
    /\ sb_score body = s_score session
    /\ sb_autoSubmitted body = s_autoSubmitted session
    /\ map cq_qid (sb_questions body) = map q_qid (s_questions session)
    /\ (s_status session <> Finished ->
        (forall cq, In cq (sb_questions body) ->
                    cq_explanation cq = None /\ cq_answer_text cq = None
                    /\ cq_answer_index cq = None)
        /\ sb_details body = None
        /\ (forall k v, getProp (sb_answers body) k = Some v ->
                        exists a, In a (s_answers session) /\ a_qid a = k
                                  /\ v = RawAnswer (a_userAnswer a))
        /\ (forall k, k <> "__proto__" ->
                      getProp (sb_answers body) k
                      = option_map RawAnswer (saved (s_answers session) k)))
    /\ (s_status session = Finished ->
        (forall idx q, nth_error (s_questions session) idx = Some q ->
           exists cq, nth_error (sb_questions body) idx = Some cq
                      /\ cq_qid cq = q_qid q
                      /\ cq_explanation cq = Some (q_explanation q)
                      /\ cq_answer_text cq = Some (q_answer_text q)
                      /\ cq_answer_index cq = Some (q_answer_index q))
        /\ (forall k, k <> "__proto__" ->
                      getProp (sb_answers body) k
                      = option_map FullAnswer
                          (findLast (fun a => String.eqb (a_qid a) k)
                             (s_answers session)))
        /\ getProp (sb_answers body) "__proto__" = None
        /\ (s_questions session <> [] ->
            exists review,
              sb_details body = Some review
              /\ List.length review = List.length (s_questions session)
              /\ forall idx q, nth_error (s_questions session) idx = Some q ->
                   exists rd, nth_error review idx = Some rd
                     /\ rd_qid rd = q_qid q
                     /\ rd_explanation rd = q_explanation q
                     /\ (truthy (q_answer_text q) = true
                         \/ plainIndex (q_answer_index q) = true ->
                         rd_expected rd
                         = orElse (orElse (q_answer_text q)
                                     (match q_choices q with
                                      | Some cs => arrayGet cs (q_answer_index q)
                                      | None => VUndefined
                                      end)) VNull)
                     /\ match findAnswer (s_answers session) (q_qid q) with
                        | Some a =>
                            rd_userAnswer rd = a_userAnswer a
                            /\ rd_isCorrect rd
                               = match a_isCorrect a with Some b => b | None => false end
                        | None =>
                            rd_userAnswer rd = VUndefined /\ rd_isCorrect rd = false
                        end)).
Proof.
  intros Hf Hu. unfold getSession. rewrite Hf, Hu, String.eqb_refl. simpl negb. cbv iota.
  eexists. split; [reflexivity |].
  cbn [sb_status sb_score sb_autoSubmitted sb_questions sb_details sb_answers].
  do 3 (split; [reflexivity |]).
  split; [rewrite map_map; reflexivity |]. split.
  - intros Hs.
    assert (E : Status_eqb (s_status session) Finished = false)
      by (destruct (s_status session); [reflexivity | congruence | reflexivity]).
    rewrite E. split; [| split; [reflexivity | split]].
    + intros cq Hin. apply in_map_iff in Hin. destruct Hin as [q [<- _]]. simpl. auto.
    + intros k v H.
      apply (answersMap_views (fun a => RawAnswer (a_userAnswer a))) in H.
      exact H.
    + intros k Hk.
      rewrite (getProp_answersMap (fun a => RawAnswer (a_userAnswer a))) by exact Hk.
      unfold saved. destruct (findLast _ (s_answers session)); reflexivity.
  - intros Hs. rewrite Hs. simpl Status_eqb. cbv iota. split; [| split; [| split]].
    + intros idx q Hq. eexists. rewrite nth_error_map, Hq. simpl.
      split; [reflexivity |]. auto.
    + intros k Hk. apply (getProp_answersMap FullAnswer), Hk.
    + apply (answersMap_full_proto (s_answers session)).
    + intros Hne. destruct (s_questions session) as [|q0 qs] eqn:Eq; [congruence |].
      eexists. split; [reflexivity |]. split; [simpl; rewrite length_map; reflexivity |].
      intros idx q Hq. eexists.
      split.
      { change (reviewDetail (s_answers session) q0 :: map (reviewDetail (s_answers session)) qs)
          with (map (reviewDetail (s_answers session)) (q0 :: qs)).
        rewrite nth_error_map, Hq. reflexivity. }
      simpl. do 2 (split; [reflexivity |]). split; [intros _; reflexivity |].
      destruct (findAnswer (s_answers session) (q_qid q)); auto.
Qed.

Lemma getSession_visibility_witness :
  exists body,
    getSession [timedOutSession] "u1" "s1" = Json body
    /\ sb_status body = TimedOut
    /\ sb_score body = 2%nat
    /\ (forall cq, In cq (sb_questions body) ->
                   cq_explanation cq = None /\ cq_answer_text cq = None
                   /\ cq_answer_index cq = None)
    /\ sb_details body = None
    /\ getProp (sb_answers body) "q1" = Some (RawAnswer (VStr "paris"))
    /\ getProp (sb_answers body) "q3" = None.
Proof.
  destruct (getSession_visibility [timedOutSession] "u1" "s1" timedOutSession
              eq_refl eq_refl) as [body [Hb [Hst [Hsc [_ [_ [Hhide _]]]]]]].
  exists body. split; [exact Hb |]. split; [exact Hst |]. split; [exact Hsc |].
  destruct Hhide as [H1 [H2 [_ H4]]]; [discriminate |].
  split; [exact H1 |]. split; [exact H2 |].
  split; [apply (H4 "q1") | apply (H4 "q3")]; discriminate.
Defined.

(** C2 (counterexample).  An attempt that timed out is terminal, yet its
    reply carries no review and its questions carry no explanation, answer
    text or answer index; its score, the number of answers the script found
    correct, is sent all the same. *)
Lemma getSession_timed_out_hides_answers :
  s_status timedOutSession = TimedOut
  /\ exists body,
       getSession [timedOutSession] "u1" "s1" = Json body
       /\ sb_details body = None
       /\ map cq_explanation (sb_questions body) = [None; None]
       /\ map cq_answer_text (sb_questions body) = [None; None]
       /\ map cq_answer_index (sb_questions body) = [None; None]
       /\ sb_score body = 2%nat.
Proof.
  split; [reflexivity |]. eexists. split; [reflexivity |]. repeat split.
Qed.

(** ** Edit distance *)

Lemma editDistance_nil_l (t : list ascii) : editDistance [] t = List.length t.
Proof. reflexivity. Qed.

Lemma editDistance_nil_r (s : list ascii) : editDistance s [] = List.length s.
Proof. destruct s; reflexivity. Qed.

Lemma editDistance_cons (a b : ascii) (s t : list ascii) :
  editDistance (a :: s) (b :: t)
  = Nat.min (Nat.min (editDistance s (b :: t) + 1) (editDistance (a :: s) t + 1))
      (editDistance s t + (if Ascii.eqb a b then 0 else 1)).
Proof. reflexivity. Qed.

Lemma edits_inserts (t : list ascii) : edits [] t (List.length t).
Proof. induction t; simpl; [apply edits_nil | apply edits_insert, IHt]. Qed.

Lemma edits_deletes (s : list ascii) : edits s [] (List.length s).
Proof. induction s; simpl; [apply edits_nil | apply edits_delete, IHs]. Qed.

Lemma editDistance_edits (s t : list ascii) : edits s t (editDistance s t).
Proof.
  revert t. induction s as [|a s IHs]; intros t.
  - rewrite editDistance_nil_l. apply edits_inserts.
  - induction t as [|b t IHt].
    + rewrite editDistance_nil_r. apply edits_deletes.
    + rewrite editDistance_cons.
      set (x := (editDistance s (b :: t) + 1)%nat).
      set (y := (editDistance (a :: s) t + 1)%nat).
      set (z := (editDistance s t + (if Ascii.eqb a b then 0 else 1))%nat).
      destruct (Nat.min_spec (Nat.min x y) z) as [[_ ->]|[_ ->]].
      * destruct (Nat.min_spec x y) as [[_ ->]|[_ ->]].
        -- unfold x. rewrite Nat.add_1_r. apply edits_delete, IHs.
        -- unfold y. rewrite Nat.add_1_r. apply edits_insert, IHt.
      * unfold z. destruct (Ascii.eqb a b) eqn:E.
        -- apply Ascii.eqb_eq in E. subst b. rewrite Nat.add_0_r.
           apply edits_keep, IHs.
        -- rewrite Nat.add_1_r. apply edits_subst, IHs.
Qed.

Lemma editDistance_least (s t : list ascii) (k : nat) :
  edits s t k -> (editDistance s t <= k)%nat.
Proof.
  induction 1 as [|c s t k _ IH|a b s t k _ IH|a s t k _ IH|b s t k _ IH].
  - simpl. lia.
  - rewrite editDistance_cons, Ascii.eqb_refl. lia.
  - rewrite editDistance_cons. destruct (Ascii.eqb a b); lia.
  - destruct t as [|b t].
    + rewrite editDistance_nil_r in *. simpl. lia.
    + rewrite editDistance_cons. lia.
  - destruct s as [|a s].
    + rewrite editDistance_nil_l in *. simpl. lia.
    + rewrite editDistance_cons. lia.
Qed.

Lemma edits_snoc_keep (c : ascii) (s t : list ascii) (k : nat) :
  edits s t k -> edits (s ++ [c]) (t ++ [c]) k.
Proof.
  induction 1; simpl.
  - apply edits_keep, edits_nil.
  - apply edits_keep; assumption.
  - apply edits_subst; assumption.
  - apply edits_delete; assumption.
  - apply edits_insert; assumption.
Qed.

Lemma edits_snoc_subst (a b : ascii) (s t : list ascii) (k : nat) :
  edits s t k -> edits (s ++ [a]) (t ++ [b]) (S k).
Proof.
  induction 1; simpl.
  - apply edits_subst, edits_nil.
  - apply edits_keep; assumption.
  - apply edits_subst; assumption.
  - apply edits_delete; assumption.
  - apply edits_insert; assumption.
Qed.

Lemma edits_snoc_delete (a : ascii) (s t : list ascii) (k : nat) :
  edits s t k -> edits (s ++ [a]) t (S k).
Proof.
  induction 1; simpl.
  - apply edits_delete, edits_nil.
  - apply edits_keep; assumption.
  - apply edits_subst; assumption.
  - apply edits_delete; assumption.
  - apply edits_insert; assumption.
Qed.

Lemma edits_snoc_insert (b : ascii) (s t : list ascii) (k : nat) :
  edits s t k -> edits s (t ++ [b]) (S k).
Proof.
  induction 1; simpl.
  - apply edits_insert, edits_nil.
  - apply edits_keep; assumption.
  - apply edits_subst; assumption.
  - apply edits_delete; assumption.
  - apply edits_insert; assumption.
Qed.

Lemma edits_rev (s t : list ascii) (k : nat) :
  edits s t k -> edits (rev s) (rev t) k.
Proof.
  induction 1; simpl.
  - apply edits_nil.
  - apply edits_snoc_keep; assumption.
  - apply edits_snoc_subst; assumption.
  - apply edits_snoc_delete; assumption.
  - apply edits_snoc_insert; assumption.
Qed.

Lemma editDistance_rev (s t : list ascii) :
  editDistance (rev s) (rev t) = editDistance s t.
Proof.
  apply Nat.le_antisymm.
  - apply editDistance_least, edits_rev, editDistance_edits.
  - apply editDistance_least.
    pose proof (edits_rev _ _ _ (editDistance_edits (rev s) (rev t))) as H.
    rewrite !rev_involutive in H. exact H.
Qed.

(** ** The table of [levenshtein] *)

Lemma length_chars (s : string) : List.length (chars s) = String.length s.
Proof. induction s; simpl; [reflexivity | rewrite IHs; reflexivity]. Qed.

Lemma fillRow_spec (t' : string) :
  forall (c : ascii) (P TP : list ascii),
    fillRow c t' (editDistance P TP) (upsOf P TP t') (editDistance (c :: P) TP)
    = upsOf (c :: P) TP t'.
Proof.
  induction t' as [|d t'' IH]; intros c P TP; simpl upsOf.
  - reflexivity.
  - cbn [fillRow]. rewrite <- editDistance_cons. cbv zeta. f_equal. apply IH.
Qed.

Lemma upsOf_nil (t' : string) :
  forall TP, upsOf [] TP t' = seq (S (List.length TP)) (String.length t').
Proof.
  induction t' as [|d t'' IH]; intros TP; simpl.
  - reflexivity.
  - f_equal. apply (IH (d :: TP)).
Qed.

Lemma firstRow_rowOf (t : string) : firstRow t = rowOf [] t.
Proof. unfold firstRow, rowOf. rewrite upsOf_nil. reflexivity. Qed.

Lemma nextRow_rowOf (c : ascii) (t : string) (P : list ascii) :
  nextRow c t (rowOf P t) (S (List.length P)) = rowOf (c :: P) t.
Proof.
  unfold nextRow, rowOf. rewrite (editDistance_nil_r (c :: P)). simpl List.length.
  f_equal.
  rewrite <- (fillRow_spec t c P []), (editDistance_nil_r (c :: P)). reflexivity.
Qed.

Lemma nth_fillTable (t : string) (s : string) :
  forall (P : list ascii) (k : nat),
    (k < String.length s)%nat ->
    nth k (fillTable s t (rowOf P t) (S (List.length P))) []
    = rowOf (rev (firstn (S k) (chars s)) ++ P) t.
Proof.
  induction s as [|c s IH]; intros P k Hk; simpl in Hk; [lia |].
  cbn [fillTable]. cbv zeta. rewrite nextRow_rowOf.
  destruct k as [|k].
  - reflexivity.
  - cbn [nth]. change (S (List.length P)) with (List.length (c :: P)).
    rewrite IH by lia.
    change (chars (String c s)) with (c :: chars s).
    cbn [firstn rev]. rewrite <- app_assoc. reflexivity.
Qed.

Lemma nth_upsOf (t' : string) :
  forall (P TP : list ascii) (j : nat),
    (j < String.length t')%nat ->
    nth j (upsOf P TP t') O = editDistance P (rev (firstn (S j) (chars t')) ++ TP).
Proof.
  induction t' as [|d t'' IH]; intros P TP j Hj; simpl in Hj; [lia |].
  cbn [upsOf]. destruct j as [|j].
  - reflexivity.
  - cbn [nth]. rewrite IH by lia.
    change (chars (String d t'')) with (d :: chars t'').
    cbn [firstn rev]. rewrite <- app_assoc. reflexivity.
Qed.

(** The table of the source computes the classic distance. *)
Lemma levenshtein_editDistance (s t : string) :
  levenshtein s t = editDistance (chars s) (chars t).
Proof.
  unfold levenshtein.
  destruct (String.length s) as [|n] eqn:En.
  - destruct s; [| discriminate]. simpl. symmetry. apply length_chars.
  - destruct (String.length t) as [|m] eqn:Em.
    + destruct t; [| discriminate]. rewrite editDistance_nil_r, length_chars. auto.
    + unfold dpTable. cbn [nth]. rewrite firstRow_rowOf.
      change 1%nat with (S (@List.length ascii [])).
      rewrite nth_fillTable by lia. unfold rowOf. cbn [nth].
      rewrite nth_upsOf by lia.
      rewrite !app_nil_r, <- En, <- Em, <- !length_chars, !firstn_all.
      apply editDistance_rev.
Qed.

(** ** Numbers *)

Lemma roundQ_int (z : Z) : roundQ (z # 1) = z.
Proof.
  unfold roundQ. cbn [Qnum Qden]. rewrite Z.div_1_r, Z.mod_1_r. reflexivity.
Qed.

Lemma Qred_int_scaled (z : Z) (k : positive) :
  Qred ((z * 2 ^ Z.pos k) # (1 * 2 ^ k)) = z # 1.
Proof.
  rewrite <- (Qcanon.Qred_identity (z # 1)) by (cbn [Qnum Qden]; apply Z.gcd_1_r).
  apply Qred_complete. unfold Qeq. cbn [Qnum Qden].
  rewrite Pos.mul_1_l, Pos2Z.inj_pow. ring.
Qed.

(** An integer below 2^53 is a binary64 value. *)
Lemma roundPositive_int (p : positive) :
  Z.pos p < 2 ^ 53 -> roundPositive p 1 = Some (Z.pos p # 1).
Proof.
  intros Hp.
  assert (HL : 0 <= Z.log2 (Z.pos p) < 53).
  { split; [apply Z.log2_nonneg |]. apply Z.log2_lt_pow2; lia. }
  assert (Hspec : 2 ^ Z.log2 (Z.pos p) <= Z.pos p) by (apply Z.log2_spec; lia).
  unfold roundPositive.
  assert (He : binade p 1 = Z.log2 (Z.pos p)).
  { unfold binade. change (Z.log2 1) with 0. rewrite Z.sub_0_r.
    replace (Qle_bool (scale2 1 (Z.log2 (Z.pos p))) (Z.pos p # 1)) with true;
      [reflexivity |].
    symmetry. unfold Qle_bool, scale2.
    destruct (Z.log2 (Z.pos p)) as [|k|k] eqn:El; cbn [Qnum Qden];
      apply Z.leb_le; lia. }
  rewrite He. set (L := Z.log2 (Z.pos p)) in *.
  rewrite Z.max_l by lia.
  replace (1024 <=? L) with false by (symmetry; apply Z.leb_gt; lia).
  replace (L - 52 =? 971) with false by (symmetry; apply Z.eqb_neq; lia).
  cbn [orb andb]. f_equal.
  destruct (Z.eq_dec L 52) as [E|E].
  - replace (L - 52) with 0 by lia. change (- 0) with 0.
    cbn [scale2]. rewrite roundQ_int. apply Qcanon.Qred_identity.
    cbn [Qnum Qden inject_Z]. apply Z.gcd_1_r.
  - destruct (52 - L) as [|k|k] eqn:Ek; try lia.
    replace (- (L - 52)) with (Z.pos k) by lia.
    replace (L - 52) with (Z.neg k) by lia.
    cbn [scale2 Qnum Qden]. rewrite roundQ_int. cbn [inject_Z Qnum Qden].
    apply Qred_int_scaled.
Qed.

Lemma round64_int (z : Z) : Z.abs z < 2 ^ 53 -> round64 (z # 1) = Fin (z # 1).
Proof.
  intros Hz. unfold round64. cbn [Qnum Qden]. destruct z as [|p|p].
  - reflexivity.
  - rewrite roundPositive_int by (simpl in Hz; lia). reflexivity.
  - rewrite roundPositive_int by (simpl in Hz; lia). reflexivity.
Qed.

Lemma fl_numZ (z : Z) : Z.abs z < 2 ^ 53 -> fl (numZ z) = numZ z.
Proof. apply round64_int. Qed.

Lemma jsAdd_numZ (a b : Z) :
  Z.abs (a + b) < 2 ^ 53 -> jsAdd (numZ a) (numZ b) = numZ (a + b).
Proof.
  intros H. unfold jsAdd, numZ, numAdd, fl, inject_Z, Qplus. cbn [Qnum Qden].
  rewrite !Z.mul_1_r. change (1 * 1)%positive with 1%positive.
  apply round64_int, H.
Qed.

(** ** Text normalization *)

Ltac each_ascii c := destruct c as [[|] [|] [|] [|] [|] [|] [|] [|]]; reflexivity.

Lemma lowerChar_white (c : ascii) : isWhiteSpace (lowerChar c) = isWhiteSpace c.
Proof. each_ascii c. Qed.

Lemma lowerChar_idem (c : ascii) : lowerChar (lowerChar c) = lowerChar c.
Proof. each_ascii c. Qed.

Lemma toLowerCase_idem (s : string) : toLowerCase (toLowerCase s) = toLowerCase s.
Proof.
  unfold toLowerCase. induction s as [|c r IH]; simpl; [reflexivity |].
  rewrite lowerChar_idem, IH. reflexivity.
Qed.

Lemma allChars_impl (p q : ascii -> bool) (s : string) :
  (forall c, p c = true -> q c = true) -> allChars p s = true -> allChars q s = true.
Proof.
  intros Hpq. induction s as [|c r IH]; simpl; [reflexivity |].
  intros H. apply andb_true_iff in H. destruct H as [Hc Hr].
  rewrite (Hpq c Hc), (IH Hr). reflexivity.
Qed.

Lemma toLowerCase_notWhite (s : string) :
  allChars notWhite (toLowerCase s) = allChars notWhite s.
Proof.
  unfold toLowerCase, notWhite. induction s as [|c r IH]; simpl; [reflexivity |].
  rewrite lowerChar_white, IH. reflexivity.
Qed.

Lemma trimStart_lower (s : string) :
  trimStart (toLowerCase s) = toLowerCase (trimStart s).
Proof.
  unfold toLowerCase. induction s as [|c r IH]; simpl; [reflexivity |].
  rewrite lowerChar_white. destruct (isWhiteSpace c); [exact IH | reflexivity].
Qed.

Lemma trimEnd_lower (s : string) :
  trimEnd (toLowerCase s) = toLowerCase (trimEnd s).
Proof.
  unfold toLowerCase. induction s as [|c r IH]; simpl; [reflexivity |].
  rewrite IH, lowerChar_white.
  destruct (trimEnd r); simpl; [destruct (isWhiteSpace c); reflexivity | reflexivity].
Qed.

Lemma trim_lower (s : string) : trim (toLowerCase s) = toLowerCase (trim s).
Proof. unfold trim. rewrite trimStart_lower, trimEnd_lower. reflexivity. Qed.

Lemma splitWsFrom_lower (s : string) :
  forall b, splitWsFrom b (toLowerCase s) = map toLowerCase (splitWsFrom b s).
Proof.
  unfold toLowerCase. induction s as [|c r IH]; intros b; simpl; [reflexivity |].
  rewrite lowerChar_white. destruct (isWhiteSpace c).
  - destruct b; simpl; rewrite IH; reflexivity.
  - rewrite IH. destruct (splitWsFrom false r); reflexivity.
Qed.

Lemma filterBoolean_lower (l : list string) :
  filterBoolean (map toLowerCase l) = map toLowerCase (filterBoolean l).
Proof.
  unfold filterBoolean. induction l as [|x r IH]; simpl; [reflexivity |].
  rewrite IH. destruct x; reflexivity.
Qed.

Lemma splitWsFrom_tokens (s : string) :
  forall b tok, In tok (splitWsFrom b s) -> allChars notWhite tok = true.
Proof.
  induction s as [|c r IH]; intros b tok; simpl.
  - intros [<-|[]]. reflexivity.
  - destruct (isWhiteSpace c) eqn:Ec.
    + destruct b.
      * apply IH.
      * intros [<-|H]; [reflexivity | apply (IH true), H].
    + destruct (splitWsFrom false r) as [|t0 rest] eqn:Es.
      * intros [<-|[]]. simpl. unfold notWhite. rewrite Ec. reflexivity.
      * intros [<-|H].
        -- simpl. unfold notWhite at 1. rewrite Ec. simpl.
           apply (IH false). rewrite Es. left. reflexivity.
        -- apply (IH false). rewrite Es. right. exact H.
Qed.

Lemma trimStart_notWhite (s : string) : startsNotWhite s = true -> trimStart s = s.
Proof.
  destruct s as [|c r]; simpl; [reflexivity |]. unfold notWhite.
  destruct (isWhiteSpace c); [discriminate | reflexivity].
Qed.

Lemma trimEnd_notWhite (s : string) : allChars notWhite s = true -> trimEnd s = s.
Proof.
  induction s as [|c r IH]; simpl; [reflexivity |].
  intros H. apply andb_true_iff in H. destruct H as [Hc Hr]. rewrite (IH Hr).
  unfold notWhite in Hc. destruct r; [| reflexivity].
  destruct (isWhiteSpace c); [discriminate | reflexivity].
Qed.

Lemma trim_notWhite (s : string) : allChars notWhite s = true -> trim s = s.
Proof.
  intros H. unfold trim. rewrite trimStart_notWhite; [apply trimEnd_notWhite, H |].
  destruct s; simpl in *; [reflexivity |].
  apply andb_true_iff in H. tauto.
Qed.

Lemma splitWs_notWhite (s : string) : allChars notWhite s = true -> splitWs s = [s].
Proof.
  unfold splitWs. induction s as [|c r IH]; simpl; [reflexivity |].
  intros H. apply andb_true_iff in H. destruct H as [Hc Hr].
  unfold notWhite in Hc. destruct (isWhiteSpace c); [discriminate |].
  rewrite (IH Hr). reflexivity.
Qed.

(** The first token of a text, as [sanitizeUserShortAnswer] takes it. *)
Lemma sanitize_as_token (v : val) :
  sanitizeUserShortAnswer v
  = match v with
    | VUndefined | VNull => ""
    | _ => toLowerCase (hd "" (filterBoolean (splitWs (trim (ToString v)))))
    end.
Proof.
  destruct v; try reflexivity; unfold sanitizeUserShortAnswer;
    destruct (filterBoolean _); reflexivity.
Qed.

(** ** Numbers in decimal digits *)

Lemma readDigits_uint (d : Decimal.uint) :
  forall acc cnt,
    readDigits 10 (NilEmpty.string_of_uint d) (Z.of_nat acc) cnt
    = (Z.of_nat (Nat.of_uint_acc d acc),
       (cnt + String.length (NilEmpty.string_of_uint d))%nat, "").
Proof.
  induction d as [|d IH|d IH|d IH|d IH|d IH|d IH|d IH|d IH|d IH|d IH];
    intros acc cnt;
    [simpl; rewrite Nat.add_0_r; reflexivity | ..];
    cbn [NilEmpty.string_of_uint readDigits Nat.of_uint_acc String.length];
    match goal with
    | |- context [digitValue ?c] =>
        let v := eval vm_compute in (digitValue c) in
        change (digitValue c) with v
    end;
    cbn [Z.ltb Z.compare Pos.compare Pos.compare_cont];
    match goal with
    | |- readDigits 10 _ ?a _ = (Z.of_nat (Nat.of_uint_acc _ ?b), _, _) =>
        replace a with (Z.of_nat b) by (rewrite Nat.tail_mul_spec; lia)
    end;
    rewrite IH; rewrite Nat.add_succ_r; reflexivity.
Qed.

Lemma allChars_uint (d : Decimal.uint) :
  allChars isDigit (NilEmpty.string_of_uint d) = true.
Proof. induction d; simpl; [reflexivity | exact IHd ..]. Qed.

Lemma to_uint_nonnil (n : nat) : Nat.to_uint n <> Decimal.Nil.
Proof.
  intros E. pose proof (Unsigned.of_to n) as H. rewrite E in H.
  simpl in H. subst n. discriminate E.
Qed.

Lemma decimalOfNat_uint (n : nat) :
  decimalOfNat n = NilEmpty.string_of_uint (Nat.to_uint n).
Proof.
  unfold decimalOfNat, NilZero.string_of_uint.
  destruct (Nat.to_uint n) eqn:E; try reflexivity.
  exfalso. apply (to_uint_nonnil n E).
Qed.

Lemma decimalOfNat_digits (n : nat) :
  allChars isDigit (decimalOfNat n) = true /\ nonEmpty (decimalOfNat n) = true.
Proof.
  rewrite decimalOfNat_uint. split; [apply allChars_uint |].
  pose proof (to_uint_nonnil n). destruct (Nat.to_uint n); try reflexivity. congruence.
Qed.

Lemma readDigits_decimalOfNat (n : nat) :
  exists len,
    readDigits 10 (decimalOfNat n) 0 O = (Z.of_nat n, S len, "").
Proof.
  rewrite decimalOfNat_uint.
  pose proof (readDigits_uint (Nat.to_uint n) O O) as H.
  change (Z.of_nat 0) with 0 in H. rewrite H.
  change (Nat.of_uint_acc (Nat.to_uint n) 0) with (Nat.of_uint (Nat.to_uint n)).
  rewrite Unsigned.of_to. simpl Nat.add.
  pose proof (to_uint_nonnil n).
  destruct (Nat.to_uint n); try congruence; simpl; eexists; reflexivity.
Qed.

Lemma digits_lower (s : string) : allChars isDigit s = true -> toLowerCase s = s.
Proof.
  unfold toLowerCase. induction s as [|c r IH]; simpl; [reflexivity |].
  intros H. apply andb_true_iff in H. destruct H as [Hc Hr]. rewrite (IH Hr).
  f_equal. revert Hc. clear.
  destruct c as [[|] [|] [|] [|] [|] [|] [|] [|]]; intros H;
    (reflexivity || discriminate H).
Qed.

Lemma digits_notWhite (s : string) :
  allChars isDigit s = true -> allChars notWhite s = true.
Proof.
  apply allChars_impl. intros c.
  destruct c as [[|] [|] [|] [|] [|] [|] [|] [|]]; intros H;
    (reflexivity || discriminate H).
Qed.

Ltac digit_cases c H :=
  revert H; clear;
  destruct c as [[|] [|] [|] [|] [|] [|] [|] [|]]; intros H;
  (reflexivity || discriminate H).

Lemma digits_nonDecimal (s : string) :
  allChars isDigit s = true -> parseNonDecimalLiteral s = None.
Proof.
  unfold parseNonDecimalLiteral. destruct s as [|c0 [|c r]]; [reflexivity | |].
  - intros _. destruct c0 as [[|] [|] [|] [|] [|] [|] [|] [|]]; reflexivity.
  - intros Hd. simpl in Hd. apply andb_true_iff in Hd. destruct Hd as [_ Hd].
    apply andb_true_iff in Hd. destruct Hd as [Hc _].
    destruct c0 as [[|] [|] [|] [|] [|] [|] [|] [|]]; try reflexivity.
    digit_cases c Hc.
Qed.

Lemma digits_sign (s : string) : allChars isDigit s = true -> readSign s = (false, s).
Proof.
  destruct s as [|c r]; [reflexivity |].
  intros Hd. simpl in Hd. apply andb_true_iff in Hd. destruct Hd as [Hc _].
  unfold readSign. digit_cases c Hc.
Qed.

(** [Number] reads a number written in decimal digits. *)
Lemma StringToNumber_decimalOfNat (n : nat) :
  Z.of_nat n < 2 ^ 53 -> StringToNumber (decimalOfNat n) = numNat n.
Proof.
  intros Hn. destruct (decimalOfNat_digits n) as [Hd Hne].
  destruct (readDigits_decimalOfNat n) as [len Hread].
  unfold StringToNumber. rewrite trim_notWhite by apply digits_notWhite, Hd.
  unfold isEmpty. rewrite Hne. cbn [negb].
  rewrite digits_nonDecimal by exact Hd.
  assert (Hdec : parseDecimalLiteral (decimalOfNat n)
                 = Some (Fin (inject_Z (Z.of_nat n) * 1)%Q)).
  { unfold parseDecimalLiteral. rewrite digits_sign by exact Hd.
    assert (Hinf : String.eqb (decimalOfNat n) "Infinity" = false).
    { apply String.eqb_neq. intros E. rewrite E in Hd. discriminate Hd. }
    rewrite Hinf, Hread. reflexivity. }
  rewrite Hdec. unfold fl, numNat, numZ, inject_Z, Qmult. cbn [Qnum Qden].
  rewrite Z.mul_1_r. change (1 * 1)%positive with 1%positive.
  apply round64_int. lia.
Qed.

Lemma parseMaybeNumber_decimalOfNat (n : nat) :
  Z.of_nat n < 2 ^ 53 -> parseMaybeNumber (VStr (decimalOfNat n)) = Some (numNat n).
Proof.
  intros Hn. destruct (decimalOfNat_digits n) as [Hd Hne].
  unfold parseMaybeNumber. cbn [ToString].
  rewrite trim_notWhite by apply digits_notWhite, Hd.
  rewrite digits_lower by exact Hd.
  rewrite StringToNumber_decimalOfNat by exact Hn.
  destruct (decimalOfNat n); [discriminate Hne | reflexivity].
Qed.

(** ** gradeQuestion on short questions *)

Lemma threshold_exact (d m : nat) :
  Qle_bool (8 # 10)
    (1 + - (inject_Z (Z.of_nat d) / inject_Z (Z.of_nat (S m))))%Q
  = (5 * d <=? S m)%nat.
Proof.
  unfold Qle_bool, Qdiv, Qmult, Qinv, Qplus, Qopp, inject_Z.
  change (Z.of_nat (S m)) with (Z.pos (Pos.of_succ_nat m)).
  cbn [Qnum Qden]. rewrite !Pos.mul_1_l, Zpos_P_of_succ_nat.
  destruct (Nat.leb_spec (5 * d) (S m)); [apply Z.leb_le | apply Z.leb_gt]; lia.
Qed.

Lemma similarity_similarityFrom (e u : string) :
  similarity e u
  = similarityFrom (editDistance (chars e) (chars u))
      (Nat.max (String.length e) (String.length u)).
Proof.
  unfold similarity, similarityFrom. rewrite levenshtein_editDistance. reflexivity.
Qed.

Lemma similarityFrom_verdict (d maxLen : nat) :
  (d <= maxLen)%nat ->
  numGe (similarityFrom d maxLen) threshold = (5 * d <=? maxLen)%nat.
Proof.
  intros Hd. unfold similarityFrom. destruct maxLen as [|m].
  - assert (d = O) by lia. subst d. reflexivity.
  - unfold numNat, numZ, numDiv.
    assert (Hz : Qeq_bool (inject_Z (Z.of_nat (S m))) 0 = false).
    { apply not_true_is_false. intros H. apply Qeq_bool_iff in H.
      unfold Qeq in H. simpl in H. lia. }
    rewrite Hz. apply threshold_exact.
Qed.

Lemma editDistance_le_max (s t : list ascii) :
  (editDistance s t <= Nat.max (List.length s) (List.length t))%nat.
Proof.
  revert t. induction s as [|a s IH]; intros t.
  - simpl. lia.
  - destruct t as [|b t].
    + rewrite editDistance_nil_r. simpl. lia.
    + rewrite editDistance_cons. specialize (IH t). simpl List.length.
      destruct (Ascii.eqb a b); lia.
Qed.

Lemma wordLoop_unrecognized (tokens : list string) :
  forall st, existsb unrecognized tokens = true -> wordLoop st tokens = None.
Proof.
  induction tokens as [|w r IH]; intros st; simpl; [discriminate |].
  destruct (unrecognized w) eqn:Ew; simpl.
  - intros _. unfold unrecognized in Ew. unfold wordStep. destruct st as [total current].
    destruct (getProp small w); [discriminate |].
    destruct (getProp tens w); [discriminate |].
    apply andb_true_iff in Ew. destruct Ew as [Ew Hn].
    apply andb_true_iff in Ew. destruct Ew as [Hh Ht].
    apply negb_true_iff in Hh, Ht. rewrite Hh, Ht, Hn. reflexivity.
  - intros H. destruct (wordStep st w); [apply IH, H | reflexivity].
Qed.

Lemma below_thousand (p : nat -> bool) :
  forallb p (seq 0 1000) = true -> forall n, (n < 1000)%nat -> p n = true.
Proof.
  intros H n Hn. apply (proj1 (forallb_forall p (seq 0 1000)) H).
  apply in_seq. lia.
Qed.

Lemma jsSub_numZ (a b : Z) :
  Z.abs (a - b) < 2 ^ 53 -> jsSub (numZ a) (numZ b) = numZ (a - b).
Proof.
  intros H. unfold jsSub, numSub, numZ, numOpp, numAdd, fl, inject_Z, Qplus, Qopp.
  cbn [Qnum Qden]. rewrite !Z.mul_1_r. change (1 * 1)%positive with 1%positive.
  rewrite <- Z.sub_opp_r, Z.opp_involutive.
  apply round64_int, H.
Qed.

(** Two whole numbers are within the tolerance exactly when they are equal. *)
Lemma tolerance_numZ (a b : Z) :
  Z.abs (a - b) < 2 ^ 53 ->
  numLt (numAbs (jsSub (numZ a) (numZ b))) tolerance = (a =? b).
Proof.
  intros H. rewrite jsSub_numZ by exact H.
  assert (Ht : exists n d, tolerance = Fin (Z.pos n # d) /\ (n < d)%positive).
  { vm_compute. do 2 eexists. split; reflexivity. }
  destruct Ht as [n [d [-> Hnd]]].
  unfold numAbs, numZ, numLt, inject_Z, Qabs, Qle_bool. cbn [Qnum Qden].
  destruct (Z.eqb_spec a b) as [E|E].
  - subst b. rewrite Z.sub_diag. reflexivity.
  - apply negb_false_iff, Z.leb_le. rewrite Z.mul_1_r.
    assert (1 <= Z.abs (a - b)) by lia.
    assert (Z.pos n < Z.pos d) by (apply Pos2Z.pos_lt_pos, Hnd). nia.
Qed.

(** A finite number is within the tolerance of itself. *)
Lemma same_number (x : Q) : numLt (numAbs (jsSub (Fin x) (Fin x))) tolerance = true.
Proof.
  unfold jsSub, numSub, numOpp, numAdd, fl, round64, Qplus, Qopp. cbn [Qnum Qden].
  replace (Qnum x * Z.pos (Qden x) + - Qnum x * Z.pos (Qden x)) with 0 by ring.
  reflexivity.
Qed.

(** C7 (as amended).  For a question of type short, with [e] the expected
    text normalized (lower case, signs other than apostrophe and hyphen
    removed) and cut to its first token, and [u] the first token of the user
    answer in lower case, [gradeQuestion] tries in order: (1) [u] equal to a
    non-empty [e]; (2) numeric equivalence of the whole expected text and [u],
    each read as a number, correct when both parse and their binary64
    difference is less than 1e-9 in magnitude; (3) the similarity of [e] and
    [u], 1 - distance / max length (1 when both are empty), reported with the
    verdict, which is correct iff it is at least 0.8, that is iff 5 times the
    distance is at most the longer length.  The distance is the least number
    of insertions, deletions and substitutions of one character that turn [e]
    into [u].  A number below 2^53 written in decimal digits is read as that
    number, a number below 1000 written in English words is read as that
    number, two whole numbers are within the tolerance exactly when they are
    equal, two texts read as the same finite number match, two texts read as
    infinities do not, and a text with a token that is not a number word,
    hundred, thousand or a numeric literal is not a number for
    [wordToNumber]. *)
Theorem gradeQuestion_short (question : Question) (userAnswer : val) :
  q_type question = "short" ->
  let expectedRaw := ToString (orElse (q_answer_text question) (VStr "")) in
  let e := hd "" (splitWs (normalizeText (VStr expectedRaw))) in
  let u := sanitizeUserShortAnswer userAnswer in
  let distance := editDistance (chars e) (chars u) in
  let maxLen := Nat.max (String.length e) (String.length u) in
  gradeQuestion question userAnswer
  = (if nonEmpty e && String.eqb u e then
       mkGradeResult true (q_answer_text question) None None
     else if numericallyEqual expectedRaw u then
       mkGradeResult true (q_answer_text question) None (Some true)
     else
       mkGradeResult (5 * distance <=? maxLen)%nat (q_answer_text question)
         (Some (similarityFrom distance maxLen)) None)
  /\ numGe (similarityFrom distance maxLen) threshold = (5 * distance <=? maxLen)%nat
  /\ edits (chars e) (chars u) distance
  /\ (forall k, edits (chars e) (chars u) k -> (distance <= k)%nat)
  /\ (forall n, Z.of_nat n < 2 ^ 53 ->
                parseMaybeNumber (VStr (decimalOfNat n)) = Some (numNat n))
  /\ (forall n, (n < 1000)%nat ->
                readsAs n (parseMaybeNumber (VStr (wordsOf " " n))) = true)
  /\ (forall a b, Z.abs (a - b) < 2 ^ 53 ->
                  numLt (numAbs (jsSub (numZ a) (numZ b))) tolerance = (a =? b))
  /\ (forall a b x, parseMaybeNumber (VStr a) = Some (Fin x) ->
                    parseMaybeNumber (VStr b) = Some (Fin x) ->
                    numericallyEqual a b = true)
  /\ (forall a b s s', parseMaybeNumber (VStr a) = Some (Inf s) ->
                       parseMaybeNumber (VStr b) = Some (Inf s') ->
                       numericallyEqual a b = false)
  /\ (forall text, existsb unrecognized (tokensOf text) = true ->
                   wordToNumber text = None).
Proof.
  intros Hty expectedRaw e u distance maxLen.
  assert (Hle : (distance <= maxLen)%nat).
  { unfold distance, maxLen. rewrite <- !length_chars. apply editDistance_le_max. }
  split; [| split; [apply similarityFrom_verdict, Hle |
                    split; [apply editDistance_edits |
                            split; [apply editDistance_least |
                                    split; [apply parseMaybeNumber_decimalOfNat |
                                            split; [| split; [apply tolerance_numZ |
                                                              split; [| split]]]]]]]].
  - unfold gradeQuestion. rewrite Hty. cbn [String.eqb Ascii.eqb Bool.eqb].
    fold expectedRaw. fold e. fold u.
    destruct (nonEmpty e && String.eqb u e); [reflexivity |].
    assert (Hsim : mkGradeResult (numGe (similarity e u) threshold)
                     (q_answer_text question) (Some (similarity e u)) None
                   = mkGradeResult (5 * distance <=? maxLen)%nat
                       (q_answer_text question)
                       (Some (similarityFrom distance maxLen)) None).
    { rewrite similarity_similarityFrom. fold distance. fold maxLen.
      rewrite similarityFrom_verdict; [reflexivity | exact Hle]. }
    unfold numericallyEqual.
    destruct (parseMaybeNumber (VStr expectedRaw)) as [x|];
      destruct (parseMaybeNumber (VStr u)) as [y|]; try exact Hsim.
    destruct (numLt (numAbs (jsSub x y)) tolerance); [reflexivity | exact Hsim].
  - apply (below_thousand
             (fun n => readsAs n (parseMaybeNumber (VStr (wordsOf " " n))))).
    vm_compute. reflexivity.
  - intros a b x Ha Hb. unfold numericallyEqual. rewrite Ha, Hb. apply same_number.
  - intros a b s s' Ha Hb. unfold numericallyEqual. rewrite Ha, Hb.
    destruct s, s'; reflexivity.
  - intros text Hbad. unfold wordToNumber. fold (tokensOf text).
    destruct (isEmpty text); [reflexivity |].
    destruct (tokensOf text) as [|w r] eqn:Et; [reflexivity |].
    rewrite (wordLoop_unrecognized (w :: r) _ Hbad). reflexivity.
Qed.

Lemma gradeQuestion_short_witness :
  r_isCorrect (gradeQuestion elephantQuestion (VStr "Elefant")) = false
  /\ edits (chars "elephant") (chars "elefant") 2
  /\ parseMaybeNumber (VStr "42") = Some (numZ 42)
  /\ readsAs 42 (parseMaybeNumber (VStr "forty two")) = true
  /\ numericallyEqual "9007199254740993" "9007199254740992" = true
  /\ numericallyEqual "1e400" "10e399" = false.
Proof.
  destruct (gradeQuestion_short elephantQuestion (VStr "Elefant") eq_refl)
    as [Hgrade [_ [Hedits [_ [Hdigits [Hwords [_ [Hsame [Hinf _]]]]]]]]].
  split; [rewrite Hgrade; reflexivity |]. split; [exact Hedits |].
  split; [apply (Hdigits 42%nat); reflexivity |].
  split; [apply (Hwords 42%nat); lia |].
  split.
  - apply (Hsame _ _ (inject_Z 9007199254740992)); vm_compute; reflexivity.
  - apply (Hinf _ _ false false); vm_compute; reflexivity.
Defined.

(** C7 (counterexample).  Expected "c#", answered "c#": the two sides have the
    same first lower-case token, so the exact strategy as stated succeeds; the
    code strips the sign from the expected side only, compares "c" with "c#",
    finds similarity 1/2 and grades the answer incorrect.  Expected "21",
    answered "twenty one": both sides read as the number 21, so the numeric
    strategy as stated succeeds; the code reads the first token of the answer
    only, 20, and grades the answer incorrect. *)
Lemma gradeQuestion_short_not_as_stated :
  firstTokenLowercased "c#" = "c#"
  /\ shortAnswerAsStated "c#" "c#" = true
  /\ expectedToken cSharpQuestion = "c"
  /\ sanitizeUserShortAnswer (VStr "c#") = "c#"
  /\ r_isCorrect (gradeQuestion cSharpQuestion (VStr "c#")) = false
  /\ shortAnswerAsStated "21" "twenty one" = true
  /\ r_isCorrect (gradeQuestion (sampleQuestion "q1" "short" "21") (VStr "twenty one"))
     = false.
Proof. repeat split. Qed.

Example wordToNumber_composes :
  option_map (numEq (numZ 123)) (wordToNumber "one hundred twenty three") = Some true
  /\ option_map (numEq (numZ 21)) (wordToNumber "Twenty-One") = Some true
  /\ option_map (numEq (numZ 2500)) (wordToNumber "two thousand, five hundred") = Some true
  /\ wordToNumber "one hundred bananas" = None.
Proof. repeat split. Qed.

Example gradeQuestion_numeric :
  gradeQuestion (sampleQuestion "q1" "short" "5") (VStr "five")
  = mkGradeResult true (VStr "5") None (Some true)
  /\ gradeQuestion (sampleQuestion "q1" "short" "one hundred twenty three") (VStr "123")
     = mkGradeResult true (VStr "one hundred twenty three") None (Some true).
Proof. split; reflexivity. Qed.

(** Numbers are binary64 values.  "1e400" and "10e399" both read as Infinity,
    whose difference is not a number: the numeric strategy fails and the
    similarity decides.  2^53 + 1 reads as 2^53: the numeric strategy
    succeeds on two texts that differ. *)
Example gradeQuestion_binary64 :
  parseMaybeNumber (VStr "1e400") = Some (Inf false)
  /\ parseMaybeNumber (VStr "10e399") = Some (Inf false)
  /\ numericallyEqual "1e400" "10e399" = false
  /\ r_isCorrect (gradeQuestion (shortExpecting "1e400") (VStr "10e399")) = false
  /\ parseMaybeNumber (VStr "9007199254740993") = Some (numZ 9007199254740992)
  /\ gradeQuestion (shortExpecting "9007199254740993") (VStr "9007199254740992")
     = mkGradeResult true (VStr "9007199254740993") None (Some true).
Proof. repeat split; vm_compute; reflexivity. Qed.

(** ** The expiry script *)

Lemma findOneAndUpdate_unique (db : Sessions) (p : Session -> bool)
  (upd : Session -> Session) (s : Session) :
  uniqueIds db -> In s db -> p s = true ->
  (forall d, p d = true -> s_id d = s_id s) ->
  findOneAndUpdate p upd db
  = (map (fun d => if String.eqb (s_id d) (s_id s) then upd d else d) db, Some (upd s)).
Proof.
  unfold uniqueIds. intros Hn Hin Hp Hid.
  induction db as [|d r IH]; simpl; [destruct Hin |].
  inversion Hn as [|? ? Hd Hr]; subst.
  destruct (p d) eqn:E.
  - assert (Ed : s_id d = s_id s) by (apply Hid, E).
    assert (d = s).
    { destruct Hin as [H|H]; [exact H |]. exfalso. apply Hd. rewrite Ed. apply in_map, H. }
    subst d. rewrite String.eqb_refl. f_equal. f_equal.
    rewrite <- (map_id r) at 1. apply map_ext_in. intros x Hx.
    destruct (String.eqb (s_id x) (s_id s)) eqn:Ex; [| reflexivity].
    apply String.eqb_eq in Ex. exfalso. apply Hd. rewrite <- Ex. apply in_map, Hx.
  - destruct Hin as [H|H]; [subst d; congruence |].
    rewrite (IH Hr H).
    destruct (String.eqb (s_id d) (s_id s)) eqn:Ed; [| reflexivity].
    apply String.eqb_eq in Ed. exfalso. apply Hd. rewrite Ed. apply in_map, H.
Qed.

Lemma timedOut_id (now : Z) (s : Session) : s_id (timedOut now s) = s_id s.
Proof. reflexivity. Qed.

(** The write of the script goes through when the stored document is the one
    the script read. *)
Lemma save_timedOut (db : Sessions) (now : Z) (s : Session) :
  uniqueIds db -> In s db ->
  save db (timedOut now s)
  = Some (map (fun d => if String.eqb (s_id d) (s_id s)
                        then bumpVersion (timedOut now d) else d) db).
Proof.
  intros Hu Hin. unfold save.
  rewrite (findOneAndUpdate_unique db _ _ s Hu Hin).
  - f_equal. apply map_ext_in. intros d Hd. cbn [timedOut_id].
    change (s_id (timedOut now s)) with (s_id s).
    destruct (String.eqb (s_id d) (s_id s)) eqn:E; [| reflexivity].
    apply String.eqb_eq in E.
    assert (d = s) by (apply (uniqueIds_same db); assumption). subst d. reflexivity.
  - change (s_id (timedOut now s)) with (s_id s).
    change (s_v (timedOut now s)) with (s_v s).
    rewrite String.eqb_refl, Nat.eqb_refl. reflexivity.
  - intros d Hd. apply andb_true_iff in Hd. destruct Hd as [Hd _].
    apply String.eqb_eq in Hd. exact Hd.
Qed.



Lemma map_ids_swept (f : Session -> Session) (db : Sessions) :
  (forall d, s_id (f d) = s_id d) -> map s_id (map f db) = map s_id db.
Proof.
  intros H. rewrite map_map. apply map_ext. exact H.
Qed.

Lemma main_loop_store (now : Z) (statsThrows : string -> bool) (selected : list Session) :
  forall (db : Sessions) (users : Users),
    uniqueIds db ->
    NoDup (map s_id selected) ->
    (forall s, In s selected -> In s db) ->
    fst (fold_left (expireOne now statsThrows) selected (db, users))
    = map (swept now selected) db.
Proof.
  induction selected as [|s rest IH]; intros db users Hu Hn Hin.
  - simpl. symmetry. rewrite <- (map_id db) at 2. apply map_ext. reflexivity.
  - cbn [fold_left]. unfold expireOne at 2. cbn [fst snd].
    rewrite (save_timedOut db now s Hu (Hin s (or_introl eq_refl))).
    inversion Hn as [|? ? Hs Hrest]; subst.
    set (db1 := map (fun d => if String.eqb (s_id d) (s_id s)
                              then bumpVersion (timedOut now d) else d) db
                : Sessions).
    assert (Hu1 : uniqueIds db1).
    { unfold uniqueIds, db1. rewrite map_ids_swept; [exact Hu |].
      intros d. destruct (String.eqb (s_id d) (s_id s)); reflexivity. }
    assert (Hin1 : forall x, In x rest -> In x db1).
    { intros x Hx. unfold db1. apply in_map_iff. exists x.
      split; [| apply Hin; right; exact Hx].
      destruct (String.eqb (s_id x) (s_id s)) eqn:E; [| reflexivity].
      apply String.eqb_eq in E. exfalso. apply Hs. rewrite <- E. apply in_map, Hx. }
    assert (Hgo : forall users1,
               fst (fold_left (expireOne now statsThrows) rest (db1, users1))
               = map (swept now (s :: rest)) db).
    { intros users1. rewrite (IH db1 users1 Hu1 Hrest Hin1). unfold db1.
      rewrite map_map. apply map_ext_in. intros d Hd. unfold swept. cbn [existsb].
      rewrite (String.eqb_sym (s_id s) (s_id d)).
      destruct (String.eqb (s_id d) (s_id s)) eqn:E; cbn [orb]; [| reflexivity].
      change (s_id (bumpVersion (timedOut now d))) with (s_id d).
      replace (existsb (fun s0 => String.eqb (s_id s0) (s_id d)) rest) with false;
        [reflexivity |].
      symmetry. apply not_true_is_false. intros Hex.
      apply existsb_exists in Hex. destruct Hex as [x [Hx Ex]].
      apply String.eqb_eq in Ex. apply String.eqb_eq in E.
      apply Hs. rewrite <- E, <- Ex. apply in_map, Hx. }
    destruct (statsThrows (s_id s)); apply Hgo.
Qed.

Lemma firstn_In {A : Type} (n : nat) (l : list A) (x : A) :
  In x (firstn n l) -> In x l.
Proof.
  revert n. induction l as [|y r IH]; intros [|n]; simpl; try tauto.
  intros [H|H]; [auto | right; apply (IH n H)].
Qed.

Lemma uniqueIds_filter (p : Session -> bool) (db : Sessions) :
  uniqueIds db -> uniqueIds (filter p db).
Proof.
  unfold uniqueIds. induction db as [|d r IH]; simpl; [auto |].
  intros Hu. inversion Hu as [|? ? Hd Hr]; subst.
  destruct (p d); simpl; [| auto].
  constructor; [| auto]. intros Hin. apply Hd.
  apply in_map_iff in Hin. destruct Hin as [y [Ey Hy]].
  apply filter_In in Hy. rewrite <- Ey. apply in_map, Hy.
Qed.

Lemma uniqueIds_firstn (n : nat) (db : Sessions) :
  uniqueIds db -> uniqueIds (firstn n db).
Proof.
  unfold uniqueIds. revert n. induction db as [|d r IH]; intros [|n] Hu; simpl;
    try constructor.
  - inversion Hu as [|? ? Hd Hr]; subst. intros Hin. apply Hd.
    apply in_map_iff in Hin. destruct Hin as [y [Ey Hy]].
    rewrite <- Ey. apply in_map. eapply firstn_In, Hy.
  - inversion Hu; subst. auto.
Qed.

Lemma expired_In (now : Z) (db : Sessions) (s : Session) :
  In s (expired now db) -> In s db /\ isExpired now s = true.
Proof.
  unfold expired, findLimit. intros H. apply firstn_In in H. apply filter_In in H. exact H.
Qed.

Lemma main_store (now : Z) (statsThrows : string -> bool) (db : Sessions) (users : Users) :
  uniqueIds db ->
  fst (main now statsThrows db users) = map (swept now (expired now db)) db.
Proof.
  intros Hu. unfold main. apply main_loop_store.
  - exact Hu.
  - unfold expired, findLimit. apply uniqueIds_firstn, uniqueIds_filter, Hu.
  - intros s Hs. apply expired_In in Hs. tauto.
Qed.



Lemma findById_In (db : Sessions) (s : Session) :
  uniqueIds db -> In s db -> findById db (s_id s) = Some s.
Proof.
  intros Hu Hin. destruct (findById db (s_id s)) as [d|] eqn:E.
  - apply findOne_Some in E. destruct E as [Hd Ed]. apply String.eqb_eq in Ed.
    f_equal. apply (uniqueIds_same db); auto.
  - pose proof (proj1 (findOne_None _ db) E s Hin) as H. simpl in H.
    rewrite String.eqb_refl in H. discriminate.
Qed.

Lemma findById_map (f : Session -> Session) (db : Sessions) (sessionId : string) :
  (forall d, s_id (f d) = s_id d) ->
  findById (map f db) sessionId = option_map f (findById db sessionId).
Proof.
  intros Hf. unfold findById. induction db as [|d r IH]; simpl; [reflexivity |].
  rewrite Hf. destruct (String.eqb (s_id d) sessionId); [reflexivity | exact IH].
Qed.

Lemma swept_id (now : Z) (selected : list Session) (d : Session) :
  s_id (swept now selected d) = s_id d.
Proof. unfold swept. destruct (existsb _ selected); reflexivity. Qed.







(** ** Races on one attempt *)

(** The write of a submit is conditional: when no attempt of that id is in
    progress any more, it answers 409 and changes neither collection. *)
Lemma submitSession_write_conflict (db : Sessions) (users : Users)
  (userId sessionId : string) (autoSubmitted : bool) (answersToStore : list Answer)
  (score : nat) (ds : list Detail) (nowFinish : Z) (statsThrows : bool) :
  (forall d, In d db -> s_id d = sessionId -> s_status d <> InProgress) ->
  submitSession_write db users userId sessionId autoSubmitted answersToStore score ds
    nowFinish statsThrows
  = (db, users, Error 409 "Session already finished (race detected)").
Proof.
  intros Hnone. unfold submitSession_write.
  rewrite findOneAndUpdate_None; [reflexivity |].
  apply findOne_None. intros d Hd. unfold isSession.
  destruct (String.eqb (s_id d) sessionId) eqn:Ed; [| reflexivity]. simpl.
  apply String.eqb_eq in Ed. specialize (Hnone d Hd Ed).
  destruct (s_status d); [congruence | reflexivity | reflexivity].
Qed.

(** C1 (the code at the failing schedule).  The script selects the overdue
    attempt s1 at time 2000; before its write arrives the user submits s1 with
    an answer for q1 only and is answered with score 0; then the write of the
    script arrives.  Both finalizations go through and none sees a conflict:
    the attempt, already finished with score 0, becomes timed-out with score
    2, and the user is credited two attempts. *)
Theorem submit_then_expiry_both_finalize :
  let selected := expired 2000 [openSession] in
  let afterSubmit := submitSession [openSession] alice "u1" "s1" onlyFirst 2000 2001 false in
  let afterExpiry :=
    fold_left (expireOne 2000 (fun _ => false)) selected (fst afterSubmit) in
  selected = [openSession]
  /\ (exists body, snd afterSubmit = Json body /\ sub_score body = 0%nat)
  /\ map s_status (fst (fst afterSubmit)) = [Finished]
  /\ map s_score (fst (fst afterSubmit)) = [0%nat]
  /\ snd (fst afterSubmit) = [mkUser "u1" 0 1 0]
  /\ map s_status (fst afterExpiry) = [TimedOut]
  /\ map s_score (fst afterExpiry) = [2%nat]
  /\ snd afterExpiry = [mkUser "u1" 2 2 2].
Proof.
  cbv zeta. split; [reflexivity |]. split; [eexists; split; reflexivity |].
  repeat split.
Qed.

(** ** The other question types, on the examples of the specification *)

Example gradeQuestion_mcq :
  let q := mkQuestion "q1" "" "mcq" (VStr "easy") (VStr "prompt")
             (Some [VStr "A"; VStr "B"; VStr "C"; VStr "D"]) (VNum (numZ 2)) VNull VNull in
  gradeQuestion q (VNum (numZ 2)) = mkGradeResult true (VStr "C") None None
  /\ gradeQuestion q (VNum (numZ 1)) = mkGradeResult false (VStr "C") None None
  /\ r_isCorrect (gradeQuestion q VUndefined) = false.
Proof. repeat split. Qed.

Example gradeQuestion_tf :
  let q := sampleQuestion "q1" "tf" "true" in
  r_isCorrect (gradeQuestion q (VStr "Yes")) = true
  /\ r_isCorrect (gradeQuestion q (VStr "maybe")) = false
  /\ r_isCorrect (gradeQuestion q (VBool true)) = true
  /\ r_isCorrect (gradeQuestion q (VNum (numZ 0))) = false.
Proof. repeat split. Qed.

Example gradeQuestion_fuzzy :
  levenshtein "elephant" "elefant" = 2%nat
  /\ r_isCorrect (gradeQuestion elephantQuestion (VStr "elefant")) = false
  /\ r_isCorrect (gradeQuestion elephantQuestion (VStr "elephan")) = true
  /\ r_isCorrect (gradeQuestion elephantQuestion (VStr "giraffe")) = false.
Proof. repeat split. Qed.

(** ** levenshtein as a distance *)

Lemma edits_sym (s t : list ascii) (k : nat) : edits s t k -> edits t s k.
Proof.
  induction 1.
  - apply edits_nil.
  - apply edits_keep; assumption.
  - apply edits_subst; assumption.
  - apply edits_insert; assumption.
  - apply edits_delete; assumption.
Qed.

Lemma edits_refl (s : list ascii) : edits s s 0.
Proof. induction s; [apply edits_nil | apply edits_keep; assumption]. Qed.

Lemma edits_zero (s t : list ascii) (k : nat) : edits s t k -> k = O -> s = t.
Proof.
  induction 1; intros Hk; try discriminate.
  - reflexivity.
  - f_equal. auto.
Qed.

Lemma edits_lengths (s t : list ascii) (k : nat) :
  edits s t k ->
  (List.length s <= List.length t + k)%nat /\ (List.length t <= List.length s + k)%nat.
Proof. induction 1; simpl; lia. Qed.

Lemma edits_trans (s t : list ascii) (j : nat) :
  edits s t j ->
  forall u k, edits t u k -> exists m, (m <= j + k)%nat /\ edits s u m.
Proof.
  induction 1 as [|c s t j H1 IH|a b s t j H1 IH|a s t j H1 IH|b s t j H1 IH];
    intros u k H2.
  - exists k. split; [lia | exact H2].
  - remember (c :: t) as T eqn:ET. revert ET.
    induction H2 as [|c2 t2 u2 k H2 _|b2 c2 t2 u2 k H2 _|b2 t2 u2 k H2 _|c2 t2 u2 k H2 IH2];
      intros ET.
    + discriminate.
    + injection ET as -> ->. destruct (IH _ _ H2) as [m [Hm Hs]].
      exists m. split; [lia | apply edits_keep, Hs].
    + injection ET as -> ->. destruct (IH _ _ H2) as [m [Hm Hs]].
      exists (S m). split; [lia | apply edits_subst, Hs].
    + injection ET as -> ->. destruct (IH _ _ H2) as [m [Hm Hs]].
      exists (S m). split; [lia | apply edits_delete, Hs].
    + destruct (IH2 ET) as [m [Hm Hs]].
      exists (S m). split; [lia | apply edits_insert, Hs].
  - remember (b :: t) as T eqn:ET. revert ET.
    induction H2 as [|c2 t2 u2 k H2 _|b2 c2 t2 u2 k H2 _|b2 t2 u2 k H2 _|c2 t2 u2 k H2 IH2];
      intros ET.
    + discriminate.
    + injection ET as -> ->. destruct (IH _ _ H2) as [m [Hm Hs]].
      exists (S m). split; [lia | apply edits_subst, Hs].
    + injection ET as -> ->. destruct (IH _ _ H2) as [m [Hm Hs]].
      exists (S m). split; [lia | apply edits_subst, Hs].
    + injection ET as -> ->. destruct (IH _ _ H2) as [m [Hm Hs]].
      exists (S m). split; [lia | apply edits_delete, Hs].
    + destruct (IH2 ET) as [m [Hm Hs]].
      exists (S m). split; [lia | apply edits_insert, Hs].
  - destruct (IH _ _ H2) as [m [Hm Hs]].
    exists (S m). split; [lia | apply edits_delete, Hs].
  - remember (b :: t) as T eqn:ET. revert ET.
    induction H2 as [|c2 t2 u2 k H2 _|b2 c2 t2 u2 k H2 _|b2 t2 u2 k H2 _|c2 t2 u2 k H2 IH2];
      intros ET.
    + discriminate.
    + injection ET as -> ->. destruct (IH _ _ H2) as [m [Hm Hs]].
      exists (S m). split; [lia | apply edits_insert, Hs].
    + injection ET as -> ->. destruct (IH _ _ H2) as [m [Hm Hs]].
      exists (S m). split; [lia | apply edits_insert, Hs].
    + injection ET as -> ->. destruct (IH _ _ H2) as [m [Hm Hs]].
      exists m. split; [lia | exact Hs].
    + destruct (IH2 ET) as [m [Hm Hs]].
      exists (S m). split; [lia | apply edits_insert, Hs].
Qed.

Lemma chars_inj (s t : string) : chars s = chars t -> s = t.
Proof.
  intros H. rewrite <- (string_of_list_ascii_of_string s), <- (string_of_list_ascii_of_string t).
  unfold chars in H. rewrite H. reflexivity.
Qed.

Lemma editDistance_sym (a b : list ascii) : editDistance a b = editDistance b a.
Proof.
  apply Nat.le_antisymm; apply editDistance_least, edits_sym, editDistance_edits.
Qed.

Lemma editDistance_zero (a b : list ascii) : editDistance a b = O <-> a = b.
Proof.
  split.
  - apply (edits_zero _ _ _ (editDistance_edits a b)).
  - intros ->. apply Nat.le_antisymm; [| lia].
    apply editDistance_least, edits_refl.
Qed.

(** X1.  [levenshtein] does not depend on the order of its arguments. *)
Theorem levenshtein_sym (s t : string) : levenshtein s t = levenshtein t s.
Proof.
  rewrite !levenshtein_editDistance. apply Nat.le_antisymm;
    apply editDistance_least, edits_sym, editDistance_edits.
Qed.

(** X2.  [levenshtein] is 0 exactly on equal strings. *)
Theorem levenshtein_zero_iff (s t : string) : levenshtein s t = O <-> s = t.
Proof.
  rewrite levenshtein_editDistance. split.
  - intros H. apply chars_inj.
    apply (edits_zero _ _ _ (editDistance_edits (chars s) (chars t)) H).
  - intros ->. apply Nat.le_antisymm; [| lia].
    apply editDistance_least, edits_refl.
Qed.

(** X3.  [levenshtein] satisfies the triangle inequality. *)
Theorem levenshtein_triangle (s t u : string) :
  (levenshtein s u <= levenshtein s t + levenshtein t u)%nat.
Proof.
  rewrite !levenshtein_editDistance.
  destruct (edits_trans _ _ _ (editDistance_edits (chars s) (chars t)) _ _
              (editDistance_edits (chars t) (chars u))) as [m [Hm He]].
  apply editDistance_least in He. lia.
Qed.

(** X4.  [levenshtein] lies between the difference of the two lengths and the
    longer length. *)
Theorem levenshtein_bounds (s t : string) :
  (String.length s - String.length t <= levenshtein s t)%nat
  /\ (String.length t - String.length s <= levenshtein s t)%nat
  /\ (levenshtein s t <= Nat.max (String.length s) (String.length t))%nat.
Proof.
  rewrite levenshtein_editDistance, <- !length_chars.
  pose proof (edits_lengths _ _ _ (editDistance_edits (chars s) (chars t))) as [H1 H2].
  pose proof (editDistance_le_max (chars s) (chars t)) as H3.
  repeat split; lia.
Qed.

Lemma one_minus_ratio (d m : nat) :
  (d <= S m)%nat ->
  let q := (1 + - (inject_Z (Z.of_nat d) / inject_Z (Z.of_nat (S m))))%Q in
  (0 <= q)%Q /\ (q <= 1)%Q /\ (q == 1 <-> d = O)%Q.
Proof.
  intros Hd. cbv zeta.
  unfold Qle, Qeq, Qdiv, Qmult, Qinv, Qplus, Qopp, inject_Z.
  change (Z.of_nat (S m)) with (Z.pos (Pos.of_succ_nat m)).
  cbn [Qnum Qden]. rewrite !Pos.mul_1_l, Zpos_P_of_succ_nat.
  rewrite !Z.mul_1_r, !Z.mul_1_l, Z.mul_0_l.
  split; [lia |]. split; [lia |]. split; intros H; lia.
Qed.

(** X5.  [similarity] is a number between 0 and 1, is 1 exactly on equal
    strings, and does not depend on the order of its arguments. *)
Theorem similarity_range (s t : string) :
  (exists q, similarity s t = Fin q /\ (0 <= q)%Q /\ (q <= 1)%Q /\ (q == 1 <-> s = t)%Q)
  /\ similarity t s = similarity s t.
Proof.
  split.
  - unfold similarity.
    assert (Hle : (levenshtein s t <= Nat.max (String.length s) (String.length t))%nat).
    { rewrite levenshtein_editDistance, <- !length_chars. apply editDistance_le_max. }
    assert (Hz : levenshtein s t = O <-> s = t).
    { rewrite levenshtein_editDistance, editDistance_zero.
      split; [apply chars_inj | intros ->; reflexivity]. }
    destruct (Nat.max (String.length s) (String.length t)) as [|m] eqn:Em.
    + exists (inject_Z 1). split; [reflexivity |].
      split; [unfold Qle; simpl; lia |]. split; [unfold Qle; simpl; lia |].
      split; [intros _ | reflexivity].
      assert (Hs : String.length s = O) by lia.
      assert (Ht : String.length t = O) by lia.
      destruct s; [| discriminate Hs]. destruct t; [reflexivity | discriminate Ht].
    + unfold numNat, numZ, numDiv.
      assert (Hnz : Qeq_bool (inject_Z (Z.of_nat (S m))) 0 = false).
      { apply not_true_is_false. intros H. apply Qeq_bool_iff in H.
        unfold Qeq in H. simpl in H. lia. }
      rewrite Hnz. eexists. split; [reflexivity |].
      destruct (one_minus_ratio (levenshtein s t) m Hle) as [H0 [H1 H2]].
      split; [exact H0 |]. split; [exact H1 |].
      rewrite <- Hz. exact H2.
  - unfold similarity.
    rewrite !levenshtein_editDistance, (editDistance_sym (chars t)), Nat.max_comm.
    reflexivity.
Qed.

(** ** The sanitized forms *)

(** X6.  The word [sanitizeUserShortAnswer] returns has no white space, is in
    lower case, and is left as it is when sanitized again; for [null] and
    [undefined] it is the empty string. *)
Theorem sanitizeUserShortAnswer_word (raw : val) :
  let word := sanitizeUserShortAnswer raw in
  allChars notWhite word = true
  /\ toLowerCase word = word
  /\ sanitizeUserShortAnswer (VStr word) = word
  /\ sanitizeUserShortAnswer VNull = ""
  /\ sanitizeUserShortAnswer VUndefined = "".
Proof.
  cbv zeta.
  assert (G : forall s,
             let w := toLowerCase (hd "" (filterBoolean (splitWs s))) in
             allChars notWhite w = true /\ toLowerCase w = w).
  { intros s. cbv zeta. split; [| apply toLowerCase_idem].
    rewrite toLowerCase_notWhite.
    destruct (filterBoolean (splitWs s)) as [|p l] eqn:E; [reflexivity |]. simpl.
    assert (Hin : In p (filterBoolean (splitWs s))) by (rewrite E; left; reflexivity).
    apply filter_In in Hin. apply (splitWsFrom_tokens s false), Hin. }
  assert (W : allChars notWhite (sanitizeUserShortAnswer raw) = true
              /\ toLowerCase (sanitizeUserShortAnswer raw) = sanitizeUserShortAnswer raw).
  { rewrite sanitize_as_token. destruct raw; try (split; reflexivity); apply G. }
  destruct W as [W1 W2]. split; [exact W1 |]. split; [exact W2 |].
  split; [| split; reflexivity].
  rewrite sanitize_as_token. cbn [ToString].
  rewrite (trim_notWhite _ W1), (splitWs_notWhite _ W1).
  destruct (sanitizeUserShortAnswer raw) eqn:E; [reflexivity |].
  simpl hd. exact W2.
Qed.

Lemma allChars_filterChars (p : ascii -> bool) (s : string) :
  allChars p (filterChars p s) = true.
Proof.
  induction s as [|c r IH]; simpl; [reflexivity |].
  destruct (p c) eqn:E; simpl; [rewrite E; exact IH | exact IH].
Qed.

Lemma allChars_filterChars_keeps (p q : ascii -> bool) (s : string) :
  allChars q s = true -> allChars q (filterChars p s) = true.
Proof.
  induction s as [|c r IH]; simpl; [reflexivity |].
  intros H. apply andb_true_iff in H. destruct H as [Hc Hr].
  destruct (p c); simpl; [rewrite Hc; auto | auto].
Qed.

Lemma allChars_lower (s : string) :
  allChars (fun c => Ascii.eqb (lowerChar c) c) (toLowerCase s) = true.
Proof.
  unfold toLowerCase. induction s as [|c r IH]; simpl; [reflexivity |].
  rewrite lowerChar_idem, Ascii.eqb_refl. exact IH.
Qed.

Lemma allChars_and (p q : ascii -> bool) (s : string) :
  allChars p s = true -> allChars q s = true ->
  allChars (fun c => p c && q c) s = true.
Proof.
  induction s as [|c r IH]; simpl; [reflexivity |].
  intros Hp Hq. apply andb_true_iff in Hp, Hq.
  destruct Hp as [-> Hp], Hq as [-> Hq]. simpl. auto.
Qed.

Lemma collapseWsFrom_chars (s : string) :
  forall b,
    allChars (fun c => keptByNormalize c && Ascii.eqb (lowerChar c) c) s = true ->
    allChars normalChar (collapseWsFrom b s) = true.
Proof.
  induction s as [|c r IH]; intros b; simpl; [reflexivity |].
  intros H. apply andb_true_iff in H. destruct H as [Hc Hr].
  destruct (isWhiteSpace c) eqn:Ec.
  - destruct b; simpl; auto.
  - simpl. rewrite (IH false Hr). unfold normalChar, notWhite. rewrite Hc, Ec. reflexivity.
Qed.

Lemma noDoubleSpace_cons (a b : ascii) (r : string) :
  noDoubleSpace (String a (String b r))
  = negb (isWhiteSpace a && isWhiteSpace b) && noDoubleSpace (String b r).
Proof. reflexivity. Qed.

Lemma collapseWsFrom_single (s : string) :
  forall b,
    noDoubleSpace (collapseWsFrom b s) = true
    /\ (b = true -> startsNotWhite (collapseWsFrom b s) = true).
Proof.
  induction s as [|c r IH]; intros b; simpl; [split; reflexivity |].
  destruct (isWhiteSpace c) eqn:Ec.
  - destruct b.
    + apply IH.
    + split; [| discriminate].
      destruct (IH true) as [H1 H2]. specialize (H2 eq_refl).
      destruct (collapseWsFrom true r) as [|d r'] eqn:E; [reflexivity |].
      rewrite noDoubleSpace_cons, H1.
      cbn [startsNotWhite] in H2. unfold notWhite in H2.
      destruct (isWhiteSpace d); [discriminate | reflexivity].
  - split; [| intros _; cbn [startsNotWhite]; unfold notWhite; rewrite Ec; reflexivity].
    destruct (IH false) as [H1 _].
    destruct (collapseWsFrom false r) as [|d r'] eqn:E; [reflexivity |].
    rewrite noDoubleSpace_cons, H1, Ec. reflexivity.
Qed.

(** X7.  Whatever the value, the text [normalizeText] returns has only lower
    case letters, digits, underscores, apostrophes, hyphens and spaces, and
    never two spaces in a row; for [null] and [undefined] it is empty. *)
Theorem normalizeText_shape (v : val) :
  allChars normalChar (normalizeText v) = true
  /\ noDoubleSpace (normalizeText v) = true
  /\ normalizeText VNull = "" /\ normalizeText VUndefined = "".
Proof.
  assert (G : forall s,
             allChars normalChar
               (collapseWs (filterChars keptByNormalize (toLowerCase s))) = true
             /\ noDoubleSpace
                  (collapseWs (filterChars keptByNormalize (toLowerCase s))) = true).
  { intros s. split.
    - apply collapseWsFrom_chars, allChars_and.
      + apply allChars_filterChars.
      + apply allChars_filterChars_keeps, allChars_lower.
    - apply collapseWsFrom_single. }
  split; [| split; [| split; reflexivity]].
  - destruct v; try reflexivity; apply G.
  - destruct v; try reflexivity; apply G.
Qed.

Lemma sanitize_lower (s : string) :
  sanitizeUserShortAnswer (VStr (toLowerCase s)) = sanitizeUserShortAnswer (VStr s).
Proof.
  rewrite !sanitize_as_token. cbn [ToString]. unfold splitWs.
  rewrite trim_lower, splitWsFrom_lower, filterBoolean_lower.
  destruct (filterBoolean (splitWsFrom false (trim s))); simpl; [reflexivity |].
  apply toLowerCase_idem.
Qed.

Lemma normalizeText_lower (s : string) :
  normalizeText (VStr (toLowerCase s)) = normalizeText (VStr s).
Proof.
  unfold normalizeText. cbn [ToString]. rewrite trim_lower, toLowerCase_idem. reflexivity.
Qed.

(** X8.  For a question that is not a choice question, the result of
    [gradeQuestion] does not depend on the case of the letters of the answer:
    two answers with the same lower-case form get the same result. *)
Theorem gradeQuestion_ignores_case (question : Question) (s s' : string) :
  String.eqb (q_type question) "mcq" = false ->
  toLowerCase s = toLowerCase s' ->
  gradeQuestion question (VStr s) = gradeQuestion question (VStr s').
Proof.
  intros Hty Hlow.
  assert (Hn : normalizeText (VStr s) = normalizeText (VStr s'))
    by (rewrite <- (normalizeText_lower s), <- (normalizeText_lower s'), Hlow; reflexivity).
  assert (Hs : sanitizeUserShortAnswer (VStr s) = sanitizeUserShortAnswer (VStr s'))
    by (rewrite <- (sanitize_lower s), <- (sanitize_lower s'), Hlow; reflexivity).
  unfold gradeQuestion. rewrite Hty, Hn, Hs. reflexivity.
Qed.

Lemma gradeQuestion_ignores_case_witness :
  gradeQuestion (sampleQuestion "q1" "tf" "true") (VStr "YES")
  = gradeQuestion (sampleQuestion "q1" "tf" "true") (VStr "yes").
Proof.
  apply (gradeQuestion_ignores_case (sampleQuestion "q1" "tf" "true") "YES" "yes");
    reflexivity.
Defined.

(** ** Numbers in words *)

(** X9.  [wordToNumber] reads back every number below 1000 written in English
    words, whether the words are separated by spaces, hyphens or commas. *)
Theorem wordToNumber_reads_words (n : nat) :
  (n < 1000)%nat ->
  readsAs n (wordToNumber (wordsOf " " n)) = true
  /\ readsAs n (wordToNumber (wordsOf "-" n)) = true
  /\ readsAs n (wordToNumber (wordsOf ", " n)) = true.
Proof.
  intros Hn.
  apply (below_thousand
           (fun n => readsAs n (wordToNumber (wordsOf " " n))
                     && readsAs n (wordToNumber (wordsOf "-" n))
                     && readsAs n (wordToNumber (wordsOf ", " n)))) in Hn.
  - apply andb_true_iff in Hn. destruct Hn as [Hn H3].
    apply andb_true_iff in Hn. tauto.
  - vm_compute. reflexivity.
Qed.

Lemma wordToNumber_reads_words_witness :
  readsAs 123 (wordToNumber "one hundred twenty three") = true.
Proof. apply (wordToNumber_reads_words 123). lia. Defined.

(** X10.  A short question is answered correctly across numerals and words
    for every number below 1000: the expected text in words accepts the
    answer in digits, and the expected text in digits accepts the answer in
    words joined by hyphens. *)
Theorem gradeQuestion_numerals_and_words (n : nat) :
  (n < 1000)%nat ->
  r_isCorrect (gradeQuestion (shortExpecting (wordsOf " " n)) (VStr (decimalOfNat n)))
  = true
  /\ r_isCorrect (gradeQuestion (shortExpecting (decimalOfNat n)) (VStr (wordsOf "-" n)))
     = true.
Proof.
  intros Hn.
  apply (below_thousand
           (fun n =>
              r_isCorrect (gradeQuestion (shortExpecting (wordsOf " " n))
                             (VStr (decimalOfNat n)))
              && r_isCorrect (gradeQuestion (shortExpecting (decimalOfNat n))
                                (VStr (wordsOf "-" n))))) in Hn.
  - apply andb_true_iff in Hn. exact Hn.
  - vm_compute. reflexivity.
Qed.

Lemma gradeQuestion_numerals_and_words_witness :
  r_isCorrect (gradeQuestion (shortExpecting "forty two") (VStr "42")) = true
  /\ r_isCorrect (gradeQuestion (shortExpecting "42") (VStr "forty-two")) = true.
Proof. apply (gradeQuestion_numerals_and_words 42). lia. Defined.

(** ** gradeAll on any answer set *)

Lemma countCorrect_all (ds : list Detail) :
  countCorrect ds = List.length ds <-> forall d, In d ds -> d_isCorrect d = true.
Proof.
  unfold countCorrect. induction ds as [|d r IH]; simpl.
  - split; [intros _ d [] | reflexivity].
  - pose proof (filter_length_le d_isCorrect r) as Hle.
    destruct (d_isCorrect d) eqn:E; simpl.
    + split.
      * intros H x [<-|Hx]; [exact E | apply IH; [lia | exact Hx]].
      * intros H. f_equal. apply IH. intros x Hx. apply H. right. exact Hx.
    + split; [lia |]. intros H. rewrite (H d (or_introl eq_refl)) in E. discriminate.
Qed.

(** X11.  Whatever the answers, [gradeAll] returns one detail per question and
    a [totalCorrect] that counts the correct details: it is at most the number
    of questions, and equals it exactly when every detail is correct. *)
Theorem gradeAll_score_bound (questions : list Question) (answers : AnswerSet) :
  let result := gradeAll questions answers in
  List.length (details result) = List.length questions
  /\ (totalCorrect result <= List.length questions)%nat
  /\ (totalCorrect result = List.length questions
      <-> forall d, In d (details result) -> d_isCorrect d = true).
Proof.
  cbv zeta. rewrite gradeAll_spec. cbv zeta. cbn [details totalCorrect].
  set (ds := mapi _ questions O).
  assert (Hl : List.length ds = List.length questions) by apply mapi_length.
  split; [exact Hl |]. rewrite <- Hl. split; [apply countCorrect_le | apply countCorrect_all].
Qed.

(** X12.  When the answers are an array, [gradeAll] grades the question at
    position [idx] with the element [idx] of the array, whatever the qids, and
    as unanswered beyond the end of the array. *)
Theorem gradeAll_array_by_position (questions : list Question) (answers : list val)
  (idx : nat) (q : Question) :
  nth_error questions idx = Some q ->
  nth_error (details (gradeAll questions (AnswersArray answers))) idx
  = Some (detailOf q idx (nth idx answers VUndefined))
  /\ ((List.length answers <= idx)%nat ->
      nth_error (details (gradeAll questions (AnswersArray answers))) idx
      = Some (detailOf q idx VUndefined)).
Proof.
  intros Hq. rewrite gradeAll_spec. cbv zeta. cbn [details].
  rewrite mapi_nth_error, Hq. simpl. split; [reflexivity |].
  intros Hle. rewrite (nth_overflow answers VUndefined Hle). reflexivity.
Qed.

Lemma gradeAll_array_by_position_witness :
  nth_error (details (gradeAll parisRome (AnswersArray [VStr "rome"]))) 1
  = Some (detailOf (sampleQuestion "q2" "short" "rome") 1 VUndefined).
Proof.
  apply (gradeAll_array_by_position parisRome [VStr "rome"] 1
           (sampleQuestion "q2" "short" "rome") eq_refl).
  simpl. lia.
Defined.

(** ** startQuiz: the stored attempt *)

Lemma setNth_perm {A : Type} (l : list A) :
  forall (j : nat) (a y : A),
    nth_error l j = Some y -> Permutation (y :: setNth l j a) (a :: l).
Proof.
  induction l as [|x r IH]; intros [|j] a y; simpl; try discriminate.
  - intros H. injection H as ->. apply perm_swap.
  - intros H. specialize (IH j a y H).
    eapply perm_trans; [apply perm_swap |].
    eapply perm_trans; [apply perm_skip, IH |]. apply perm_swap.
Qed.

Lemma swap_perm {A : Type} (l : list A) : forall i j, Permutation (swap l i j) l.
Proof.
  unfold swap. induction l as [|a r IH]; intros i j.
  - destruct i, j; apply Permutation_refl.
  - destruct i as [|i], j as [|j]; cbn [nth_error].
    + apply Permutation_refl.
    + destruct (nth_error r j) as [y|] eqn:Ej; [| apply Permutation_refl].
      simpl. apply setNth_perm, Ej.
    + destruct (nth_error r i) as [x|] eqn:Ei; [| apply Permutation_refl].
      simpl. apply setNth_perm, Ei.
    + specialize (IH i j).
      destruct (nth_error r i) as [x|]; [| apply Permutation_refl].
      destruct (nth_error r j) as [y|]; [| apply Permutation_refl].
      simpl. apply perm_skip, IH.
Qed.

Lemma shuffleFrom_perm {A : Type} (pick : nat -> nat) (i : nat) :
  forall l : list A, Permutation (shuffleFrom pick i l) l.
Proof.
  induction i as [|k IH]; intros l; simpl; [apply Permutation_refl |].
  eapply perm_trans; [apply IH | apply swap_perm].
Qed.

Lemma mapi_In {A B : Type} (f : A -> nat -> B) (l : list A) :
  forall i0 y, In y (mapi f l i0) -> exists x i, In x l /\ y = f x i.
Proof.
  induction l as [|x r IH]; intros i0 y; simpl; [tauto |].
  intros [<-|H].
  - exists x, i0. auto.
  - destruct (IH _ _ H) as [x' [i [Hx Hy]]]. exists x', i. auto.
Qed.

(** X13.  [startQuiz] changes the collection only when it answers 200, and
    then only by adding one attempt: in progress, of that user and quiz,
    without answers, score 0, its questions being the snapshot of the quiz
    questions up to their order, each with a non-empty qid.  The questions of
    the reply are those of the stored attempt, in the same order, without
    explanation, answer text or answer index. *)
Theorem startQuiz_adds_one_attempt (quizzes : list Quiz) (db : Sessions)
  (userId username quizId : string) (now : Z) (newId : string) (pick : nat -> nat) :
  match startQuiz quizzes db userId username quizId now newId pick with
  | (db', Error _ _) => db' = db
  | (db', Json body) =>
      exists quiz session,
        find (fun q => String.eqb (quiz_id q) quizId) quizzes = Some quiz
        /\ db' = (db ++ [session])%list
        /\ s_id session = newId /\ s_user session = userId /\ s_quiz session = quizId
        /\ s_status session = InProgress /\ s_answers session = []
        /\ s_score session = O /\ s_startedAt session = now
        /\ s_totalQuestions session = List.length (s_questions session)
        /\ Permutation (s_questions session)
             (mapi snapshotQuestion
                (match quiz_questions quiz with Some qs => qs | None => [] end) O)
        /\ (forall q, In q (s_questions session) -> nonEmpty (q_qid q) = true)
        /\ st_sessionId body = newId
        /\ st_totalQuestions body = List.length (s_questions session)
        /\ map cq_qid (st_questions body) = map q_qid (s_questions session)
        /\ (forall cq, In cq (st_questions body) -> hidesAnswers cq)
  end.
Proof.
  unfold startQuiz.
  destruct (find (fun q => String.eqb (quiz_id q) quizId) quizzes) as [quiz|] eqn:Eq;
    [| destruct (isObjectId quizId); reflexivity].
  destruct (optLt now (quiz_startAt quiz)); [reflexivity |].
  destruct (optGt now (quiz_endAt quiz)); [reflexivity |].
  destruct (findOne _ db); [reflexivity |].
  set (snapshot := mapi snapshotQuestion
                     (match quiz_questions quiz with Some qs => qs | None => [] end) O).
  set (questionsSnapshot :=
         if match quiz_settings quiz with
            | Some st => shuffleQuestions st
            | None => false
            end
         then shuffleFrom pick (List.length snapshot - 1) snapshot
         else snapshot).
  assert (Hperm : Permutation questionsSnapshot snapshot).
  { unfold questionsSnapshot.
    destruct (match quiz_settings quiz with Some st => shuffleQuestions st | None => false end);
      [apply shuffleFrom_perm | apply Permutation_refl]. }
  apply find_some in Eq. destruct Eq as [_ Eid]. apply String.eqb_eq in Eid.
  eexists quiz, _. split; [reflexivity |]. split; [reflexivity |]. cbn.
  repeat (split; [reflexivity || exact Eid |]).
  split; [exact Hperm |]. split.
  - intros q Hq. apply (Permutation_in _ Hperm) in Hq.
    apply mapi_In in Hq. destruct Hq as [x [i [_ ->]]]. simpl.
    destruct (nonEmpty (q_qid x)) eqn:E; [exact E | reflexivity].
  - repeat (split; [reflexivity |]). split.
    + rewrite map_map. reflexivity.
    + intros cq Hcq. apply in_map_iff in Hcq. destruct Hcq as [q [<- _]].
      repeat split.
Qed.

Example startQuiz_shuffled :
  map q_qid
    (match fst (startQuiz [quiz2] [] "u1" "alice" "quiz2" 10 "s2" (fun _ => O)) with
     | [s] => s_questions s
     | _ => []
     end) = ["q2"; "q1"]
  /\ map s_expiresAt (fst (startQuiz [quiz2] [] "u1" "alice" "quiz2" 10 "s2" (fun _ => O)))
     = [Some 10010].
Proof. split; reflexivity. Qed.

Lemma positive_truthy (d : num) :
  numLt (numZ 0) d = true -> truthy (VNum d) = true.
Proof.
  destruct d as [|b|q]; simpl; [discriminate | reflexivity |].
  intros H. apply negb_true_iff in H. apply negb_true_iff.
  apply not_true_is_false. intros E. apply Qeq_bool_iff in E.
  apply not_true_iff_false in H. apply H, Qle_bool_iff. rewrite E. apply Qle_refl.
Qed.

(** X14.  The attempt that [startQuiz] stores has the deadline and the
    duration of the reply.  It has no deadline, and no run of the expiry
    script selects it, when the quiz gives no duration or one that is not
    above zero.  When the duration is positive and makes a whole number
    [k >= 1] of milliseconds, with [now + k] below 2^53, the deadline is
    [now + k] and the attempt is not selected by a run of the script at the
    instant of the start or before. *)
Theorem startQuiz_attempt_not_overdue (quizzes : list Quiz) (db : Sessions)
  (userId username quizId : string) (now : Z) (newId : string) (pick : nat -> nat)
  (db' : Sessions) (body : StartBody) :
  startQuiz quizzes db userId username quizId now newId pick = (db', Json body) ->
  exists session,
    db' = (db ++ [session])%list
    /\ s_expiresAt session = st_expiresAt body
    /\ s_attemptDurationSeconds session = st_attemptDurationSeconds body
    /\ (st_attemptDurationSeconds body = None ->
        s_expiresAt session = None /\ forall t, isExpired t session = false)
    /\ (forall d, st_attemptDurationSeconds body = Some d ->
                  numLt (numZ 0) d = false ->
                  s_expiresAt session = None /\ forall t, isExpired t session = false)
    /\ (forall d k, st_attemptDurationSeconds body = Some d ->
                    numLt (numZ 0) d = true ->
                    jsMul d (numZ 1000) = numZ k ->
                    1 <= k -> 0 <= now -> now + k < 2 ^ 53 ->
                    s_expiresAt session = Some (now + k)
                    /\ forall t, t <= now -> isExpired t session = false).
Proof.
  unfold startQuiz.
  destruct (find (fun q => String.eqb (quiz_id q) quizId) quizzes) as [quiz|];
    [| destruct (isObjectId quizId); discriminate].
  destruct (optLt now (quiz_startAt quiz)); [discriminate |].
  destruct (optGt now (quiz_endAt quiz)); [discriminate |].
  destruct (findOne _ db); [discriminate |].
  intros H. injection H as <- <-. eexists. split; [reflexivity |].
  cbn [s_expiresAt s_attemptDurationSeconds st_expiresAt st_attemptDurationSeconds].
  split; [reflexivity |]. split; [reflexivity |].
  unfold isExpired. cbn [s_status s_expiresAt Status_eqb andb].
  destruct (match quiz_settings quiz with
            | Some st => orOpt (attemptDurationSeconds st) (timeLimitSeconds st)
            | None => None
            end) as [d|]; cbn [deadline].
  - split; [discriminate |]. split.
    + intros d' Hd' Hneg. injection Hd' as <-. rewrite Hneg, andb_false_r.
      split; reflexivity.
    + intros d' k Hd' Hpos Hk Hk1 Hnow Hrange. injection Hd' as <-.
      rewrite Hpos, (positive_truthy d Hpos), Hk. cbn [andb].
      rewrite jsAdd_numZ by lia. cbn [dateOf numZ inject_Z Qnum Qden].
      rewrite Z.quot_1_r. split; [reflexivity |].
      intros t Ht. apply Z.leb_gt. lia.
  - split; [intros _; split; reflexivity |].
    split; [discriminate | intros d k Hd; discriminate Hd].
Qed.

Lemma startQuiz_attempt_not_overdue_witness :
  exists session,
    fst (startQuiz [quiz2] [] "u1" "alice" "quiz2" 10 "s2" (fun _ => O)) = [session]
    /\ s_expiresAt session = Some 10010
    /\ isExpired 10 session = false.
Proof.
  destruct (startQuiz_attempt_not_overdue [quiz2] [] "u1" "alice" "quiz2" 10 "s2"
              (fun _ => O) _ _ eq_refl) as [session [Hdb [_ [_ [_ [_ Hpos]]]]]].
  exists session. split; [exact Hdb |].
  destruct (Hpos (numZ 10) 10000) as [Hex Hnot];
    try reflexivity; try lia.
  split; [exact Hex | apply Hnot; lia].
Defined.

(** A duration below a millisecond: the deadline is the instant of the start,
    and a run of the script at that instant selects the attempt. *)
Example startQuiz_short_duration :
  let quiz := mkQuiz "quiz3" (Some parisRome) None None
                (Some (mkQuizSettings false (Some (Fin (1 # 2000))) None)) in
  map s_expiresAt (fst (startQuiz [quiz] [] "u1" "alice" "quiz3" 10 "s3" (fun _ => O)))
  = [Some 10]
  /\ map (isExpired 10)
       (fst (startQuiz [quiz] [] "u1" "alice" "quiz3" 10 "s3" (fun _ => O))) = [true].
Proof. split; reflexivity. Qed.

(** ** Ownership *)



(** ** A submit from its request to the stored attempt *)

(** X16.  A submit by the owner of an attempt in progress stores the attempt
    as finished at the time of the write, with the score of the reply, one
    graded answer per question of the snapshot and the questions as they
    were; no other attempt changes; the score is at most the number of
    questions; and, unless the update of the user is rejected, the user is
    credited once with the score and one more quiz attempted, other users
    staying as they are. *)
Theorem submitSession_stores_the_result (db : Sessions) (users : Users)
  (userId sessionId : string) (payload : Payload) (now nowFinish : Z)
  (statsThrows : bool) (session : Session) :
  findById db sessionId = Some session ->
  s_user session = userId ->
  s_status session = InProgress ->
  exists db' users' body stored,
    submitSession db users userId sessionId payload now nowFinish statsThrows
    = (db', users', Json body)
    /\ findById db' sessionId = Some stored
    /\ (forall other, other <> sessionId -> findById db' other = findById db other)
    /\ s_status stored = Finished
    /\ s_finishedAt stored = Some nowFinish
    /\ s_autoSubmitted stored = optGt now (s_expiresAt session)
    /\ sub_autoSubmitted body = s_autoSubmitted stored
    /\ s_score stored = sub_score body
    /\ sub_score body = countCorrect (sub_details body)
    /\ (sub_score body <= List.length (s_questions session))%nat
    /\ s_questions stored = s_questions session
    /\ s_answers stored = map answerToStore (sub_details body)
    /\ List.length (s_answers stored) = List.length (s_questions session)
    /\ (forall a, In a (s_answers stored) -> a_isCorrect a <> None)
    /\ (forall other, other <> userId -> findUser users' other = findUser users other)
    /\ (statsThrows = true -> users' = users /\ sub_user body = None)
    /\ (statsThrows = false ->
        match findUser users userId with
        | Some u =>
            findUser users' userId = Some (credited (sub_score body) u)
            /\ sub_user body = Some (credited (sub_score body) u)
        | None => users' = users /\ sub_user body = None
        end).
Proof.
  intros Hfind Hown Hst.
  destruct (submitSession_run db users userId sessionId payload now nowFinish
              statsThrows session Hfind Hown Hst) as [db' [Hnew [Hothers [_ Hrun]]]].
  cbv zeta in Hnew, Hrun.
  set (ds := details (gradeAll (s_questions session)
                        (AnswersByQid (answersMapFor payload (s_answers session))))) in *.
  assert (Hlen : List.length ds = List.length (s_questions session)).
  { unfold ds. rewrite gradeAll_spec. cbv zeta. cbn [details]. apply mapi_length. }
  assert (Hshape : forall users' userView,
             submitSession db users userId sessionId payload now nowFinish statsThrows
             = (db', users',
                Json (mkSubmitBody sessionId (s_quiz session) (countCorrect ds)
                        (s_totalQuestions session) (optGt now (s_expiresAt session))
                        ds userView)) ->
             (forall other, other <> userId -> findUser users' other = findUser users other) ->
             (statsThrows = true -> users' = users /\ userView = None) ->
             (statsThrows = false ->
              match findUser users userId with
              | Some u =>
                  findUser users' userId = Some (credited (countCorrect ds) u)
                  /\ userView = Some (credited (countCorrect ds) u)
              | None => users' = users /\ userView = None
              end) ->
             exists db' users' body stored,
               submitSession db users userId sessionId payload now nowFinish statsThrows
               = (db', users', Json body)
               /\ findById db' sessionId = Some stored
               /\ (forall other, other <> sessionId ->
                                 findById db' other = findById db other)
               /\ s_status stored = Finished
               /\ s_finishedAt stored = Some nowFinish
               /\ s_autoSubmitted stored = optGt now (s_expiresAt session)
               /\ sub_autoSubmitted body = s_autoSubmitted stored
               /\ s_score stored = sub_score body
               /\ sub_score body = countCorrect (sub_details body)
               /\ (sub_score body <= List.length (s_questions session))%nat
               /\ s_questions stored = s_questions session
               /\ s_answers stored = map answerToStore (sub_details body)
               /\ List.length (s_answers stored) = List.length (s_questions session)
               /\ (forall a, In a (s_answers stored) -> a_isCorrect a <> None)
               /\ (forall other, other <> userId ->
                                 findUser users' other = findUser users other)
               /\ (statsThrows = true -> users' = users /\ sub_user body = None)
               /\ (statsThrows = false ->
                   match findUser users userId with
                   | Some u =>
                       findUser users' userId = Some (credited (sub_score body) u)
                       /\ sub_user body = Some (credited (sub_score body) u)
                   | None => users' = users /\ sub_user body = None
                   end)).
  { intros users' userView Heq Hrest Hthrown Hcredit.
    do 4 eexists. split; [exact Heq |]. split; [exact Hnew |].
    split; [exact Hothers |].
    cbn [finalize s_status s_finishedAt s_autoSubmitted s_score s_questions s_answers
         sub_autoSubmitted sub_score sub_details sub_user].
    repeat (split; [reflexivity |]).
    split; [rewrite <- Hlen; apply countCorrect_le |].
    repeat (split; [reflexivity |]).
    split; [rewrite length_map; exact Hlen |].
    split.
    { intros a Ha. apply in_map_iff in Ha. destruct Ha as [d [<- _]]. discriminate. }
    split; [exact Hrest |]. split; [exact Hthrown | exact Hcredit]. }
  destruct statsThrows.
  - apply (Hshape users None Hrun); [reflexivity | auto | discriminate].
  - destruct (findUser users userId) as [u|] eqn:Eu.
    + destruct (incStats_found users userId (countCorrect ds) u Eu)
        as [users' [Hinc [Hme [Hrest _]]]].
      rewrite Hinc in Hrun.
      apply (Hshape users' (Some (credited (countCorrect ds) u)) Hrun Hrest);
        [discriminate |].
      intros _. split; [exact Hme | reflexivity].
    + rewrite (incStats_missing users userId (countCorrect ds) Eu) in Hrun.
      apply (Hshape users None Hrun); [reflexivity | discriminate |].
      intros _. split; reflexivity.
Qed.

Lemma submitSession_stores_the_result_witness :
  exists db' users' body stored,
    submitSession [openSession] alice "u1" "s1" onlyFirst 500 501 false
    = (db', users', Json body)
    /\ findById db' "s1" = Some stored
    /\ s_status stored = Finished
    /\ s_score stored = sub_score body.
Proof.
  destruct (submitSession_stores_the_result [openSession] alice "u1" "s1" onlyFirst
              500 501 false openSession eq_refl eq_refl eq_refl)
    as [db' [users' [body [stored [H1 [H2 [_ [H3 [_ [_ [_ [H4 _]]]]]]]]]]]].
  exists db', users', body, stored. auto.
Defined.

(** X17.  An attempt is submitted once: after a submit by its owner went
    through, every further submit on the same attempt is answered 409 and
    changes neither the attempts nor the users, whatever answers it carries. *)
Theorem submitSession_only_once (db : Sessions) (users : Users)
  (userId sessionId : string) (payload : Payload) (now nowFinish : Z)
  (statsThrows : bool) (session : Session) :
  findById db sessionId = Some session ->
  s_user session = userId ->
  s_status session = InProgress ->
  exists db' users' body,
    submitSession db users userId sessionId payload now nowFinish statsThrows
    = (db', users', Json body)
    /\ forall payload2 now2 nowFinish2 statsThrows2,
         submitSession db' users' userId sessionId payload2 now2 nowFinish2 statsThrows2
         = (db', users', Error 409 "Session already finished or timed-out").
Proof.
  intros Hfind Hown Hst.
  destruct (submitSession_run db users userId sessionId payload now nowFinish
              statsThrows session Hfind Hown Hst) as [db' [Hnew [_ [_ Hrun]]]].
  cbv zeta in Hnew, Hrun.
  assert (Hagain : forall users' payload2 now2 nowFinish2 statsThrows2,
             submitSession db' users' userId sessionId payload2 now2 nowFinish2
               statsThrows2
             = (db', users', Error 409 "Session already finished or timed-out")).
  { intros. unfold submitSession, submitSession_plan. rewrite Hnew.
    cbn [finalize s_user s_status]. rewrite Hown, String.eqb_refl. reflexivity. }
  destruct statsThrows.
  - do 3 eexists. split; [exact Hrun | apply Hagain].
  - destruct (incStats users userId _) as [users' [userUpdate|]];
      do 3 eexists; (split; [exact Hrun | apply Hagain]).
Qed.

Lemma submitSession_only_once_witness :
  exists db' users' body,
    submitSession [openSession] alice "u1" "s1" onlyFirst 500 501 false
    = (db', users', Json body)
    /\ submitSession db' users' "u1" "s1" noAnswers 600 601 false
       = (db', users', Error 409 "Session already finished or timed-out").
Proof.
  destruct (submitSession_only_once [openSession] alice "u1" "s1" onlyFirst
              500 501 false openSession eq_refl eq_refl eq_refl)
    as [db' [users' [body [H1 H2]]]].
  exists db', users', body. split; [exact H1 | apply H2].
Defined.

(** ** A save from its request to the stored attempt *)

(** The attempt a save stores. *)
Lemma saveSession_run (db : Sessions) (userId sessionId : string)
  (payload : Payload) (now : Z) (session : Session) :
  findById db sessionId = Some session ->
  s_user session = userId ->
  s_status session = InProgress ->
  acceptedBySave payload = true ->
  exists merged db',
    saveSession db userId sessionId payload now
    = (db', Json (mkSaveBody true now (List.length merged)))
    /\ findById db' sessionId = Some (setAnswers merged session)
    /\ (forall other, other <> sessionId -> findById db' other = findById db other)
    /\ findLast (fun a => String.eqb (a_qid a) "__proto__") merged = None
    /\ (forall qid,
          qid <> "__proto__" ->
          findLast (fun a => String.eqb (a_qid a) qid) merged
          = if nonEmpty qid then
              option_map (fun ua => mkAnswer qid ua None None)
                (perQuestionPriority payload (s_answers session) qid)
            else None).
Proof.
  intros Hfind Hown Hst Hacc.
  destruct (saveSession_plan_merged db userId sessionId payload session
              Hfind Hown Hst Hacc) as [merged [Hplan [_ [Hlast [Hproto Hmerged]]]]].
  destruct (findOneAndUpdate_byId db sessionId InProgress (setAnswers merged) session
              (fun x => eq_refl) Hfind Hst) as [db' [Hw [Hread [Hother _]]]].
  exists merged, db'.
  split; [| split; [exact Hread | split; [exact Hother | split]]].
  - unfold saveSession. rewrite Hplan. unfold saveSession_write. rewrite Hw. reflexivity.
  - rewrite Hlast. exact Hproto.
  - intros qid Hq. rewrite Hlast, (Hmerged qid Hq). unfold perQuestionPriority.
    destruct (nonEmpty qid); [| reflexivity].
    destruct (supplied payload qid); reflexivity.
Qed.

Lemma answersMap_absent (view : Answer -> AnswerView) (answers : list Answer)
  (k : string) :
  findLast (fun a => String.eqb (a_qid a) k) answers = None ->
  getProp (own (fold_left (fun acc a => assign viewKind acc (a_qid a) (view a))
                  answers emptyDict)) k = None.
Proof.
  intros Hnone.
  destruct (getProp _ k) as [v|] eqn:E; [| reflexivity].
  apply answersMap_views in E. destruct E as [a [Hin [Hk _]]].
  apply in_rev in Hin. apply (find_none _ _ Hnone) in Hin.
  rewrite Hk, String.eqb_refl in Hin. discriminate.
Qed.

(** X18.  What is saved is what is read back: after a [saveSession] by the
    owner of an attempt in progress, [getSession] sends, under each non-empty
    qid other than [__proto__], the raw answer the body supplied for it or
    else the one saved before, nothing under a qid that is in neither,
    nothing under the empty qid and under [__proto__], and no review; saving
    the same body once more changes none of these answers. *)
Theorem saveSession_then_getSession (db : Sessions) (userId sessionId : string)
  (payload : Payload) (now : Z) (session : Session) :
  findById db sessionId = Some session ->
  s_user session = userId ->
  s_status session = InProgress ->
  acceptedBySave payload = true ->
  exists db' reply view,
    saveSession db userId sessionId payload now = (db', Json reply)
    /\ getSession db' userId sessionId = Json view
    /\ sb_status view = InProgress
    /\ sb_details view = None
    /\ (forall qid,
          nonEmpty qid = true -> qid <> "__proto__" ->
          getProp (sb_answers view) qid
          = option_map RawAnswer (perQuestionPriority payload (s_answers session) qid))
    /\ getProp (sb_answers view) "" = None
    /\ getProp (sb_answers view) "__proto__" = None
    /\ forall now2, exists db2 reply2 view2,
         saveSession db' userId sessionId payload now2 = (db2, Json reply2)
         /\ getSession db2 userId sessionId = Json view2
         /\ forall qid, getProp (sb_answers view2) qid = getProp (sb_answers view) qid.
Proof.
  intros Hfind Hown Hst Hacc.
  assert (Hread : forall db1 merged stored,
             findById db1 sessionId = Some (setAnswers merged stored) ->
             s_user stored = userId -> s_status stored = InProgress ->
             findLast (fun a => String.eqb (a_qid a) "__proto__") merged = None ->
             exists view,
               getSession db1 userId sessionId = Json view
               /\ sb_status view = InProgress
               /\ sb_details view = None
               /\ forall qid,
                    getProp (sb_answers view) qid
                    = option_map (fun a => RawAnswer (a_userAnswer a))
                        (findLast (fun a => String.eqb (a_qid a) qid) merged)).
  { intros db1 merged stored H1 H2 H3 Hp. unfold getSession. rewrite H1.
    cbn [setAnswers s_user s_status s_answers]. rewrite H2, H3, String.eqb_refl.
    cbn [negb Status_eqb]. eexists. split; [reflexivity |].
    cbn [sb_status sb_details sb_answers]. split; [reflexivity |].
    split; [reflexivity |]. intros qid.
    destruct (String.eqb qid "__proto__") eqn:E.
    - apply String.eqb_eq in E. subst qid. rewrite Hp.
      apply (answersMap_absent (fun a => RawAnswer (a_userAnswer a))), Hp.
    - apply String.eqb_neq in E.
      apply (getProp_answersMap (fun a => RawAnswer (a_userAnswer a))), E. }
  destruct (saveSession_run db userId sessionId payload now session Hfind Hown Hst Hacc)
    as [merged [db' [Hsave [Hstored [_ [Hproto Hmerged]]]]]].
  destruct (Hread db' merged session Hstored Hown Hst Hproto)
    as [view [Hget [Hs [Hd Hview]]]].
  exists db', (mkSaveBody true now (List.length merged)), view.
  split; [exact Hsave |]. split; [exact Hget |]. split; [exact Hs |].
  split; [exact Hd |].
  assert (Hlook : forall qid,
             qid <> "__proto__" ->
             getProp (sb_answers view) qid
             = if nonEmpty qid then
                 option_map RawAnswer
                   (perQuestionPriority payload (s_answers session) qid)
               else None).
  { intros qid Hq. rewrite Hview, (Hmerged qid Hq).
    destruct (nonEmpty qid); [| reflexivity].
    destruct (perQuestionPriority payload (s_answers session) qid); reflexivity. }
  split; [intros qid Hne Hq; rewrite (Hlook qid Hq), Hne; reflexivity |].
  split; [apply (Hlook ""); discriminate |].
  split; [rewrite Hview, Hproto; reflexivity |].
  intros now2.
  destruct (saveSession_run db' userId sessionId payload now2 (setAnswers merged session)
              Hstored Hown Hst Hacc)
    as [merged2 [db2 [Hsave2 [Hstored2 [_ [Hproto2 Hmerged2]]]]]].
  destruct (Hread db2 merged2 (setAnswers merged session) Hstored2 Hown Hst Hproto2)
    as [view2 [Hget2 [_ [_ Hview2]]]].
  exists db2, (mkSaveBody true now2 (List.length merged2)), view2.
  split; [exact Hsave2 |]. split; [exact Hget2 |]. intros qid.
  destruct (String.eqb qid "__proto__") eqn:E.
  { apply String.eqb_eq in E. subst qid. rewrite Hview2, Hview, Hproto, Hproto2.
    reflexivity. }
  apply String.eqb_neq in E.
  rewrite Hview2, (Hmerged2 qid E), (Hlook qid E). cbn [setAnswers s_answers].
  destruct (nonEmpty qid) eqn:En; [| reflexivity].
  unfold perQuestionPriority at 1.
  destruct (supplied payload qid) as [ua|] eqn:Es.
  - unfold perQuestionPriority. rewrite Es. reflexivity.
  - unfold saved. rewrite (Hmerged qid E), En.
    destruct (perQuestionPriority payload (s_answers session) qid); reflexivity.
Qed.

Lemma saveSession_then_getSession_witness :
  exists db' reply view,
    saveSession [openSession] "u1" "s1" onlyFirst 600 = (db', Json reply)
    /\ getSession db' "u1" "s1" = Json view
    /\ getProp (sb_answers view) "q1" = Some (RawAnswer (VStr "berlin"))
    /\ getProp (sb_answers view) "q2" = Some (RawAnswer (VStr "rome")).
Proof.
  destruct (saveSession_then_getSession [openSession] "u1" "s1" onlyFirst 600 openSession
              eq_refl eq_refl eq_refl eq_refl)
    as [db' [reply [view [H1 [H2 [_ [_ [H3 _]]]]]]]].
  exists db', reply, view. split; [exact H1 |]. split; [exact H2 |].
  split; rewrite H3; (reflexivity || discriminate).
Defined.

(** X19.  Saved answers are what a submit without answers grades: after a
    [saveSession] by the owner of an attempt in progress, a submit whose body
    supplies no answers grades each question of the snapshot whose qid is not
    the name of a member of Object.prototype with the answer that save
    supplied for its qid, or else with the one saved before, and as
    unanswered when there is neither. *)
Theorem saveSession_then_submitSession (db : Sessions) (users : Users)
  (userId sessionId : string) (payload : Payload) (now : Z) (session : Session) :
  findById db sessionId = Some session ->
  s_user session = userId ->
  s_status session = InProgress ->
  acceptedBySave payload = true ->
  exists db1 reply,
    saveSession db userId sessionId payload now = (db1, Json reply)
    /\ forall payload2 now2 nowFinish statsThrows,
         ~ suppliesAnswers payload2 ->
         exists db2 users2 body,
           submitSession db1 users userId sessionId payload2 now2 nowFinish statsThrows
           = (db2, users2, Json body)
           /\ List.length (sub_details body) = List.length (s_questions session)
           /\ forall idx q,
                nth_error (s_questions session) idx = Some q ->
                inheritedName (qidOf q idx) = false ->
                nth_error (sub_details body) idx
                = Some (detailOf q idx
                          (orUndefined
                             (perQuestionPriority payload (s_answers session)
                                (qidOf q idx)))).
Proof.
  intros Hfind Hown Hst Hacc.
  destruct (saveSession_run db userId sessionId payload now session Hfind Hown Hst Hacc)
    as [merged [db1 [Hsave [Hstored [_ [_ Hmerged]]]]]].
  exists db1, (mkSaveBody true now (List.length merged)).
  split; [exact Hsave |].
  intros payload2 now2 nowFinish statsThrows Hnone.
  assert (Hkeys : hasKeys payload2 = false).
  { destruct (hasKeys payload2) eqn:E; [| reflexivity].
    exfalso. apply Hnone, hasKeys_suppliesAnswers, E. }
  destruct (submitSession_run db1 users userId sessionId payload2 now2 nowFinish
              statsThrows (setAnswers merged session) Hstored Hown Hst)
    as [db2 [_ [_ [_ Hrun]]]].
  cbv zeta in Hrun. cbn [setAnswers s_questions s_answers s_quiz s_totalQuestions
                         s_expiresAt] in Hrun.
  set (ds := details (gradeAll (s_questions session)
                        (AnswersByQid (answersMapFor payload2 merged)))) in *.
  assert (Hds : List.length ds = List.length (s_questions session)
                /\ forall idx q,
                     nth_error (s_questions session) idx = Some q ->
                     inheritedName (qidOf q idx) = false ->
                     nth_error ds idx
                     = Some (detailOf q idx
                               (orUndefined
                                  (perQuestionPriority payload (s_answers session)
                                     (qidOf q idx))))).
  { unfold ds. rewrite gradeAll_spec. cbv zeta. cbn [details].
    split; [apply mapi_length |]. intros idx q Hq Hname.
    rewrite mapi_nth_error, Hq. simpl. do 3 f_equal.
    unfold answersMapFor. rewrite Hkeys.
    rewrite (readProp_savedAnswersMap merged _ (qidOf_nonEmpty q idx)
               (inheritedName_proto _ Hname)).
    unfold saved at 1.
    rewrite (Hmerged _ (inheritedName_proto _ Hname)), (qidOf_nonEmpty q idx).
    destruct (perQuestionPriority payload (s_answers session) (qidOf q idx));
      reflexivity. }
  destruct statsThrows.
  - do 3 eexists. split; [exact Hrun | exact Hds].
  - destruct (incStats users userId (countCorrect ds)) as [users2 [userUpdate|]];
      do 3 eexists; (split; [exact Hrun | exact Hds]).
Qed.

Lemma saveSession_then_submitSession_witness :
  exists db1 reply db2 users2 body,
    saveSession [openSession] "u1" "s1" onlyFirst 600 = (db1, Json reply)
    /\ submitSession db1 alice "u1" "s1" noAnswers 700 701 false
       = (db2, users2, Json body)
    /\ List.length (sub_details body) = 2%nat
    /\ nth_error (sub_details body) 0
       = Some (detailOf (sampleQuestion "q1" "short" "paris") 0 (VStr "berlin"))
    /\ nth_error (sub_details body) 1
       = Some (detailOf (sampleQuestion "q2" "short" "rome") 1 (VStr "rome")).
Proof.
  destruct (saveSession_then_submitSession [openSession] alice "u1" "s1" onlyFirst 600
              openSession eq_refl eq_refl eq_refl eq_refl) as [db1 [reply [H1 H2]]].
  assert (Hnone : ~ suppliesAnswers noAnswers) by (simpl; tauto).
  destruct (H2 noAnswers 700 701 false Hnone) as [db2 [users2 [body [H3 [H4 H5]]]]].
  exists db1, reply, db2, users2, body.
  split; [exact H1 |]. split; [exact H3 |]. split; [exact H4 |].
  split;
    [apply (H5 0%nat (sampleQuestion "q1" "short" "paris"))
    | apply (H5 1%nat (sampleQuestion "q2" "short" "rome"))]; reflexivity.
Defined.

(** ** The review of a submitted attempt *)

Lemma find_stored_answer (f : Question -> nat -> Detail) (l : list Question) :
  NoDup (map q_qid l) ->
  (forall q i, In q l -> d_qid (f q i) = q_qid q) ->
  forall k i q,
    nth_error l i = Some q ->
    findAnswer (map answerToStore (mapi f l k)) (q_qid q)
    = Some (answerToStore (f q (k + i)%nat)).
Proof.
  unfold findAnswer.
  induction l as [|x r IH]; intros Hnd Hqid k i q Hq.
  - destruct i; discriminate.
  - simpl. rewrite (Hqid x k (or_introl eq_refl)).
    inversion Hnd as [|? ? Hnotin Hnd']; subst.
    destruct i as [|i]; simpl in Hq.
    + injection Hq as ->. rewrite String.eqb_refl, Nat.add_0_r. reflexivity.
    + assert (Hin : In q r) by (eapply nth_error_In; exact Hq).
      destruct (String.eqb (q_qid x) (q_qid q)) eqn:E.
      * apply String.eqb_eq in E. exfalso. apply Hnotin. rewrite E.
        apply in_map. exact Hin.
      * rewrite (IH Hnd' (fun q' j Hq' => Hqid q' j (or_intror Hq')) (S k) i q Hq).
        do 3 f_equal. lia.
Qed.

Lemma map_mapi_pointwise {A B C : Type} (g : A -> C) (h : B -> C) (f : A -> nat -> B)
  (l : list A) :
  forall k,
    (forall i x, nth_error l i = Some x -> g x = h (f x (k + i)%nat)) ->
    map g l = map h (mapi f l k).
Proof.
  induction l as [|x r IH]; intros k H; [reflexivity |]. simpl. f_equal.
  - rewrite (H O x eq_refl), Nat.add_0_r. reflexivity.
  - apply IH. intros i y Hy. rewrite (H (S i) y Hy). do 2 f_equal. lia.
Qed.

(** X20.  The review agrees with the result of the submit: when the questions
    of the snapshot carry distinct, non-empty qids other than [__proto__],
    [getSession] on an attempt just submitted by its owner reports it finished
    with the score of the submit reply, its review lists, question by
    question in snapshot order, the qid, the verdict and the user answer of
    the details of that reply, and its answers hold, under the qid of each
    detail, the answer stored for it. *)
Theorem submitSession_then_getSession (db : Sessions) (users : Users)
  (userId sessionId : string) (payload : Payload) (now nowFinish : Z)
  (statsThrows : bool) (session : Session) :
  findById db sessionId = Some session ->
  s_user session = userId ->
  s_status session = InProgress ->
  s_questions session <> [] ->
  NoDup (map q_qid (s_questions session)) ->
  (forall q, In q (s_questions session) -> nonEmpty (q_qid q) = true) ->
  (forall q, In q (s_questions session) -> q_qid q <> "__proto__") ->
  exists db' users' body view review,
    submitSession db users userId sessionId payload now nowFinish statsThrows
    = (db', users', Json body)
    /\ getSession db' userId sessionId = Json view
    /\ sb_status view = Finished
    /\ sb_score view = sub_score body
    /\ sb_autoSubmitted view = sub_autoSubmitted body
    /\ sb_details view = Some review
    /\ map rd_qid review = map d_qid (sub_details body)
    /\ map rd_isCorrect review = map d_isCorrect (sub_details body)
    /\ map rd_userAnswer review = map d_userAnswer (sub_details body)
    /\ forall d, In d (sub_details body) ->
                 getProp (sb_answers view) (d_qid d) = Some (FullAnswer (answerToStore d)).
Proof.
  intros Hfind Hown Hst Hne Hnd Hqids Hproto.
  destruct (submitSession_run db users userId sessionId payload now nowFinish
              statsThrows session Hfind Hown Hst) as [db' [Hnew [_ [_ Hrun]]]].
  cbv zeta in Hnew, Hrun.
  set (o := answersMapFor payload (s_answers session)) in *.
  set (f := fun (q : Question) (i : nat) =>
              detailOf q i (answerFor (AnswersByQid o) (qidOf q i) i)).
  assert (Eds : details (gradeAll (s_questions session) (AnswersByQid o))
                = mapi f (s_questions session) O).
  { rewrite gradeAll_spec. reflexivity. }
  rewrite Eds in Hnew, Hrun.
  set (ds := mapi f (s_questions session) O) in *.
  assert (Hf : forall q i, In q (s_questions session) -> d_qid (f q i) = q_qid q).
  { intros q i Hq. unfold f, detailOf, qidOf. cbn [d_qid]. rewrite (Hqids q Hq).
    reflexivity. }
  assert (Hstored : forall i q,
             nth_error (s_questions session) i = Some q ->
             findAnswer (map answerToStore ds) (q_qid q) = Some (answerToStore (f q i))).
  { intros i q Hq. apply (find_stored_answer f _ Hnd Hf O i q Hq). }
  assert (Hview : exists view review,
             getSession db' userId sessionId = Json view
             /\ sb_status view = Finished
             /\ sb_score view = countCorrect ds
             /\ sb_autoSubmitted view = optGt now (s_expiresAt session)
             /\ sb_details view = Some review
             /\ map rd_qid review = map d_qid ds
             /\ map rd_isCorrect review = map d_isCorrect ds
             /\ map rd_userAnswer review = map d_userAnswer ds
             /\ forall d, In d ds ->
                          getProp (sb_answers view) (d_qid d)
                          = Some (FullAnswer (answerToStore d))).
  { unfold getSession. rewrite Hnew.
    cbn [finalize s_user s_status s_questions s_answers s_score s_autoSubmitted].
    rewrite Hown, String.eqb_refl. cbn [negb Status_eqb].
    exists
      (mkSessionBody (s_id session) (s_quiz session) Finished (s_startedAt session)
         (s_expiresAt session) (s_totalQuestions session)
         (s_attemptDurationSeconds session)
         (map (clientQuestion true) (s_questions session))
         (Some (map (reviewDetail (map answerToStore ds)) (s_questions session)))
         (own (fold_left (fun acc a => assign viewKind acc (a_qid a) (FullAnswer a))
                 (map answerToStore ds) emptyDict))
         (countCorrect ds) (optGt now (s_expiresAt session))),
      (map (reviewDetail (map answerToStore ds)) (s_questions session)).
    split.
    { destruct (s_questions session) as [|q0 qs] eqn:Eqs; [congruence | reflexivity]. }
    cbn [sb_status sb_score sb_autoSubmitted sb_details sb_answers].
    repeat (split; [reflexivity |]).
    rewrite !map_map.
    split; [| split; [| split]].
    - unfold ds. apply map_mapi_pointwise. intros i q Hq. cbn [reviewDetail rd_qid].
      symmetry. apply Hf. eapply nth_error_In; exact Hq.
    - apply map_mapi_pointwise. intros i q Hq.
      unfold reviewDetail. cbn [rd_isCorrect]. rewrite (Hstored i q Hq). reflexivity.
    - apply map_mapi_pointwise. intros i q Hq.
      unfold reviewDetail. cbn [rd_userAnswer]. rewrite (Hstored i q Hq). reflexivity.
    - intros d Hd.
      destruct (In_nth_error _ _ Hd) as [i Hi]. unfold ds in Hi.
      rewrite mapi_nth_error in Hi.
      destruct (nth_error (s_questions session) i) as [q|] eqn:Eq; [| discriminate].
      simpl in Hi. injection Hi as <-.
      rewrite (Hf q i (nth_error_In _ _ Eq)).
      rewrite (getProp_answersMap FullAnswer)
        by (apply Hproto; eapply nth_error_In; exact Eq).
      assert (Hlast : findLast (fun a => String.eqb (a_qid a) (q_qid q))
                        (map answerToStore ds)
                      = findAnswer (map answerToStore ds) (q_qid q)).
      { rewrite (Hstored i q Eq). unfold findLast.
        destruct (find _ (rev (map answerToStore ds))) as [a|] eqn:Ea.
        - apply find_some in Ea. destruct Ea as [Hin Ea].
          apply in_rev, in_map_iff in Hin. destruct Hin as [d' [<- Hd']].
          destruct (In_nth_error _ _ Hd') as [j Hj]. unfold ds in Hj.
          rewrite mapi_nth_error in Hj.
          destruct (nth_error (s_questions session) j) as [q'|] eqn:Eq';
            [| discriminate].
          simpl in Hj. injection Hj as <-.
          cbn [answerToStore a_qid] in Ea.
          rewrite (Hf q' j (nth_error_In _ _ Eq')) in Ea.
          apply String.eqb_eq in Ea.
          assert (Hij : j = i).
          { apply (proj1 (NoDup_nth_error (map q_qid (s_questions session))) Hnd).
            - rewrite length_map. apply nth_error_Some. congruence.
            - rewrite !nth_error_map, Eq, Eq'. simpl. congruence. }
          subst j. congruence.
        - exfalso.
          assert (Hin : In (answerToStore (f q i)) (rev (map answerToStore ds))).
          { apply in_rev. rewrite rev_involutive. apply in_map. exact Hd. }
          apply (find_none _ _ Ea) in Hin. cbn [answerToStore a_qid] in Hin.
          rewrite (Hf q i (nth_error_In _ _ Eq)), String.eqb_refl in Hin.
          discriminate. }
      rewrite Hlast, (Hstored i q Eq). reflexivity. }
  destruct Hview as [view [review Hview]].
  destruct statsThrows.
  - do 5 eexists. split; [exact Hrun | exact Hview].
  - destruct (incStats users userId (countCorrect ds)) as [users' [userUpdate|]];
      do 5 eexists; (split; [exact Hrun | exact Hview]).
Qed.

Lemma submitSession_then_getSession_witness :
  exists db' users' body view review,
    submitSession [openSession] alice "u1" "s1" onlyFirst 500 501 false
    = (db', users', Json body)
    /\ getSession db' "u1" "s1" = Json view
    /\ sb_score view = sub_score body
    /\ sb_details view = Some review
    /\ map rd_isCorrect review = map d_isCorrect (sub_details body).
Proof.
  assert (Hne : s_questions openSession <> []) by discriminate.
  assert (Hnd : NoDup (map q_qid (s_questions openSession))).
  { repeat constructor; simpl; intuition discriminate. }
  assert (Hq : forall q, In q (s_questions openSession) -> nonEmpty (q_qid q) = true).
  { intros q [<- | [<- | []]]; reflexivity. }
  assert (Hp : forall q, In q (s_questions openSession) -> q_qid q <> "__proto__").
  { intros q [<- | [<- | []]]; discriminate. }
  destruct (submitSession_then_getSession [openSession] alice "u1" "s1" onlyFirst
              500 501 false openSession eq_refl eq_refl eq_refl Hne Hnd Hq Hp)
    as [db' [users' [body [view [review [H1 [H2 [_ [H3 [_ [H4 [_ [H5 _]]]]]]]]]]]]].
  exists db', users', body, view, review. auto.
Defined.

(** ** What a run of the expiry script leaves alone *)

Lemma incStats_other (users : Users) (id other : string) (score : nat) :
  other <> id ->
  findUser (fst (incStats users id score)) other = findUser users other.
Proof.
  intros Hne. destruct (findUser users id) as [u|] eqn:Eu.
  - destruct (incStats_found users id score u Eu) as [users' [-> [_ [H _]]]].
    apply H, Hne.
  - rewrite (incStats_missing users id score Eu). reflexivity.
Qed.

Lemma main_loop_users (now : Z) (statsThrows : string -> bool) (id : string)
  (l : list Session) :
  (forall s, In s l -> s_user s <> id) ->
  forall st,
    findUser (snd (fold_left (expireOne now statsThrows) l st)) id
    = findUser (snd st) id.
Proof.
  induction l as [|s r IH]; intros Hl st; [reflexivity |].
  simpl. rewrite IH by (intros x Hx; apply Hl; right; exact Hx).
  unfold expireOne. destruct (save (fst st) (timedOut now s)); [| reflexivity].
  destruct (statsThrows (s_id s)); [reflexivity |]. cbn [snd].
  apply incStats_other. intros E. apply (Hl s (or_introl eq_refl)). symmetry. exact E.
Qed.

(** X21.  A run of the expiry script changes nothing but the attempts its
    query returned: the collection keeps its identifiers in their order,
    every attempt that is not both in progress and due (finished, timed out,
    without a deadline, or due later) is stored as it was, at most 200
    attempts are finalized by one run, and a user who owns none of the
    selected attempts is left as is. *)
Theorem main_leaves_the_rest (now : Z) (statsThrows : string -> bool)
  (db : Sessions) (users : Users) :
  uniqueIds db ->
  let db1 := fst (main now statsThrows db users) in
  let users1 := snd (main now statsThrows db users) in
  map s_id db1 = map s_id db
  /\ (List.length (expired now db) <= 200)%nat
  /\ (forall d, In d db -> ~ In d (expired now db) -> findById db1 (s_id d) = Some d)
  /\ (forall d, In d db -> isExpired now d = false ->
                In d db1 /\ findById db1 (s_id d) = Some d)
  /\ (forall id, (forall s, In s (expired now db) -> s_user s <> id) ->
                 findUser users1 id = findUser users id).
Proof.
  intros Hu. cbv zeta. rewrite (main_store now statsThrows db users Hu).
  assert (Hkeep : forall d, In d db -> ~ In d (expired now db) ->
                            swept now (expired now db) d = d).
  { intros d Hd Hnot. unfold swept.
    destruct (existsb _ (expired now db)) eqn:Ex; [| reflexivity].
    exfalso. apply existsb_exists in Ex. destruct Ex as [s [Hs E]].
    apply String.eqb_eq in E. apply Hnot.
    pose proof (expired_In _ _ _ Hs) as [Hin _].
    rewrite <- (uniqueIds_same db s d Hu Hin Hd E). exact Hs. }
  assert (Hfind : forall d, In d db -> ~ In d (expired now db) ->
                            findById (map (swept now (expired now db)) db) (s_id d)
                            = Some d).
  { intros d Hd Hnot.
    rewrite findById_map by (intros x; apply swept_id).
    rewrite (findById_In db d Hu Hd). simpl. f_equal. apply Hkeep; assumption. }
  split; [| split; [| split; [exact Hfind | split]]].
  - rewrite map_map. apply map_ext. intros d. apply swept_id.
  - unfold expired, findLimit. rewrite length_firstn. apply Nat.le_min_l.
  - intros d Hd He.
    assert (Hnot : ~ In d (expired now db)).
    { intros Hin. apply expired_In in Hin. destruct Hin as [_ Hin]. congruence. }
    split; [| apply Hfind; assumption].
    rewrite <- (Hkeep d Hd Hnot) at 1. apply in_map. exact Hd.
  - intros id Hid. unfold main. apply (main_loop_users now statsThrows id _ Hid).
Qed.

Lemma main_leaves_the_rest_witness :
  findById (fst (main 2000 (fun _ => false) [finishedSession] alice)) "s1"
  = Some finishedSession.
Proof.
  assert (Hu : uniqueIds [finishedSession]).
  { repeat constructor. simpl. intuition. }
  destruct (main_leaves_the_rest 2000 (fun _ => false) [finishedSession] alice Hu)
    as [_ [_ [_ [H _]]]].
  apply (H finishedSession); [left; reflexivity | reflexivity].
Defined.

(** ** generateQuiz: the questions it returns *)

Lemma sanitizeShortAnswer_fst (raw : val) :
  fst (sanitizeShortAnswer raw) = sanitizeUserShortAnswer raw.
Proof. destruct raw; reflexivity. Qed.

Lemma sanitizeShortAnswer_snd (q : Question) :
  String.eqb (q_type q) "short" = true ->
  snd (sanitizeShortAnswer (nullish (q_answer_text q) (VStr ""))) = multiWordShort q.
Proof.
  intros Ht. unfold multiWordShort. rewrite Ht.
  destruct (q_answer_text q); reflexivity.
Qed.

Lemma sanitize_token_shape (v : val) :
  allChars notWhite (sanitizeUserShortAnswer v) = true
  /\ toLowerCase (sanitizeUserShortAnswer v) = sanitizeUserShortAnswer v.
Proof.
  assert (H : forall s,
             allChars notWhite
               (match filterBoolean (splitWs (trim s)) with
                | p :: _ => toLowerCase p
                | [] => ""
                end) = true
             /\ toLowerCase (match filterBoolean (splitWs (trim s)) with
                             | p :: _ => toLowerCase p
                             | [] => ""
                             end)
                = match filterBoolean (splitWs (trim s)) with
                  | p :: _ => toLowerCase p
                  | [] => ""
                  end).
  { intros s. destruct (filterBoolean (splitWs (trim s))) as [|p r] eqn:E.
    - split; reflexivity.
    - split; [| apply toLowerCase_idem].
      rewrite toLowerCase_notWhite.
      assert (Hin : In p (filterBoolean (splitWs (trim s)))) by (rewrite E; left; reflexivity).
      apply filter_In in Hin. destruct Hin as [Hin _].
      apply (splitWsFrom_tokens _ _ _ Hin). }
  destruct v; try (split; reflexivity); apply H.
Qed.

Lemma validateFrom_valid (questions : list Question) :
  forall i questions',
    validateFrom i questions = Valid questions' ->
    questions' = map validatedAs questions
    /\ forall q, In q questions -> multiWordShort q = false.
Proof.
  induction questions as [|q rest IH]; intros i questions' H; simpl in H.
  - injection H as <-. split; [reflexivity | intros q []].
  - assert (Hnext : forall q',
               match validateFrom (S i) rest with
               | Valid rest' => Valid (q' :: rest')
               | InvalidShort j raw => InvalidShort j raw
               end = Valid questions' ->
               questions' = q' :: map validatedAs rest
               /\ forall x, In x rest -> multiWordShort x = false).
    { intros q' Hq'. destruct (validateFrom (S i) rest) as [rest'|] eqn:E; [| discriminate].
      injection Hq' as <-. destruct (IH (S i) rest' E) as [-> Hrest]. auto. }
    unfold validatedAs at 1. simpl.
    destruct (nonEmpty (q_type q)) eqn:En; simpl in H.
    + destruct (String.eqb (q_type q) "short") eqn:Es.
      * rewrite (sanitizeShortAnswer_snd q Es), sanitizeShortAnswer_fst in H.
        destruct (multiWordShort q) eqn:Em; [discriminate |].
        destruct (Hnext _ H) as [-> Hrest]. split; [reflexivity |].
        intros x [<- | Hx]; [exact Em | apply Hrest, Hx].
      * assert (Hq : multiWordShort q = false) by (unfold multiWordShort; rewrite Es; reflexivity).
        destruct (String.eqb (q_type q) "tf");
          destruct (Hnext _ H) as [-> Hrest]; (split; [reflexivity |]);
          intros x [<- | Hx]; solve [exact Hq | apply Hrest, Hx].
    + assert (Et : q_type q = "") by (destruct (q_type q); [reflexivity | discriminate]).
      rewrite Et. simpl.
      assert (Hq : multiWordShort q = false) by (unfold multiWordShort; rewrite Et; reflexivity).
      destruct (Hnext _ H) as [-> Hrest]. split; [reflexivity |].
      intros x [<- | Hx]; [exact Hq | apply Hrest, Hx].
Qed.

Lemma validateFrom_invalid (questions : list Question) :
  forall i j raw,
    validateFrom i questions = InvalidShort j raw ->
    exists k q,
      j = (i + k)%nat
      /\ nth_error questions k = Some q
      /\ multiWordShort q = true
      /\ raw = takeChars 200 (ToString (nullish (q_answer_text q) (VStr "")))
      /\ forall k' q', (k' < k)%nat -> nth_error questions k' = Some q' ->
                       multiWordShort q' = false.
Proof.
  induction questions as [|q rest IH]; intros i j raw H; simpl in H; [discriminate |].
  assert (Hnext : forall q',
             multiWordShort q = false ->
             match validateFrom (S i) rest with
             | Valid rest' => Valid (q' :: rest')
             | InvalidShort j' raw' => InvalidShort j' raw'
             end = InvalidShort j raw ->
             exists k x,
               j = (i + k)%nat
               /\ nth_error (q :: rest) k = Some x
               /\ multiWordShort x = true
               /\ raw = takeChars 200 (ToString (nullish (q_answer_text x) (VStr "")))
               /\ forall k' x', (k' < k)%nat -> nth_error (q :: rest) k' = Some x' ->
                                multiWordShort x' = false).
  { intros q' Hq Hq'. destruct (validateFrom (S i) rest) as [rest'|j' raw'] eqn:E;
      [discriminate |].
    injection Hq' as -> ->. destruct (IH (S i) j raw E) as [k [x [Hj [Hk [Hm [Hraw Hbefore]]]]]].
    exists (S k), x. split; [lia |]. split; [exact Hk |]. split; [exact Hm |].
    split; [exact Hraw |]. intros k' x' Hlt Hx'. destruct k' as [|k'].
    - simpl in Hx'. injection Hx' as <-. exact Hq.
    - simpl in Hx'. apply (Hbefore k' x'); [lia | exact Hx']. }
  destruct (nonEmpty (q_type q)) eqn:En; simpl in H.
  - destruct (String.eqb (q_type q) "short") eqn:Es.
    + rewrite (sanitizeShortAnswer_snd q Es) in H.
      destruct (multiWordShort q) eqn:Em.
      * injection H as <- <-. exists O, q. split; [lia |]. split; [reflexivity |].
        split; [exact Em |]. split; [reflexivity |]. intros k' q' Hlt. lia.
      * apply (Hnext _ eq_refl H).
    + assert (Hq : multiWordShort q = false) by (unfold multiWordShort; rewrite Es; reflexivity).
      destruct (String.eqb (q_type q) "tf"); apply (Hnext _ Hq H).
  - assert (Hq : multiWordShort q = false).
    { unfold multiWordShort. destruct (q_type q); [reflexivity | discriminate]. }
    apply (Hnext _ Hq H).
Qed.

Lemma enforceMax_prefix (N : num) (questions : list Question) :
  exists n, enforceMax N questions = firstn n questions.
Proof.
  unfold enforceMax. destruct (numLt N _).
  - eexists. reflexivity.
  - exists (List.length questions). symmetry. apply firstn_all.
Qed.

Lemma nth_error_firstn_Some {A : Type} (n : nat) (l : list A) (k : nat) (x : A) :
  nth_error (firstn n l) k = Some x -> nth_error l k = Some x.
Proof.
  revert n k. induction l as [|y r IH]; intros n k H.
  - rewrite firstn_nil in H. destruct k; discriminate.
  - destruct n as [|n]; [destruct k; discriminate |].
    destruct k as [|k]; [exact H |]. simpl in H |- *. apply (IH n k H).
Qed.

(** X22.  Every question [generateQuiz] returns is one of the parsed
    questions, at the same position, and differs from it by its answer text
    only: a short question carries the first token of the model's answer in
    lower case, a string without white space that [toLowerCase] leaves as it
    is; a tf question carries exactly "true" or "false"; a question of another
    type, or without a type, is returned as parsed. *)
Theorem generateQuiz_answers_are_normalized (maxQuestions : val) (MAX_QUESTIONS : num)
  (questions questions' : list Question) :
  generateQuiz_questions maxQuestions MAX_QUESTIONS questions = Valid questions' ->
  (List.length questions' <= List.length questions)%nat
  /\ forall k q',
       nth_error questions' k = Some q' ->
       exists q,
         nth_error questions k = Some q
         /\ q_qid q' = q_qid q /\ q_type q' = q_type q /\ q_question q' = q_question q
         /\ q_choices q' = q_choices q /\ q_answer_index q' = q_answer_index q
         /\ q_explanation q' = q_explanation q /\ q_difficulty q' = q_difficulty q
         /\ (q_type q = "short" ->
             exists w,
               q_answer_text q' = VStr w
               /\ w = sanitizeUserShortAnswer (nullish (q_answer_text q) (VStr ""))
               /\ allChars notWhite w = true
               /\ toLowerCase w = w)
         /\ (q_type q = "tf" ->
             q_answer_text q' = VStr (tfAnswer (q_answer_text q))
             /\ (q_answer_text q' = VStr "true" \/ q_answer_text q' = VStr "false"))
         /\ (q_type q <> "short" -> q_type q <> "tf" -> q' = q).
Proof.
  unfold generateQuiz_questions. intros H.
  apply validateFrom_valid in H. destruct H as [-> _].
  destruct (enforceMax_prefix (questionLimit maxQuestions MAX_QUESTIONS) questions)
    as [n ->].
  split.
  { rewrite length_map, length_firstn. apply Nat.le_min_r. }
  intros k q' Hk. rewrite nth_error_map in Hk.
  destruct (nth_error (firstn n questions) k) as [q|] eqn:Eq; [| discriminate].
  simpl in Hk. injection Hk as <-. exists q.
  split; [apply (nth_error_firstn_Some n _ _ _ Eq) |].
  unfold validatedAs.
  destruct (String.eqb_spec (q_type q) "short") as [Es|Es].
  - cbn [withAnswerText q_qid q_type q_question q_choices q_answer_index q_explanation
         q_difficulty q_answer_text].
    repeat (split; [reflexivity |]).
    split; [| split; [rewrite Es; discriminate | congruence]].
    intros _. eexists. split; [reflexivity |]. split; [reflexivity |].
    apply sanitize_token_shape.
  - destruct (String.eqb_spec (q_type q) "tf") as [Et|Et].
    + cbn [withAnswerText q_qid q_type q_question q_choices q_answer_index q_explanation
           q_difficulty q_answer_text].
      repeat (split; [reflexivity |]).
      split; [congruence |]. split; [| congruence].
      intros _. split; [reflexivity |].
      unfold tfAnswer. destruct (q_answer_text q) as [| |b|x|s].
      * right; reflexivity.
      * right; reflexivity.
      * destruct (String.eqb _ "true"); [left | right]; reflexivity.
      * destruct (String.eqb _ "true"); [left | right]; reflexivity.
      * destruct (includes _ _); [left; reflexivity |].
        destruct (includes _ _); right; reflexivity.
    + repeat (split; [reflexivity |]).
      split; [congruence |]. split; [congruence | reflexivity].
Qed.

Lemma generateQuiz_answers_are_normalized_witness :
  exists q',
    generateQuiz_questions (VNum (numZ 1)) (numZ 10) [sampleQuestion "q1" "short" " Paris "]
    = Valid [q']
    /\ q_answer_text q' = VStr "paris".
Proof.
  eexists. split; [reflexivity |].
  destruct (generateQuiz_answers_are_normalized (VNum (numZ 1)) (numZ 10)
              [sampleQuestion "q1" "short" " Paris "] _ eq_refl) as [_ H].
  destruct (H O _ eq_refl) as [q [Hq [_ [_ [_ [_ [_ [_ [_ [Hs _]]]]]]]]]].
  injection Hq as <-. destruct (Hs eq_refl) as [w [Hw [-> _]]]. exact Hw.
Defined.

(** X23.  [generateQuiz] throws on, and only on, a short question among the
    questions it keeps whose answer has more than one token: the error names
    the index of the first such question and carries the first 200 characters
    of its answer; when there is none the questions are returned. *)
Theorem generateQuiz_rejects_multiword (maxQuestions : val) (MAX_QUESTIONS : num)
  (questions : list Question) :
  let kept := enforceMax (questionLimit maxQuestions MAX_QUESTIONS) questions in
  match generateQuiz_questions maxQuestions MAX_QUESTIONS questions with
  | Valid questions' =>
      (forall q, In q kept -> multiWordShort q = false)
      /\ questions' = map validatedAs kept
  | InvalidShort i rawAnswer =>
      exists q,
        nth_error kept i = Some q
        /\ multiWordShort q = true
        /\ rawAnswer = takeChars 200 (ToString (nullish (q_answer_text q) (VStr "")))
        /\ forall j q0, (j < i)%nat -> nth_error kept j = Some q0 ->
                        multiWordShort q0 = false
  end.
Proof.
  cbv zeta. unfold generateQuiz_questions.
  set (kept := enforceMax (questionLimit maxQuestions MAX_QUESTIONS) questions).
  destruct (validateFrom O kept) as [questions'|i raw] eqn:E.
  - apply validateFrom_valid in E. destruct E as [-> H]. split; [exact H | reflexivity].
  - apply validateFrom_invalid in E.
    destruct E as [k [q [Hi [Hk [Hm [Hraw Hbefore]]]]]]. simpl in Hi. subst i.
    exists q. auto.
Qed.

(** ** generateQuiz: how many questions *)

Lemma numLt_numZ (a b : Z) : numLt (numZ a) (numZ b) = (a <? b).
Proof.
  unfold numLt, numZ, Qle_bool. simpl. rewrite !Z.mul_1_r.
  destruct (Z.leb_spec b a), (Z.ltb_spec a b); try reflexivity; lia.
Qed.

Lemma mathMin_numZ (a b : Z) : mathMin (numZ a) (numZ b) = numZ (Z.min a b).
Proof.
  assert (H : mathMin (numZ a) (numZ b)
              = if numLt (numZ b) (numZ a) then numZ b else numZ a) by reflexivity.
  rewrite H, numLt_numZ.
  destruct (Z.ltb_spec b a); [rewrite Z.min_r by lia | rewrite Z.min_l by lia];
    reflexivity.
Qed.

Lemma enforceMax_numZ (k : Z) (questions : list Question) :
  enforceMax (numZ k) questions
  = firstn (if k <? 0 then (List.length questions - Z.to_nat (- k))%nat else Z.to_nat k)
      questions.
Proof.
  unfold enforceMax, numNat. rewrite numLt_numZ.
  assert (Hq : forall len, sliceEnd len (numZ k)
                           = if k <? 0 then Z.to_nat (Z.max (Z.of_nat len + k) 0)
                             else Nat.min (Z.to_nat k) len).
  { intros len. unfold sliceEnd, numZ. simpl. rewrite Z.quot_1_r. reflexivity. }
  rewrite Hq.
  destruct (Z.ltb_spec k (Z.of_nat (List.length questions))) as [Hlt|Hge].
  - destruct (Z.ltb_spec k 0); f_equal; lia.
  - destruct (Z.ltb_spec k 0); [lia |].
    symmetry. apply firstn_all2. lia.
Qed.

(** X24.  [generateQuiz] validates the first min(n, MAX_QUESTIONS) parsed
    questions when [maxQuestions] is the number n >= 1, and treats a request
    of 0, or none, as a request for one question; so it returns at most
    MAX_QUESTIONS questions for such a request.  A negative request -p is not
    raised to 1: it keeps all the parsed questions but the last p, whatever
    MAX_QUESTIONS is. *)
Theorem generateQuiz_question_limit (m : nat) (questions : list Question) :
  (forall n,
     generateQuiz_questions (VNum (numNat n)) (numNat m) questions
     = validateFrom O (firstn (Nat.min (Nat.max n 1) m) questions))
  /\ generateQuiz_questions VUndefined (numNat m) questions
     = validateFrom O (firstn (Nat.min 1 m) questions)
  /\ (forall n questions',
        generateQuiz_questions (VNum (numNat n)) (numNat m) questions = Valid questions' ->
        List.length questions'
        = Nat.min (List.length questions) (Nat.min (Nat.max n 1) m))
  /\ (forall p,
        generateQuiz_questions (VNum (numZ (Z.neg p))) (numNat m) questions
        = validateFrom O (firstn (List.length questions - Pos.to_nat p) questions)).
Proof.
  assert (Hlimit : forall n,
             questionLimit (VNum (numNat n)) (numNat m)
             = numZ (Z.of_nat (Nat.min (Nat.max n 1) m))).
  { intros n. unfold questionLimit. cbn [ToNumber].
    assert (Ht : truthy (VNum (numNat n)) = negb (Nat.eqb n 0)).
    { unfold truthy, numNat, numZ, Qeq_bool. simpl. rewrite Z.mul_1_r.
      destruct n; reflexivity. }
    rewrite Ht. unfold numNat at 2. destruct n as [|n]; cbn [Nat.eqb negb].
    - rewrite mathMin_numZ. f_equal. lia.
    - unfold numNat. rewrite mathMin_numZ. f_equal. lia. }
  assert (Hpos : forall n,
             generateQuiz_questions (VNum (numNat n)) (numNat m) questions
             = validateFrom O (firstn (Nat.min (Nat.max n 1) m) questions)).
  { intros n. unfold generateQuiz_questions. rewrite Hlimit, enforceMax_numZ.
    destruct (Z.ltb_spec (Z.of_nat (Nat.min (Nat.max n 1) m)) 0); [lia |].
    rewrite Nat2Z.id. reflexivity. }
  split; [exact Hpos |]. split; [| split].
  - unfold generateQuiz_questions.
    change (questionLimit VUndefined (numNat m))
      with (questionLimit (VNum (numNat 1)) (numNat m)).
    rewrite Hlimit, enforceMax_numZ.
    destruct (Z.ltb_spec (Z.of_nat (Nat.min (Nat.max 1 1) m)) 0); [lia |].
    rewrite Nat2Z.id. reflexivity.
  - intros n questions' H. rewrite Hpos in H. apply validateFrom_valid in H.
    destruct H as [-> _]. rewrite length_map, length_firstn. lia.
  - intros p. unfold generateQuiz_questions, questionLimit. cbn [ToNumber].
    assert (Ht : truthy (VNum (numZ (Z.neg p))) = true) by reflexivity.
    rewrite Ht. unfold numNat. rewrite mathMin_numZ.
    replace (Z.min (Z.neg p) (Z.of_nat m)) with (Z.neg p) by lia.
    rewrite enforceMax_numZ. destruct (Z.ltb_spec (Z.neg p) 0); [| lia].
    do 2 f_equal.
Qed.

(** ** generateQuiz and the grader *)

Lemma filterChars_all (p : ascii -> bool) (s : string) :
  allChars p s = true -> filterChars p s = s.
Proof.
  induction s as [|c r IH]; [reflexivity |]. simpl. intros H.
  apply andb_true_iff in H. destruct H as [Hc Hr]. rewrite Hc, (IH Hr). reflexivity.
Qed.

Lemma collapseWsFrom_notWhite (s : string) :
  forall b, allChars notWhite s = true -> collapseWsFrom b s = s.
Proof.
  induction s as [|c r IH]; intros b H; [reflexivity |]. simpl in H |- *.
  apply andb_true_iff in H. destruct H as [Hc Hr]. unfold notWhite in Hc.
  apply negb_true_iff in Hc. rewrite Hc, (IH false Hr). reflexivity.
Qed.

(** [normalizeText] leaves a lower-case token of kept characters as it is. *)
Lemma normalizeText_token (w : string) :
  allChars notWhite w = true -> allChars keptByNormalize w = true ->
  toLowerCase w = w -> normalizeText (VStr w) = w.
Proof.
  intros Hw Hk Hl. unfold normalizeText. cbn [ToString].
  rewrite (trim_notWhite w Hw), Hl, (filterChars_all _ _ Hk).
  apply collapseWsFrom_notWhite, Hw.
Qed.

(** X25.  The generator and the grader agree on short answers: when a short
    question returned by [generateQuiz] carries a non-empty answer made of
    characters the grader keeps (letters, digits, underscore, apostrophe,
    hyphen), an attempt started on it grades as correct every user answer
    whose first token in lower case is that answer; among them the answer of
    the model as it was before the validation. *)
Theorem generated_short_answer_is_accepted (maxQuestions : val) (MAX_QUESTIONS : num)
  (questions questions' : list Question) (k : nat) (q q' : Question) (w : string) :
  generateQuiz_questions maxQuestions MAX_QUESTIONS questions = Valid questions' ->
  nth_error questions k = Some q ->
  nth_error questions' k = Some q' ->
  q_type q = "short" ->
  q_answer_text q' = VStr w ->
  nonEmpty w = true ->
  allChars keptByNormalize w = true ->
  (forall i userAnswer,
     sanitizeUserShortAnswer userAnswer = w ->
     r_isCorrect (gradeQuestion (snapshotQuestion q' i) userAnswer) = true)
  /\ (forall i, r_isCorrect (gradeQuestion (snapshotQuestion q' i) (q_answer_text q)) = true).
Proof.
  unfold generateQuiz_questions. intros H Hq Hq' Ht Hw Hne Hkept.
  apply validateFrom_valid in H. destruct H as [-> _].
  destruct (enforceMax_prefix (questionLimit maxQuestions MAX_QUESTIONS) questions)
    as [n En]. rewrite En in Hq'. rewrite nth_error_map in Hq'.
  destruct (nth_error (firstn n questions) k) as [q0|] eqn:E0; [| discriminate].
  apply nth_error_firstn_Some in E0. rewrite Hq in E0. injection E0 as <-.
  simpl in Hq'. injection Hq' as <-.
  unfold validatedAs in Hw |- *. rewrite Ht in Hw |- *. cbn [String.eqb Ascii.eqb] in Hw |- *.
  simpl in Hw. injection Hw as Hw.
  destruct (sanitize_token_shape (nullish (q_answer_text q) (VStr ""))) as [Hwhite Hlow].
  rewrite Hw in Hwhite, Hlow.
  assert (Hgrade : forall i userAnswer,
             sanitizeUserShortAnswer userAnswer = w ->
             r_isCorrect
               (gradeQuestion
                  (snapshotQuestion
                     (withAnswerText q
                        (sanitizeUserShortAnswer (nullish (q_answer_text q) (VStr ""))))
                     i) userAnswer) = true).
  { intros i userAnswer Hua. rewrite Hw. unfold gradeQuestion.
    cbn [snapshotQuestion withAnswerText q_type q_answer_text nullish]. rewrite Ht.
    cbn [String.eqb Ascii.eqb Bool.eqb andb].
    assert (Ho : orElse (VStr w) (VStr "") = VStr w).
    { unfold orElse. cbn [truthy]. rewrite Hne. reflexivity. }
    rewrite Ho. cbn [ToString].
    rewrite (normalizeText_token w Hwhite Hkept Hlow), (splitWs_notWhite w Hwhite).
    cbn [hd]. rewrite Hne, Hua, String.eqb_refl. reflexivity. }
  split; [exact Hgrade |]. intros i. apply Hgrade.
  rewrite <- Hw. destruct (q_answer_text q) as [| |b|x|s]; reflexivity.
Qed.

Lemma generated_short_answer_is_accepted_witness :
  r_isCorrect
    (gradeQuestion
       (snapshotQuestion
          (withAnswerText (sampleQuestion "q1" "short" " Paris ") "paris") O)
       (VStr "  PARIS of course")) = true.
Proof.
  refine (proj1 (generated_short_answer_is_accepted (VNum (numZ 1)) (numZ 10)
                   [sampleQuestion "q1" "short" " Paris "] _ O _ _ "paris"
                   eq_refl eq_refl eq_refl eq_refl eq_refl eq_refl eq_refl) O _ _).
  reflexivity.
Defined.

(** X26.  The generator and the grader agree on tf answers: an attempt
    started on a tf question returned by [generateQuiz] grades a user answer
    as correct exactly when the answer, once normalized, is one of the words
    the grader reads as a boolean (true, t, 1, yes, y; false, f, 0, no, n) and
    that boolean is the stored one. *)
Theorem generated_tf_is_graded_as_boolean (maxQuestions : val) (MAX_QUESTIONS : num)
  (questions questions' : list Question) (k : nat) (q q' : Question) :
  generateQuiz_questions maxQuestions MAX_QUESTIONS questions = Valid questions' ->
  nth_error questions k = Some q ->
  nth_error questions' k = Some q' ->
  q_type q = "tf" ->
  exists stored : bool,
    q_answer_text q' = VStr (if stored then "true" else "false")
    /\ forall i userAnswer,
         r_isCorrect (gradeQuestion (snapshotQuestion q' i) userAnswer)
         = match asBool (normalizeText userAnswer) with
           | Some b => Bool.eqb stored b
           | None => false
           end.
Proof.
  unfold generateQuiz_questions. intros H Hq Hq' Ht.
  apply validateFrom_valid in H. destruct H as [-> _].
  destruct (enforceMax_prefix (questionLimit maxQuestions MAX_QUESTIONS) questions)
    as [n En]. rewrite En in Hq'. rewrite nth_error_map in Hq'.
  destruct (nth_error (firstn n questions) k) as [q0|] eqn:E0; [| discriminate].
  apply nth_error_firstn_Some in E0. rewrite Hq in E0. injection E0 as <-.
  simpl in Hq'. injection Hq' as <-.
  unfold validatedAs. rewrite Ht. cbn [String.eqb Ascii.eqb].
  assert (Hgrade : forall (stored : bool) i userAnswer,
             r_isCorrect
               (gradeQuestion
                  (snapshotQuestion (withAnswerText q (if stored then "true" else "false")) i)
                  userAnswer)
             = match asBool (normalizeText userAnswer) with
               | Some b => Bool.eqb stored b
               | None => false
               end).
  { intros stored i userAnswer. unfold gradeQuestion.
    cbn [snapshotQuestion withAnswerText q_type q_answer_text nullish]. rewrite Ht.
    cbn [String.eqb Ascii.eqb Bool.eqb andb r_isCorrect].
    set (ua := normalizeText userAnswer).
    destruct stored.
    - change (normalizeText (orElse (VStr "true") (VStr ""))) with "true".
      change (asBool "true") with (Some true).
      destruct (asBool ua) as [b|] eqn:Eb; [reflexivity |].
      destruct (String.eqb_spec "true" ua) as [E|E]; [| reflexivity].
      rewrite <- E in Eb. discriminate Eb.
    - change (normalizeText (orElse (VStr "false") (VStr ""))) with "false".
      change (asBool "false") with (Some false).
      destruct (asBool ua) as [b|] eqn:Eb; [reflexivity |].
      destruct (String.eqb_spec "false" ua) as [E|E]; [| reflexivity].
      rewrite <- E in Eb. discriminate Eb. }
  assert (Htf : tfAnswer (q_answer_text q) = "true" \/ tfAnswer (q_answer_text q) = "false").
  { unfold tfAnswer. destruct (q_answer_text q) as [| |b|x|s].
    - right; reflexivity.
    - right; reflexivity.
    - destruct (String.eqb _ "true"); [left | right]; reflexivity.
    - destruct (String.eqb _ "true"); [left | right]; reflexivity.
    - destruct (includes _ _); [left; reflexivity |].
      destruct (includes _ _); right; reflexivity. }
  destruct Htf as [-> | ->].
  - exists true. split; [reflexivity | apply (Hgrade true)].
  - exists false. split; [reflexivity | apply (Hgrade false)].
Qed.

Lemma generated_tf_is_graded_as_boolean_witness :
  exists stored : bool,
    q_answer_text (withAnswerText (sampleQuestion "q1" "tf" "Yes") "true")
    = VStr (if stored then "true" else "false")
    /\ r_isCorrect
         (gradeQuestion
            (snapshotQuestion (withAnswerText (sampleQuestion "q1" "tf" "Yes") "true") O)
            (VStr " T ")) = true.
Proof.
  destruct (generated_tf_is_graded_as_boolean (VNum (numZ 1)) (numZ 10)
              [sampleQuestion "q1" "tf" "Yes"] _ O _ _ eq_refl eq_refl eq_refl eq_refl)
    as [stored [Hs Hg]].
  exists stored. split; [exact Hs |]. rewrite Hg.
  destruct stored; [reflexivity | discriminate Hs].
Defined.

(** ** callGemini *)

Lemma numGe_numNat (a b : nat) : numGe (numNat a) (numNat b) = (b <=? a)%nat.
Proof.
  unfold numGe, numNat, numZ, Qle_bool. simpl. rewrite !Z.mul_1_r.
  destruct (Z.leb_spec (Z.of_nat b) (Z.of_nat a)), (Nat.leb_spec b a);
    try reflexivity; lia.
Qed.

Lemma callGemini_loop_stops {A : Type} (m : nat) (BASE_DELAY_MS : num)
  (post : nat -> Posted A) :
  forall fuel attempt,
    (attempt <= m)%nat -> (m - attempt < fuel)%nat ->
    exists k,
      (attempt < k <= m + 1)%nat
      /\ callGemini_loop (numNat m) BASE_DELAY_MS post fuel attempt
         = Some (outcomeOf (post k), backoffs BASE_DELAY_MS attempt (k - 1 - attempt))
      /\ (forall j, (attempt < j < k)%nat -> retryable (post j) = true)
      /\ ((k <= m)%nat -> retryable (post k) = false).
Proof.
  induction fuel as [|fuel IH]; intros attempt Hle Hfuel; [lia |].
  cbn [callGemini_loop]. cbv zeta.
  assert (Hstop : forall r : Called A,
             r = outcomeOf (post (S attempt)) ->
             ((S attempt <= m)%nat -> retryable (post (S attempt)) = false) ->
             exists k,
               (attempt < k <= m + 1)%nat
               /\ Some (r, @nil num)
                  = Some (outcomeOf (post k),
                          backoffs BASE_DELAY_MS attempt (k - 1 - attempt))
               /\ (forall j, (attempt < j < k)%nat -> retryable (post j) = true)
               /\ ((k <= m)%nat -> retryable (post k) = false)).
  { intros r -> Hr. exists (S attempt). split; [lia |].
    split; [replace (S attempt - 1 - attempt)%nat with O by lia; reflexivity |].
    split; [intros j Hj; lia | exact Hr]. }
  assert (Hretry : retryable (post (S attempt)) = true -> (S attempt <= m)%nat ->
             exists k,
               (attempt < k <= m + 1)%nat
               /\ match callGemini_loop (numNat m) BASE_DELAY_MS post fuel (S attempt) with
                  | Some (r, slept) =>
                      Some (r, jsMul BASE_DELAY_MS (fl (numNat (2 ^ (S attempt - 1))))
                               :: slept)
                  | None => None
                  end
                  = Some (outcomeOf (post k),
                          backoffs BASE_DELAY_MS attempt (k - 1 - attempt))
               /\ (forall j, (attempt < j < k)%nat -> retryable (post j) = true)
               /\ ((k <= m)%nat -> retryable (post k) = false)).
  { intros Hr Hm. destruct (IH (S attempt) Hm ltac:(lia)) as [k [Hk [Hrun [Hbefore Hlast]]]].
    exists k. split; [lia |]. rewrite Hrun. split.
    - replace (k - 1 - attempt)%nat with (S (k - 1 - S attempt)) by lia.
      unfold backoffs. cbn [seq map].
      replace (S attempt - 1)%nat with attempt by lia. reflexivity.
    - split; [| exact Hlast]. intros j Hj.
      destruct (Nat.eq_dec j (S attempt)) as [-> | Hne]; [exact Hr |].
      apply Hbefore. lia. }
  rewrite numGe_numNat.
  destruct (post (S attempt)) as [data| |status] eqn:Ep.
  - apply Hstop; [reflexivity | reflexivity].
  - cbn [isNetwork orb andb] in *.
    destruct (Nat.leb_spec (S attempt) m).
    + apply Hretry; [reflexivity | assumption].
    + apply Hstop; [reflexivity | intros; lia].
  - cbn [isNetwork orb] in *.
    destruct (is5xx (statusOf (Refused status))) eqn:E5; cbn [andb].
    + destruct (Nat.leb_spec (S attempt) m).
      * apply Hretry; [exact E5 | assumption].
      * apply Hstop; [reflexivity | intros; lia].
    + apply Hstop; [reflexivity | intros _; exact E5].
Qed.

(** X27.  With MAX_RETRIES = m, [callGemini] always stops: it posts k times
    for some k between 1 and m + 1, every post before the k-th having failed
    without a response or with a 5xx status; it stops on the first post that
    succeeds or fails otherwise (a 4xx is never tried again), or on post
    m + 1; it returns the data of that post or throws with its status; and the
    delays it slept are BASE_DELAY_MS times 1, 2, 4, ... in this order. *)
Theorem callGemini_retries {A : Type} (key : string) (m : nat) (BASE_DELAY_MS : num)
  (post : nat -> Posted A) (fuel : nat) :
  nonEmpty key = true ->
  (m < fuel)%nat ->
  exists k,
    (1 <= k <= m + 1)%nat
    /\ callGemini (Some key) (numNat m) BASE_DELAY_MS post fuel
       = Some (outcomeOf (post k), backoffs BASE_DELAY_MS 0 (k - 1))
    /\ (forall j, (1 <= j < k)%nat -> retryable (post j) = true)
    /\ ((k <= m)%nat -> retryable (post k) = false).
Proof.
  intros Hkey Hfuel. unfold callGemini.
  destruct key as [|c key]; [discriminate |].
  destruct (callGemini_loop_stops m BASE_DELAY_MS post fuel O ltac:(lia) ltac:(lia))
    as [k [Hk [Hrun [Hbefore Hlast]]]].
  exists k. split; [lia |]. rewrite Hrun, Nat.sub_0_r.
  split; [reflexivity |]. split; [| exact Hlast].
  intros j Hj. apply Hbefore. lia.
Qed.

Lemma callGemini_retries_witness :
  exists k,
    (1 <= k <= 4)%nat
    /\ callGemini (Some "key") (numNat 3) (numZ 500) flakyPost 4
       = Some (outcomeOf (flakyPost k), backoffs (numZ 500) 0 (k - 1))
    /\ (forall j, (1 <= j < k)%nat -> retryable (flakyPost j) = true)
    /\ ((k <= 3)%nat -> retryable (flakyPost k) = false).
Proof.
  apply (callGemini_retries "key" 3 (numZ 500) flakyPost 4); [reflexivity | lia].
Defined.

Example callGemini_third_post_succeeds :
  callGemini (Some "key") (numNat 3) (numZ 500) flakyPost 4
  = Some (Data 3%nat, [numMul (numZ 500) (numNat 1); numMul (numZ 500) (numNat 2)]).
Proof. reflexivity. Qed.

(** ** extractFirstJsonBlock *)

Lemma append_cons (c : ascii) (a b : string) : (String c a ++ b)%string = String c (a ++ b).
Proof. reflexivity. Qed.

Lemma append_empty (x : string) : (x ++ "")%string = x.
Proof. induction x as [|c r IH]; [reflexivity |]. simpl. rewrite IH. reflexivity. Qed.

Lemma allChars_app (p : ascii -> bool) (a b : string) :
  allChars p (a ++ b) = allChars p a && allChars p b.
Proof.
  induction a as [|c r IH]; [reflexivity |]. simpl. rewrite IH. apply andb_assoc.
Qed.

(** A pattern that starts with a backtick matches nowhere in a string
    without backticks. *)
Lemma replaceAllFrom_noTick (matchAt : string -> option nat) (a rest : string) :
  (forall c r, Ascii.eqb c backtick = false -> matchAt (String c r) = None) ->
  allChars noTick a = true ->
  replaceAllFrom matchAt O (a ++ rest) = (a ++ replaceAllFrom matchAt O rest)%string.
Proof.
  intros Hm. induction a as [|c r IH]; intros H; [reflexivity |].
  simpl in H. apply andb_true_iff in H. destruct H as [Hc Hr].
  unfold noTick in Hc. apply negb_true_iff in Hc.
  rewrite !append_cons. cbn [replaceAllFrom].
  rewrite (Hm c (r ++ rest)%string Hc), (IH Hr). reflexivity.
Qed.

Lemma replaceAll_noTick (matchAt : string -> option nat) (a : string) :
  (forall c r, Ascii.eqb c backtick = false -> matchAt (String c r) = None) ->
  allChars noTick a = true ->
  replaceAll matchAt a = a.
Proof.
  intros Hm H. unfold replaceAll.
  pose proof (replaceAllFrom_noTick matchAt a "" Hm H) as E.
  rewrite append_empty in E. rewrite E. apply append_empty.
Qed.

Lemma afterTicks_noTick (c : ascii) (r : string) :
  Ascii.eqb c backtick = false -> afterTicks (String c r) = None.
Proof.
  intros H. unfold afterTicks. destruct r as [|b [|d r']]; try reflexivity.
  rewrite H. reflexivity.
Qed.

Lemma fenceAt_noTick (c : ascii) (r : string) :
  Ascii.eqb c backtick = false -> fenceAt (String c r) = None.
Proof. intros H. unfold fenceAt. rewrite (afterTicks_noTick c r H). reflexivity. Qed.

Lemma ticksAt_noTick (c : ascii) (r : string) :
  Ascii.eqb c backtick = false -> ticksAt (String c r) = None.
Proof. intros H. unfold ticksAt. rewrite (afterTicks_noTick c r H). reflexivity. Qed.

Lemma tickAt_noTick (c : ascii) (r : string) :
  Ascii.eqb c backtick = false -> tickAt (String c r) = None.
Proof. intros H. unfold tickAt. rewrite H. reflexivity. Qed.

Lemma replaceAllFrom_skip (matchAt : string -> option nat) (x rest : string) :
  replaceAllFrom matchAt (String.length x) (x ++ rest) = replaceAllFrom matchAt O rest.
Proof.
  induction x as [|c r IH]; [destruct rest; reflexivity |]. simpl. exact IH.
Qed.

Lemma lettersPrefix_app (lang rest : string) :
  allChars isLetter lang = true ->
  lettersPrefix (lang ++ String newline rest) = String.length lang
  /\ dropChars (String.length lang) (lang ++ String newline rest) = String newline rest.
Proof.
  induction lang as [|c r IH]; intros H; [split; reflexivity |].
  simpl in H. apply andb_true_iff in H. destruct H as [Hc Hr].
  destruct (IH Hr) as [H1 H2]. simpl. rewrite Hc, H1. split; [reflexivity | exact H2].
Qed.

(** An opening fence with its language tag and its line end is one match. *)
Lemma replaceAllFrom_fence (lang rest : string) :
  allChars isLetter lang = true ->
  replaceAllFrom fenceAt O (fence ++ lang ++ String newline rest)
  = replaceAllFrom fenceAt O rest.
Proof.
  intros H. destruct (lettersPrefix_app lang rest H) as [H1 H2].
  unfold fence. rewrite !append_cons. change ("" ++ lang ++ String newline rest)%string
    with (lang ++ String newline rest)%string.
  cbn [replaceAllFrom].
  assert (Hf : fenceAt (String backtick (String backtick (String backtick
                          (lang ++ String newline rest))))
               = Some (S (S (S (String.length lang + 1))))).
  { unfold fenceAt. cbn [afterTicks]. rewrite !Ascii.eqb_refl. cbn [andb].
    cbv zeta. rewrite H1, H2, Ascii.eqb_refl. f_equal. }
  rewrite Hf. cbn [replaceAllFrom].
  pose proof (replaceAllFrom_skip fenceAt (lang ++ String newline "") rest) as E.
  assert (Hl : String.length (lang ++ String newline "") = (String.length lang + 1)%nat).
  { clear. induction lang as [|c r IH]; [reflexivity |]. simpl. rewrite IH. reflexivity. }
  assert (Ha : ((lang ++ String newline "") ++ rest)%string
               = (lang ++ String newline rest)%string).
  { clear. induction lang as [|c r IH]; [reflexivity |]. simpl. rewrite IH. reflexivity. }
  rewrite Hl, Ha in E. exact E.
Qed.

Lemma replaceAll_tickAt (s : string) : allChars noTick (replaceAll tickAt s) = true.
Proof.
  unfold replaceAll. induction s as [|c r IH]; [reflexivity |].
  cbn [replaceAllFrom tickAt]. destruct (Ascii.eqb c backtick) eqn:E.
  - exact IH.
  - cbn [allChars]. unfold noTick at 1. rewrite E, IH. reflexivity.
Qed.

Lemma allChars_dropChars (p : ascii -> bool) (n : nat) (s : string) :
  allChars p s = true -> allChars p (dropChars n s) = true.
Proof.
  revert s. induction n as [|n IH]; intros s H; [destruct s; exact H |].
  destruct s as [|c r]; [exact H |]. simpl in H |- *.
  apply andb_true_iff in H. apply IH, H.
Qed.

Lemma allChars_takeChars (p : ascii -> bool) (n : nat) (s : string) :
  allChars p s = true -> allChars p (takeChars n s) = true.
Proof.
  revert s. induction n as [|n IH]; intros s H; [destruct s; reflexivity |].
  destruct s as [|c r]; [reflexivity |]. simpl in H |- *.
  apply andb_true_iff in H. destruct H as [Hc Hr]. rewrite Hc, (IH r Hr). reflexivity.
Qed.

Lemma allChars_trimStart (p : ascii -> bool) (s : string) :
  allChars p s = true -> allChars p (trimStart s) = true.
Proof.
  induction s as [|c r IH]; intros H; [reflexivity |]. simpl.
  destruct (isWhiteSpace c); [| exact H].
  simpl in H. apply andb_true_iff in H. apply IH, H.
Qed.

Lemma allChars_trimEnd (p : ascii -> bool) (s : string) :
  allChars p s = true -> allChars p (trimEnd s) = true.
Proof.
  induction s as [|c r IH]; intros H; [reflexivity |]. simpl in H |- *.
  apply andb_true_iff in H. destruct H as [Hc Hr]. specialize (IH Hr).
  destruct (trimEnd r) as [|d r'].
  - destruct (isWhiteSpace c); [reflexivity |]. simpl. rewrite Hc. reflexivity.
  - cbn [allChars] in IH |- *. rewrite Hc. exact IH.
Qed.

Lemma trimEnd_idem (s : string) : trimEnd (trimEnd s) = trimEnd s.
Proof.
  induction s as [|c r IH]; [reflexivity |]. simpl.
  destruct (trimEnd r) as [|d r'] eqn:E.
  - destruct (isWhiteSpace c) eqn:Ec; [reflexivity |]. simpl. rewrite Ec. reflexivity.
  - cbn [trimEnd] in IH |- *. fold trimEnd in IH |- *.
    change (trimEnd (String c (String d r')))
      with (match trimEnd (String d r') with
            | EmptyString => if isWhiteSpace c then EmptyString else String c EmptyString
            | r0 => String c r0
            end).
    rewrite IH. reflexivity.
Qed.

Lemma startsNotWhite_trimStart (s : string) : startsNotWhite (trimStart s) = true.
Proof.
  induction s as [|c r IH]; [reflexivity |]. simpl.
  destruct (isWhiteSpace c) eqn:E; [exact IH |]. simpl. unfold notWhite. rewrite E.
  reflexivity.
Qed.

Lemma startsNotWhite_trimEnd (s : string) :
  startsNotWhite s = true -> startsNotWhite (trimEnd s) = true.
Proof.
  destruct s as [|c r]; [reflexivity |]. simpl. intros H.
  destruct (trimEnd r); [| exact H].
  destruct (isWhiteSpace c) eqn:E; [reflexivity | exact H].
Qed.

Lemma trim_idem (s : string) : trim (trim s) = trim s.
Proof.
  unfold trim.
  rewrite (trimStart_notWhite (trimEnd (trimStart s))).
  - apply trimEnd_idem.
  - apply startsNotWhite_trimEnd, startsNotWhite_trimStart.
Qed.

Lemma indexOf_app (c : ascii) (pre rest : string) :
  indexOf c pre = None ->
  indexOf c (pre ++ String c rest) = Some (String.length pre).
Proof.
  induction pre as [|a r IH]; simpl.
  - intros _. rewrite Ascii.eqb_refl. reflexivity.
  - destruct (Ascii.eqb a c); [discriminate |].
    destruct (indexOf c r); [discriminate |]. intros _. rewrite (IH eq_refl). reflexivity.
Qed.

Lemma lastIndexOf_app (c : ascii) (x post : string) :
  lastIndexOf c post = None ->
  lastIndexOf c (x ++ String c post) = Some (String.length x).
Proof.
  intros H. induction x as [|a r IH]; simpl.
  - rewrite H, Ascii.eqb_refl. reflexivity.
  - rewrite IH. reflexivity.
Qed.

Lemma dropChars_app (pre rest : string) :
  dropChars (String.length pre) (pre ++ rest) = rest.
Proof.
  induction pre as [|a r IH]; [destruct rest; reflexivity | exact IH].
Qed.

Lemma takeChars_app (mid post : string) :
  takeChars (String.length mid) (mid ++ post) = mid.
Proof.
  induction mid as [|a r IH]; [destruct post; reflexivity |]. simpl. rewrite IH.
  reflexivity.
Qed.

Lemma trimEnd_last (x : string) (c : ascii) :
  isWhiteSpace c = false ->
  trimEnd (x ++ String c "") = (x ++ String c "")%string.
Proof.
  intros Hc. induction x as [|a r IH]; simpl.
  - rewrite Hc. reflexivity.
  - rewrite IH. destruct (r ++ String c "")%string eqn:E; [| reflexivity].
    destruct r; discriminate E.
Qed.

Lemma length_app_string (a b : string) :
  String.length (a ++ b) = (String.length a + String.length b)%nat.
Proof.
  induction a as [|c r IH]; [reflexivity |]. simpl. rewrite IH. reflexivity.
Qed.

(** X28.  [extractFirstJsonBlock] returns a string without backticks and
    without white space at either end.  A text free of backticks is cleaned to
    itself, and a text that wraps a part in a code fence with a language tag
    is cleaned to the text without the two fence lines; when the cleaned text
    holds a brace pair, with no opening brace before it and no closing brace
    after it, the result is exactly the text from the one brace to the
    other. *)
Theorem extractFirstJsonBlock_finds_the_object :
  (forall text out,
     extractFirstJsonBlock text = Some out ->
     allChars noTick out = true /\ trim out = out)
  /\ (forall s, allChars noTick s = true -> cleanedOf s = s)
  /\ (forall a lang b,
        allChars noTick a = true -> allChars isLetter lang = true ->
        allChars noTick b = true ->
        cleanedOf (a ++ fence ++ lang ++ String newline (b ++ fence)) = (a ++ b)%string)
  /\ (forall s pre body post,
        nonEmpty s = true ->
        cleanedOf s
        = (pre ++ String openBrace (body ++ String closeBrace post))%string ->
        indexOf openBrace pre = None ->
        lastIndexOf closeBrace post = None ->
        extractFirstJsonBlock (VStr s)
        = Some (String openBrace (body ++ String closeBrace ""))).
Proof.
  assert (Hclean : forall s, allChars noTick s = true -> cleanedOf s = s).
  { intros s H. unfold cleanedOf.
    rewrite (replaceAll_noTick fenceAt s fenceAt_noTick H).
    rewrite (replaceAll_noTick ticksAt s ticksAt_noTick H).
    apply (replaceAll_noTick tickAt s tickAt_noTick H). }
  split; [| split; [exact Hclean | split]].
  - intros text out H. destruct text as [| |b|n|s]; try discriminate.
    unfold extractFirstJsonBlock in H.
    destruct (nonEmpty s); [| discriminate]. cbn [negb] in H. cbv zeta in H.
    assert (Hc : allChars noTick (cleanedOf s) = true) by apply replaceAll_tickAt.
    assert (Ht : forall x, allChars noTick x = true ->
                           allChars noTick (trim x) = true /\ trim (trim x) = trim x).
    { intros x Hx. split; [| apply trim_idem].
      unfold trim. apply allChars_trimEnd, allChars_trimStart, Hx. }
    destruct (indexOf openBrace (cleanedOf s)) as [first|];
      [| injection H as <-; apply Ht, Hc].
    destruct (lastIndexOf closeBrace (cleanedOf s)) as [last|];
      [| injection H as <-; apply Ht, Hc].
    destruct (last <=? first)%nat; injection H as <-; apply Ht; [exact Hc |].
    unfold slice. apply allChars_takeChars, allChars_dropChars, Hc.
  - intros a lang b Ha Hlang Hb.
    assert (Hfirst : replaceAll fenceAt (a ++ fence ++ lang ++ String newline (b ++ fence))
                     = (a ++ b)%string).
    { unfold replaceAll.
      rewrite (replaceAllFrom_noTick fenceAt a _ fenceAt_noTick Ha).
      rewrite (replaceAllFrom_fence lang (b ++ fence) Hlang).
      rewrite (replaceAllFrom_noTick fenceAt b fence fenceAt_noTick Hb).
      change (replaceAllFrom fenceAt O fence) with EmptyString.
      rewrite append_empty. reflexivity. }
    unfold cleanedOf. rewrite Hfirst.
    assert (Hab : allChars noTick (a ++ b) = true) by (rewrite allChars_app, Ha, Hb; reflexivity).
    rewrite (replaceAll_noTick ticksAt _ ticksAt_noTick Hab).
    apply (replaceAll_noTick tickAt _ tickAt_noTick Hab).
  - intros s pre body post Hs Hc Hpre Hpost.
    unfold extractFirstJsonBlock. rewrite Hs. cbn [negb]. cbv zeta. rewrite Hc.
    rewrite (indexOf_app openBrace pre _ Hpre).
    assert (Hsplit : (pre ++ String openBrace (body ++ String closeBrace post))%string
                     = ((pre ++ String openBrace body) ++ String closeBrace post)%string).
    { clear. induction pre as [|c r IH]; [reflexivity |]. simpl. rewrite IH. reflexivity. }
    rewrite Hsplit at 1.
    rewrite (lastIndexOf_app closeBrace (pre ++ String openBrace body) post Hpost).
    rewrite length_app_string. cbn [String.length].
    destruct (Nat.leb_spec (String.length pre + S (String.length body))
                (String.length pre)); [lia |].
    f_equal. unfold slice. rewrite dropChars_app.
    replace (String.length pre + S (String.length body) + 1 - String.length pre)%nat
      with (String.length (String openBrace (body ++ String closeBrace ""))).
    2:{ cbn [String.length]. rewrite length_app_string. simpl. lia. }
    assert (Hmid : String openBrace (body ++ String closeBrace post)
                   = (String openBrace (body ++ String closeBrace "") ++ post)%string).
    { clear. simpl. f_equal. induction body as [|c r IH]; [reflexivity |].
      simpl. rewrite IH. reflexivity. }
    rewrite Hmid, takeChars_app.
    unfold trim. cbn [trimStart].
    change (isWhiteSpace openBrace) with false. cbv iota.
    apply (trimEnd_last (String openBrace body) closeBrace). reflexivity.
Qed.

Lemma extractFirstJsonBlock_finds_the_object_witness :
  extractFirstJsonBlock
    (VStr ("Here you go: " ++ fence ++ "json" ++ String newline ("{1}" ++ fence)))
  = Some "{1}".
Proof.
  destruct extractFirstJsonBlock_finds_the_object as [_ [_ [Hfence Hfind]]].
  apply (Hfind _ "Here you go: " "1" "").
  - reflexivity.
  - apply (Hfence "Here you go: " "json" "{1}"); reflexivity.
  - reflexivity.
  - reflexivity.
Defined.

